(** * codemetrics.core: a shallow embedding of the reporting functions

    The functions of [codemetrics/core.py] are written against pandas.  The
    embedding keeps their shape: every pandas call of the source is one call
    of a table primitive defined below, and a function of the source is the
    same sequence of calls in an error monad ([KeyError] and friends are the
    [Raise] results).

    Modelling choices, once and for all:
    - a cell is a [value]; a float64 is an exact rational extended with the
      two infinities and NaN (rounding and overflow of binary floats are not
      modelled), and NaN is the missing value;
    - a [DataFrame] is a header (index level names, column labels) and a list
      of rows; a row carries its index labels and its cells, aligned with the
      header.  The default integer index is modelled by the absence of labels;
    - time stamps are instants counted in nanoseconds; time zones are not
      modelled. *)

From Stdlib Require Import QArith Qcanon ZArith Ascii String.
From stdpp Require Import base sorting numbers strings option list.

Local Open Scope string_scope.
Local Open Scope list_scope.

(** ** Errors *)

Inductive exn :=
  | KeyError (label : string)
  | IndexError
  | ValueError
  | TypeError
  | MergeError.

Inductive result (A : Type) :=
  | Ok (a : A)
  | Raise (e : exn).
Arguments Ok {A} a.
Arguments Raise {A} e.

Global Instance exn_eq_dec : EqDecision exn.
Proof. solve_decision. Defined.
Global Instance result_eq_dec {A} `{EqDecision A} : EqDecision (result A).
Proof. solve_decision. Defined.

Definition bind {A B} (m : result A) (f : A → result B) : result B :=
  match m with
  | Ok a => f a
  | Raise e => Raise e
  end.

Notation "'let*' x ':=' m 'in' k" := (bind m (λ x, k))
  (at level 10, x name, m at level 100, k at level 200,
   format "'[v' 'let*'  x  ':='  m  'in' '/' k ']'").

(** Runs [f] over a list, stopping at the first error. *)
Fixpoint traverse {A B} (f : A → result B) (l : list A) : result (list B) :=
  match l with
  | [] => Ok []
  | x :: l' =>
      let* y := f x in
      let* ys := traverse f l' in
      Ok (y :: ys)
  end.

(** ** Cells *)

Inductive float64 :=
  | Fin (q : Qc)
  | PInf
  | NInf
  | NaN.

Inductive value :=
  | VStr (s : string)
  | VInt (z : Z)
  | VFloat (f : float64)
  | VBool (b : bool)
  | VTime (t : Z)       (* a time stamp: nanoseconds since the epoch *)
  | VDelta (d : Z).     (* a time difference, in nanoseconds *)

Global Instance float64_eq_dec : EqDecision float64.
Proof. solve_decision. Defined.
Global Instance value_eq_dec : EqDecision value.
Proof. solve_decision. Defined.

Definition isna (v : value) : bool := bool_decide (v = VFloat NaN).
Definition notna (v : value) : bool := negb (isna v).

(** *** float64 arithmetic

    The operations follow IEEE 754 on the special values and are exact on
    the finite ones: a finite result is the exact one, what float64 rounds
    it to or its overflow are not represented.  The rule on the maximum of a
    column of [hot_spots], which rounding and overflow can break, is stated
    for the values of [in_exact_range]. *)

Definition Qc0 : Qc := 0%Qc.
Definition Qc1 : Qc := 1%Qc.

Definition fadd (a b : float64) : float64 :=
  match a, b with
  | NaN, _ | _, NaN => NaN
  | PInf, NInf | NInf, PInf => NaN
  | PInf, _ | _, PInf => PInf
  | NInf, _ | _, NInf => NInf
  | Fin x, Fin y => Fin (x + y)
  end.

Definition fsub (a b : float64) : float64 :=
  match a, b with
  | NaN, _ | _, NaN => NaN
  | PInf, PInf | NInf, NInf => NaN
  | PInf, _ | _, NInf => PInf
  | NInf, _ | _, PInf => NInf
  | Fin x, Fin y => Fin (x - y)
  end.

Definition fdiv (a b : float64) : float64 :=
  match a, b with
  | NaN, _ | _, NaN => NaN
  | Fin x, Fin y =>
      if decide (y = Qc0) then
        if decide (x = Qc0) then NaN
        else if decide (Qc0 < x)%Qc then PInf else NInf
      else Fin (x / y)
  | Fin _, _ => Fin Qc0
  | PInf, Fin y => if decide (y < Qc0)%Qc then NInf else PInf
  | NInf, Fin y => if decide (y < Qc0)%Qc then PInf else NInf
  | _, _ => NaN
  end.

(** [x ** 2] *)
Definition fsquare (a : float64) : float64 :=
  match a with
  | NaN => NaN
  | PInf | NInf => PInf
  | Fin x => Fin (x * x)
  end.

(** [a < b] and [a <= b]: false as soon as one side is NaN. *)
Definition float_ltb (a b : float64) : bool :=
  match a, b with
  | NaN, _ | _, NaN => false
  | _, NInf | PInf, _ => false
  | NInf, _ | _, PInf => true
  | Fin x, Fin y => bool_decide (x < y)%Qc
  end.

Definition float_leb (a b : float64) : bool :=
  match a, b with
  | NaN, _ | _, NaN => false
  | NInf, _ | _, PInf => true
  | _, NInf | PInf, _ => false
  | Fin x, Fin y => bool_decide (x ≤ y)%Qc
  end.

(** Minimum and maximum that skip NaN (the [skipna] reductions). *)
Definition fmin (a b : float64) : float64 :=
  match a, b with
  | NaN, _ => b
  | _, NaN => a
  | _, _ => if float_ltb b a then b else a
  end.

Definition fmax (a b : float64) : float64 :=
  match a, b with
  | NaN, _ => b
  | _, NaN => a
  | _, _ => if float_ltb a b then b else a
  end.

(** The number a cell stands for in a comparison or a division. *)
Definition number (v : value) : option float64 :=
  match v with
  | VInt z => Some (Fin (Qc_of_Z z))
  | VFloat f => Some f
  | VBool b => Some (Fin (if b then Qc1 else Qc0))
  | _ => None
  end.

(** *** Order used by the sorting primitives

    Values of one kind are ordered by the order of that kind, with NaN after
    every float; values of two kinds are ordered by kind (pandas sorts one
    dtype at a time, the cross-kind order only makes the order total). *)

Definition float_sort_leb (a b : float64) : bool :=
  match a, b with
  | _, NaN => true
  | NaN, _ => false
  | _, _ => float_leb a b
  end.

Definition kind (v : value) : nat :=
  match v with
  | VBool _ => 0 | VInt _ => 1 | VFloat _ => 2 | VTime _ => 3
  | VDelta _ => 4 | VStr _ => 5
  end.

Definition value_leb (a b : value) : bool :=
  match a, b with
  | VStr x, VStr y => String.leb x y
  | VInt x, VInt y => bool_decide (x ≤ y)%Z
  | VFloat x, VFloat y => float_sort_leb x y
  | VBool x, VBool y => implb x y
  | VTime x, VTime y => bool_decide (x ≤ y)%Z
  | VDelta x, VDelta y => bool_decide (x ≤ y)%Z
  | _, _ => bool_decide (kind a < kind b)%nat
  end.

(** Lexicographic order on keys. *)
Fixpoint key_leb (k1 k2 : list value) : bool :=
  match k1, k2 with
  | [], _ => true
  | _ :: _, [] => false
  | a :: k1', b :: k2' =>
      if decide (a = b) then key_leb k1' k2' else value_leb a b
  end.

Definition key_le (k1 k2 : list value) : Prop := key_leb k1 k2.

(** The same with the larger values first; a missing value still comes
    last ([na_position='last']). *)
Definition value_geb (a b : value) : bool :=
  if isna b then true else if isna a then false else value_leb b a.

Fixpoint key_geb (k1 k2 : list value) : bool :=
  match k1, k2 with
  | [], _ => true
  | _ :: _, [] => false
  | a :: k1', b :: k2' =>
      if decide (a = b) then key_geb k1' k2' else value_geb a b
  end.

Definition key_ge (k1 k2 : list value) : Prop := key_geb k1 k2.

(** ** Tables *)

Definition row : Type := list value * list value.

Record DataFrame := mkDF {
  index_names : list string;
  columns : list string;
  rows : list row
}.

Record Series := mkSeries {
  name : string;
  items : list (list value * value)
}.

Global Instance DataFrame_eq_dec : EqDecision DataFrame.
Proof. solve_decision. Defined.
Global Instance Series_eq_dec : EqDecision Series.
Proof. solve_decision. Defined.

Definition labels (r : row) : list value := r.1.
Definition cells (r : row) : list value := r.2.

(** [cell r i]: the cell of row [r] in the column at position [i]. *)
Definition cell (r : row) (i : nat) : value := default (VFloat NaN) (cells r !! i).

(** Position of the first column labelled [c]. *)
Fixpoint get_loc (c : string) (cols : list string) : option nat :=
  match cols with
  | [] => None
  | c' :: cs => if decide (c' = c) then Some 0%nat else S <$> get_loc c cs
  end.

Definition locate (c : string) (cols : list string) : result nat :=
  match get_loc c cols with
  | Some i => Ok i
  | None => Raise (KeyError c)
  end.

Definition locate_all (cs : list string) (cols : list string) : result (list nat) :=
  traverse (λ c, locate c cols) cs.

(** [df[[c1, ..., cn]]] *)
Definition getitem (cs : list string) (df : DataFrame) : result DataFrame :=
  let* ps := locate_all cs (columns df) in
  Ok (mkDF (index_names df) cs ((λ r, (labels r, cell r <$> ps)) <$> rows df)).

(** [df[c]] *)
Definition getcol (c : string) (df : DataFrame) : result Series :=
  let* p := locate c (columns df) in
  Ok (mkSeries c ((λ r, (labels r, cell r p)) <$> rows df)).

(** First occurrences of the elements of [l], compared through [f]. *)
Fixpoint unique_by {A B} `{EqDecision B} (f : A → B) (l : list A) : list A :=
  match l with
  | [] => []
  | x :: l' => x :: filter (λ y, f y ≠ f x) (unique_by f l')
  end.

(** [df.drop_duplicates()]: rows are compared on their cells, the first one of
    each class is kept together with its index label. *)
Definition drop_duplicates (df : DataFrame) : DataFrame :=
  mkDF (index_names df) (columns df) (unique_by cells (rows df)).

(** [df.rename(columns=m)] *)
Fixpoint rename_label (m : list (string * string)) (c : string) : string :=
  match m with
  | [] => c
  | (old, new) :: m' => if decide (old = c) then new else rename_label m' c
  end.

Definition rename (m : list (string * string)) (df : DataFrame) : DataFrame :=
  mkDF (index_names df) (rename_label m <$> columns df) (rows df).

(** [df.reset_index()] on a table whose index has names: the index levels
    become the first columns. *)
Definition reset_index (df : DataFrame) : DataFrame :=
  mkDF [] (index_names df ++ columns df)
       ((λ r, ([], labels r ++ cells r)) <$> rows df).

(** *** groupby *)

Definition key_at (ks : list nat) (r : row) : list value := cell r <$> ks.

(** Positions of the columns that are not grouping keys. *)
Definition other_locs (keys cols : list string) : list nat :=
  fst <$> filter (λ ic, ic.2 ∉ keys) (imap pair cols).

(** The group keys: rows with a missing key are left out, the keys come
    sorted. *)
Definition distinct_keys (key : row → list value) (rs : list row)
    : list (list value) :=
  merge_sort key_le
    (unique_by id (key <$> filter (λ r, forallb notna (key r)) rs)).

Definition group_keys (ks : list nat) (rs : list row) : list (list value) :=
  distinct_keys (key_at ks) rs.

Definition group (ks : list nat) (k : list value) (rs : list row) : list row :=
  filter (λ r, key_at ks r = k) rs.

(** Number of non-missing cells of a column. *)
Definition count_notna (i : nat) (rs : list row) : Z :=
  Z.of_nat (length (filter (λ r, notna (cell r i)) rs)).

(** [df.groupby(keys).count()] *)
Definition groupby_count (keys : list string) (df : DataFrame) : result DataFrame :=
  if decide (keys = []) then Raise ValueError else
  let* ks := locate_all keys (columns df) in
  let os := other_locs keys (columns df) in
  Ok (mkDF keys ((λ i, default "" (columns df !! i)) <$> os)
        ((λ k, (k, (λ i, VInt (count_notna i (group ks k (rows df)))) <$> os))
           <$> group_keys ks (rows df))).

(** [df.groupby(keys).max()]: the largest non-missing cell of each group,
    NaN when the group has none. *)
Definition value_max (a b : value) : value :=
  if isna a then b else if isna b then a else if value_leb a b then b else a.

Definition latest (vs : list value) : value := foldr value_max (VFloat NaN) vs.

Definition max_notna (i : nat) (rs : list row) : value :=
  latest ((λ r, cell r i) <$> rs).

Definition groupby_max (keys : list string) (df : DataFrame) : result DataFrame :=
  if decide (keys = []) then Raise ValueError else
  let* ks := locate_all keys (columns df) in
  let os := other_locs keys (columns df) in
  Ok (mkDF keys ((λ i, default "" (columns df !! i)) <$> os)
        ((λ k, (k, (λ i, max_notna i (group ks k (rows df))) <$> os))
           <$> group_keys ks (rows df))).

(** *** Element-wise operations on a column *)

Definition values (s : Series) : list value := snd <$> items s.

(** [s > x] and [s <= x] for a number [x]; comparing something that is not a
    number with a number is a [TypeError]. *)
Definition compare_scalar (op : float64 → float64 → bool) (s : Series) (x : value)
    : result (list bool) :=
  match number x with
  | None => Raise TypeError
  | Some fx =>
      traverse (λ v, match number v with
                     | Some fv => Ok (op fv fx)
                     | None => Raise TypeError
                     end) (values s)
  end.

Definition gt : Series → value → result (list bool) :=
  compare_scalar (λ a b, float_ltb b a).
Definition le : Series → value → result (list bool) :=
  compare_scalar float_leb.

(** [s1 == s2] and [s1 != s2], element by element: a missing value is equal
    to nothing, itself included. *)
Definition eq_values (a b : value) : bool :=
  notna a && notna b && bool_decide (a = b).

Definition eq (s1 s2 : Series) : list bool :=
  zip_with eq_values (values s1) (values s2).
Definition ne (s1 s2 : Series) : list bool :=
  zip_with (λ a b, negb (eq_values a b)) (values s1) (values s2).

(** [s1 / s2], element by element. *)
Definition div_values (a b : value) : result value :=
  match number a, number b with
  | Some x, Some y => Ok (VFloat (fdiv x y))
  | _, _ => Raise TypeError
  end.

Definition div (s1 s2 : Series) : result (list value) :=
  traverse (λ ab, div_values ab.1 ab.2) (zip (values s1) (values s2)).

(** [mask.all()] *)
Definition all (mask : list bool) : bool := forallb id mask.

(** *** Boolean indexing *)

Fixpoint filter_mask {A} (mask : list bool) (l : list A) : list A :=
  match mask, l with
  | b :: mask', x :: l' => if b then x :: filter_mask mask' l' else filter_mask mask' l'
  | _, _ => []
  end.

(** [df[mask]] *)
Definition getitem_mask (mask : list bool) (df : DataFrame) : DataFrame :=
  mkDF (index_names df) (columns df) (filter_mask mask (rows df)).

(** *** Assignment and removal of columns *)

(** [df[c] = vals]: an existing column is overwritten, a new one is added
    last.  The values are taken in row order. *)
Definition setitem (c : string) (vals : list value) (df : DataFrame)
    : result DataFrame :=
  if decide (length vals = length (rows df)) then
    match get_loc c (columns df) with
    | Some i =>
        Ok (mkDF (index_names df) (columns df)
              (zip_with (λ r v, (labels r, <[i:=v]> (cells r))) (rows df) vals))
    | None =>
        Ok (mkDF (index_names df) (columns df ++ [c])
              (zip_with (λ r v, (labels r, cells r ++ [v])) (rows df) vals))
    end
  else Raise ValueError.

(** The column at position [i], top to bottom. *)
Definition column_at (i : nat) (df : DataFrame) : list value :=
  (λ r, cell r i) <$> rows df.

(** [df[[c1, ..., cn]] = other]: the columns of [other], in order. *)
Fixpoint setitem_from (cs : list string) (i : nat) (other df : DataFrame)
    : result DataFrame :=
  match cs with
  | [] => Ok df
  | c :: cs' =>
      let* df' := setitem c (column_at i other) df in
      setitem_from cs' (S i) other df'
  end.

Definition setitem_frame (cs : list string) (other df : DataFrame)
    : result DataFrame :=
  if decide (length cs = length (columns other)) then setitem_from cs 0 other df
  else Raise ValueError.

(** [df.drop(columns=cs)] *)
Definition drop (cs : list string) (df : DataFrame) : result DataFrame :=
  let* ps := locate_all cs (columns df) in
  let keep := fst <$> filter (λ ic, ic.2 ∉ cs) (imap pair (columns df)) in
  Ok (mkDF (index_names df) (filter (λ c, c ∉ cs) (columns df))
        ((λ r, (labels r, cell r <$> keep)) <$> rows df)).

(** [df.fillna(v)] *)
Definition fill (v c : value) : value := if isna c then v else c.

Definition fillna (v : value) (df : DataFrame) : DataFrame :=
  mkDF (index_names df) (columns df)
       ((λ r, (labels r, fill v <$> cells r)) <$> rows df).

(** [df.sort_values(by=cs, ascending=False)] *)
Definition sort_values_desc (cs : list string) (df : DataFrame) : result DataFrame :=
  let* ps := locate_all cs (columns df) in
  Ok (mkDF (index_names df) (columns df)
        (merge_sort (λ r1 r2, key_ge (key_at ps r1) (key_at ps r2)) (rows df))).

(** [df.sort_values(by=cs)] *)
Definition sort_values (cs : list string) (df : DataFrame) : result DataFrame :=
  let* ps := locate_all cs (columns df) in
  Ok (mkDF (index_names df) (columns df)
        (merge_sort (λ r1 r2, key_le (key_at ps r1) (key_at ps r2)) (rows df))).

(** [pd.DataFrame(data={c1: l1, ..., cn: ln})] *)
Fixpoint transpose (n : nat) (cols : list (list value)) : list (list value) :=
  match n with
  | O => []
  | S n' => ((λ c, default (VFloat NaN) (head c)) <$> cols)
            :: transpose n' (tail <$> cols)
  end.

Definition from_columns (data : list (string * list value)) : result DataFrame :=
  let n := default 0%nat (head (length ∘ snd <$> data)) in
  if decide (Forall (λ d, length d.2 = n) data) then
    Ok (mkDF [] (fst <$> data) ((λ cs, ([], cs)) <$> transpose n (snd <$> data)))
  else Raise ValueError.

(** *** merge *)

(** Labels of the result of a merge: a label that is not a key and occurs on
    both sides gets the suffix of its side. *)
Definition suffixed (sfx : string) (clash : list string) (c : string) : string :=
  if decide (c ∈ clash) then c +:+ sfx else c.

Definition drop_locs (ps : list nat) (cs : list value) : list value :=
  snd <$> filter (λ iv, iv.1 ∉ ps) (imap pair cs).

Definition drop_labels (on cols : list string) : list string :=
  filter (λ c, c ∉ on) cols.

(** [pd.merge(left, right, on=on, suffixes=sfx)], an inner join: every left
    row, in order, with every right row that has the same key.  The columns
    come in the order pandas gives them when the left table has rows. *)
Definition merge_on (on : list string) (sfx : string * string)
    (left right : DataFrame) : result DataFrame :=
  let* lk := locate_all on (columns left) in
  let* rk := locate_all on (columns right) in
  let clash := filter (λ c, c ∈ drop_labels on (columns right))
                 (drop_labels on (columns left)) in
  let lcols := (λ c, if decide (c ∈ on) then c else suffixed sfx.1 clash c)
                 <$> columns left in
  let rcols := suffixed sfx.2 clash <$> drop_labels on (columns right) in
  Ok (mkDF [] (lcols ++ rcols)
        (l ← rows left;
         r ← filter (λ r, key_at rk r = key_at lk l) (rows right);
         [([], cells l ++ drop_locs rk (cells r))])).

(** [pd.merge(left, right)]: the keys are the labels the two tables share. *)
Definition merge (left right : DataFrame) : result DataFrame :=
  let on := filter (λ c, c ∈ columns right) (columns left) in
  if decide (on = []) then Raise MergeError
  else merge_on on ("_x", "_y") left right.

(** [pd.merge(left, right, left_on=key, right_index=True, how='outer')]:
    every left row with the right rows whose index label is its key, or with
    missing values when there is none; then the right rows that no left row
    matched, with missing values on the left side except in the key column,
    which takes the label.  (pandas orders the rows of an outer join by key;
    the order here is left rows first.) *)
Definition right_label (r : row) : value := default (VFloat NaN) (head (labels r)).

Definition missing (n : nat) : list value := replicate n (VFloat NaN).

Definition merge_outer_right_index (key : string) (sfx : string * string)
    (left right : DataFrame) : result DataFrame :=
  let* k := locate key (columns left) in
  let clash := filter (λ c, c ∈ columns right) (columns left) in
  let nl := length (columns left) in
  let nr := length (columns right) in
  Ok (mkDF []
        ((suffixed sfx.1 clash <$> columns left)
           ++ (suffixed sfx.2 clash <$> columns right))
        ((l ← rows left;
          match filter (λ r, right_label r = cell l k) (rows right) with
          | [] => [([], cells l ++ missing nr)]
          | rs => (λ r, ([], cells l ++ cells r)) <$> rs
          end)
         ++ ((λ r, ([], <[k:=right_label r]> (missing nl) ++ cells r))
               <$> filter (λ r, Forall (λ l, right_label r ≠ cell l k) (rows left))
                     (rows right)))).

(** *** value_counts *)

(** [s.value_counts()]: the distinct non-missing values of [s] with the number
    of times each occurs, the most frequent first; the values are the index. *)
Definition occurrences (v : value) (vs : list value) : Z :=
  Z.of_nat (length (filter (λ x, x = v) vs)).

Definition value_counts (s : Series) : Series :=
  let vs := filter (λ v, notna v) (values s) in
  mkSeries (name s)
    (merge_sort (λ a b, key_ge [a.2] [b.2])
       ((λ v, ([v], VInt (occurrences v vs))) <$> unique_by id vs)).

(** [s.to_frame(c)] *)
Definition to_frame (c : string) (s : Series) : DataFrame :=
  mkDF [name s] [c] ((λ x, (x.1, [x.2])) <$> items s).

(** *** Arithmetic on a table of floats *)

Definition as_float (v : value) : float64 :=
  match v with VFloat f => f | _ => NaN end.

Definition map_cells (f : value → value) (df : DataFrame) : DataFrame :=
  mkDF (index_names df) (columns df)
       ((λ r, (labels r, f <$> cells r)) <$> rows df).

(** [df.min(axis=0)] and [df.max(axis=0)]: one value a column, NaN skipped. *)
Definition reduce_columns (f : float64 → float64 → float64) (df : DataFrame)
    : list float64 :=
  (λ i, foldr f NaN (as_float <$> column_at i df)) <$> seq 0 (length (columns df)).

Definition min_axis0 : DataFrame → list float64 := reduce_columns fmin.
Definition max_axis0 : DataFrame → list float64 := reduce_columns fmax.

(** [df op= v] for one value [v] a column. *)
Definition broadcast (op : float64 → float64 → float64) (df : DataFrame)
    (v : list float64) : DataFrame :=
  mkDF (index_names df) (columns df)
       ((λ r, (labels r,
               imap (λ i c, VFloat (op (as_float c) (default NaN (v !! i))))
                    (cells r))) <$> rows df).

(** [df ** 2] *)
Definition pow2 (df : DataFrame) : DataFrame :=
  map_cells (λ c, VFloat (fsquare (as_float c))) df.

(** [df.sum(axis=1)]: the sum of each row, a missing value counting for 0. *)
Definition sum_axis1 (df : DataFrame) : list value :=
  (λ r, VFloat (foldr (λ c acc, fadd (as_float (fill (VFloat (Fin Qc0)) c)) acc)
                      (Fin Qc0) (cells r))) <$> rows df.

(** *** Reading a table

    [col c df] is the column labelled [c], top to bottom, and [at_ df c r] the
    cell of row [r] under the label [c]; both are only used to state
    properties. *)

Definition col (c : string) (df : DataFrame) : list value :=
  match get_loc c (columns df) with
  | Some i => column_at i df
  | None => []
  end.

Definition at_ (df : DataFrame) (c : string) (r : row) : value :=
  match get_loc c (columns df) with
  | Some i => cell r i
  | None => VFloat NaN
  end.

(** The key of a row for the grouping columns [keys], and the keys of the
    groups of a table. *)
Definition key_of (df : DataFrame) (keys : list string) (r : row) : list value :=
  (λ c, at_ df c r) <$> keys.

Definition groups_of (df : DataFrame) (keys : list string) : list (list value) :=
  distinct_keys (key_of df keys) (rows df).

(** The largest date of the rows of the log whose key is [k]. *)
Definition max_date (log : DataFrame) (keys : list string) (k : list value)
    : value :=
  latest (at_ log "date" <$> filter (λ x, key_of log keys x = k) (rows log)).

(** The grouping units of a log: the distinct non-missing values of its
    column [on].  A unit [u] touches the path [p] when some row of the log
    has both.  [cochanges] counts the units that touch both [p] and [q];
    [cochanges p p] is the number of units that touch [p]. *)
Definition units (log : DataFrame) (on : string) : list value :=
  unique_by id (filter (λ u, notna u) (at_ log on <$> rows log)).

Definition touches (log : DataFrame) (by_ on : string) (u p : value) : Prop :=
  Exists (λ x, at_ log on x = u ∧ at_ log by_ x = p) (rows log).

Global Instance touches_dec log by_ on u p : Decision (touches log by_ on u p).
Proof. unfold touches. apply _. Defined.

Definition cochanges (log : DataFrame) (by_ on : string) (p q : value) : Z :=
  Z.of_nat (length (filter (λ u, touches log by_ on u p ∧ touches log by_ on u q)
                           (units log on))).

(** The quotient of two cells that hold numbers. *)
Definition ratio (a b : value) : value :=
  match number a, number b with
  | Some x, Some y => VFloat (fdiv x y)
  | _, _ => VFloat NaN
  end.

(** *** The tables [co_changes] goes through

    The distinct (unit, path) pairs of the log; their join on the unit; the
    pairs of paths that share a unit, each with the number of shared units;
    the rows of the merge of a path with itself and with the others. *)

Section co_changes_tables.
Context (log : DataFrame) (by_ on : string).

Definition pair_rows : list row :=
  unique_by cells ((λ r, (labels r, key_of log [on; by_] r)) <$> rows log).

Definition joined_rows : list row :=
  unique_by cells
    (l ← pair_rows;
     r ← filter (λ r, key_at [0%nat] r = key_at [0%nat] l) pair_rows;
     [([], cells l ++ drop_locs [0%nat] (cells r))]).

Definition pair_keys : list (list value) := group_keys [1; 2]%nat joined_rows.

Definition shared (k : list value) : Z :=
  count_notna 0 (group [1; 2]%nat k joined_rows).

Definition counted_rows : list row :=
  (λ k, ([], k ++ [VInt (shared k)])) <$> pair_keys.

Definition result_rows : list row :=
  l ← (λ r, (labels r, [cell r 0; cell r 2]))
        <$> filter (λ r, eq_values (cell r 0) (cell r 1)) counted_rows;
  r ← filter (λ r, key_at [0%nat] r = key_at [0%nat] l)
        (filter (λ r, negb (eq_values (cell r 0) (cell r 1))) counted_rows);
  [([], cells l ++ drop_locs [0%nat] (cells r))].

Definition result_columns : list string :=
  ["primary"; on +:+ "_changes"; "secondary"; on +:+ "_cochanges"].

Definition final_row (r : row) : row :=
  (labels r, [cell r 0; cell r 2; cell r 3; cell r 1;
              ratio (cell r 3) (cell r 1)]).

End co_changes_tables.

(** [is_suffix t c]: the string [c] ends with [t]. *)
Fixpoint is_suffix (t c : string) : bool :=
  bool_decide (t = c)
  || match c with
     | "" => false
     | String _ c' => is_suffix t c'
     end.

(** What min-max scaling followed by squaring makes of the value [x] of a
    column [col] of floats: [x] less the minimum, over the maximum of the
    column so shifted, a NaN replaced by 0, squared. *)
Definition fill0 (f : float64) : float64 :=
  match f with NaN => Fin Qc0 | _ => f end.

Definition scale (col : list float64) (x : float64) : float64 :=
  let lo := foldr fmin NaN col in
  let hi := foldr fmax NaN ((λ y, fsub y lo) <$> col) in
  fsquare (fill0 (fdiv (fsub x lo) hi)).

(** Every row has one cell a column. *)
Definition rectangular (df : DataFrame) : Prop :=
  Forall (λ r, length (cells r) = length (columns df)) (rows df).

Global Instance rectangular_dec df : Decision (rectangular df).
Proof. unfold rectangular. apply _. Defined.

(** The number of rows of the log for the revision [rev], a row counting
    when its path is present: the [path_count] of the revision. *)
Definition path_count (log : DataFrame) (rev : value) : Z :=
  Z.of_nat (length (filter (λ x, at_ log "revision" x = rev
                                 ∧ notna (at_ log "path" x))
                           (rows log))).

(** * The reports

    What the reports take from outside this file comes in as the variables
    of the section: the clock of [internals.get_now], the parsers behind
    [pd.to_datetime] and [astype('float')] on strings, and the vectorizer and
    the clustering of scikit-learn. *)

Section Reports.

Variable get_now : Z.
Variable strptime : bool → string → option Z.
Variable strtod : string → option float64.

(** What scikit-learn returns for a list of directories, a stop word list and
    a number of clusters: the feature names of the vectorizer, the cluster
    centers and the label of every directory. *)
Variable fit : list string → option (list string) → nat →
               list string * list (list float64) * list nat.

(** ** get_mass_changesets *)

Definition get_mass_changesets (log : DataFrame) (min_changes : Z)
    : result DataFrame :=
  let* sel := getitem ["revision"; "path"] log in
  let* by_rev := groupby_count ["revision"] sel in
  let by_rev := rename [("path", "path_count")] by_rev in
  let by_rev := reset_index by_rev in
  let* path_count := getcol "path_count" by_rev in
  let* mask := gt path_count (VInt min_changes) in
  let* meta := getitem ["revision"; "message"; "author"] log in
  merge (getitem_mask mask by_rev) (drop_duplicates meta).

(** ** ages *)

(** [pd.to_datetime(v, utc=utc)]; a time stamp is a number of nanoseconds
    since the epoch and time zones are not represented, so that the
    [TypeError] of pandas for a date without a time zone and a clock with one
    does not arise here. *)
Definition to_datetime (utc : bool) (v : value) : result value :=
  match v with
  | VTime t => Ok (VTime t)
  | VInt n => Ok (VTime n)
  | VStr s => match strptime utc s with
              | Some t => Ok (VTime t)
              | None => Raise ValueError
              end
  | VFloat NaN => Ok (VFloat NaN)
  | _ => Raise TypeError
  end.

(** [now - t] for a time stamp [t] *)
Definition time_since (now : Z) (v : value) : result value :=
  match v with
  | VTime t => Ok (VDelta (now - t))
  | VFloat NaN => Ok (VFloat NaN)
  | _ => Raise TypeError
  end.

(** [pd.Timedelta(1, unit='D')], in nanoseconds *)
Definition day : Z := 86400000000000.

(** [d / pd.Timedelta(1, unit='D')] *)
Definition in_days (v : value) : result value :=
  match v with
  | VDelta d => Ok (VFloat (Fin (Qc_of_Z d / Qc_of_Z day)))
  | VFloat NaN => Ok (VFloat NaN)
  | _ => Raise TypeError
  end.

(** The age, in days, of a date at the time [now]. *)
Definition age_of (now : Z) (utc : bool) (d : value) : result value :=
  let* stamp := to_datetime utc d in
  let* delta := time_since now stamp in
  in_days delta.

Definition excluded : list string :=
  ["revision"; "author"; "date"; "textmods"; "action"; "propmods"; "message"].

Definition ages (log : DataFrame) (keys : option (list string))
    (utc : option bool) (kwargs : list (string * value)) : result DataFrame :=
  let utc := default true utc in
  let keys := default (filter (λ col, col ∉ excluded) (columns log)) keys in
  let now := get_now in
  let* sel := getitem (keys ++ ["date"]) log in
  let* rv := groupby_max keys sel in
  let rv := reset_index rv in
  let* date := getcol "date" rv in
  let* stamps := traverse (to_datetime utc) (values date) in
  let* age := traverse (time_since now) stamps in
  let* rv := setitem "age" age rv in
  let* age := getcol "age" rv in
  let* age := traverse in_days (values age) in
  let* rv := setitem "age" age rv in
  drop ["date"] rv.

(** ** hot_spots *)

(** [df.astype('float')]; an integer is converted exactly, where float64
    rounds the integers above 2^53. *)
Definition to_float (v : value) : result value :=
  match v with
  | VInt z => Ok (VFloat (Fin (Qc_of_Z z)))
  | VFloat f => Ok (VFloat f)
  | VBool b => Ok (VFloat (Fin (if b then Qc1 else Qc0)))
  | VStr s => match strtod s with
              | Some f => Ok (VFloat f)
              | None => Raise ValueError
              end
  | _ => Raise TypeError
  end.

Definition astype_float (df : DataFrame) : result DataFrame :=
  let* rs := traverse (λ r, let* cs := traverse to_float (cells r) in
                            Ok (labels r, cs)) (rows df) in
  Ok (mkDF (index_names df) (columns df) rs).

Definition compute_score (input_df : DataFrame) : result DataFrame :=
  let* df := astype_float input_df in
  let df := fillna (VFloat (Fin Qc0)) df in
  let df := broadcast fsub df (min_axis0 df) in
  let df := broadcast fdiv df (max_axis0 df) in
  let df := fillna (VFloat (Fin Qc0)) df in
  let df := pow2 df in
  Ok df.

Definition hot_spots (log loc : DataFrame) (by_ : option string)
    (count_one_change_per : option (list string)) : result DataFrame :=
  let by_ := default "path" by_ in
  let count_one_change_per := default ["revision"] count_one_change_per in
  let c_df := loc in
  let c_df := rename [("code", "complexity")] c_df in
  let columns := count_one_change_per ++ [by_] in
  let* sel := getitem columns log in
  let* changed := getcol by_ (drop_duplicates sel) in
  let ch_df := to_frame "changes" (value_counts changed) in
  let* df := merge_outer_right_index by_ ("_x", "_y") c_df ch_df in
  let df := fillna (VFloat (Fin Qc0)) df in
  let* metrics := getitem ["complexity"; "changes"] df in
  let* scores := compute_score metrics in
  let* df := setitem_frame ["complexity_score"; "changes_score"] scores df in
  let* both := getitem ["complexity_score"; "changes_score"] df in
  let* df := setitem "score" (sum_axis1 both) df in
  Ok df.

(** ** co_changes *)

Definition co_changes (log : DataFrame) (by_ on : option string)
    : result DataFrame :=
  let by_ := default "path" by_ in
  let on := default "revision" on in
  let* sel := getitem [on; by_] log in
  let df := drop_duplicates sel in
  let* sj := merge_on [on] ("_x", "_y") df df in
  let sj := rename [(by_ +:+ "_x", "primary"); (by_ +:+ "_y", "secondary")] sj in
  let sj := drop_duplicates sj in
  let* sj := groupby_count ["primary"; "secondary"] sj in
  let sj := reset_index sj in
  let* primary := getcol "primary" sj in
  let* secondary := getcol "secondary" sj in
  let* self := getitem ["primary"; on] (getitem_mask (eq primary secondary) sj) in
  let* result := merge_on ["primary"] ("_changes", "_cochanges")
                   self (getitem_mask (ne primary secondary) sj) in
  let* cochanges := getcol (on +:+ "_cochanges") result in
  let* changes := getcol (on +:+ "_changes") result in
  let* coupling := div cochanges changes in
  let* result := setitem "coupling" coupling result in
  let* result := getitem ["primary"; "secondary"; on +:+ "_cochanges";
                          on +:+ "_changes"; "coupling"] result in
  sort_values_desc ["coupling"] result.

(** ** guess_components *)

(** [p.replace('\\', '/')] *)
Definition slash : ascii := "/"%char.
Definition backslash : ascii := "\"%char.

Definition replace_backslash (p : string) : string :=
  string_of_list_ascii
    ((λ c, if decide (c = backslash) then slash else c) <$> list_ascii_of_string p).

(** [os.path.dirname(p)]: what comes before the last slash, without the
    slashes that end it, unless it is made of slashes only. *)
Fixpoint rstrip_slash (rev_head : list ascii) : list ascii :=
  match rev_head with
  | c :: l => if decide (c = slash) then rstrip_slash l else rev_head
  | [] => []
  end.

Fixpoint drop_basename (rev_path : list ascii) : list ascii :=
  match rev_path with
  | c :: l => if decide (c = slash) then rev_path else drop_basename l
  | [] => []
  end.

Definition dirname (p : string) : string :=
  let rev_head := drop_basename (reverse (list_ascii_of_string p)) in
  string_of_list_ascii
    (reverse (if decide (Forall (λ c, c = slash) rev_head) then rev_head
              else rstrip_slash rev_head)).

(** ['.'.join(vs)] for a list of cells: every cell has to be a string. *)
Definition as_str (v : value) : result string :=
  match v with
  | VStr s => Ok s
  | _ => Raise TypeError
  end.

Definition join (sep : string) (vs : list value) : result string :=
  let* ss := traverse as_str vs in
  Ok (String.concat sep ss).

Definition cluster_name (center : list float64) (features : list string)
    (n_clusters : nat) (threshold : float64) : result string :=
  let* df := from_columns [("feature", VStr <$> features);
                           ("weight", VFloat <$> center)] in
  let* df := sort_values_desc ["weight"; "feature"] df in
  let* weight := getcol "weight" df in
  let* low := le weight (VFloat threshold) in
  if all low then Ok ""
  else
    let* high := gt weight (VFloat threshold) in
    let df := getitem_mask high df in
    let* feature := getcol "feature" df in
    join "." (values feature).

(** [0.4]: the literal is the float64 nearest to 2/5, which is
    3602879701896397 / 2^53, a little above 2/5. *)
Definition threshold_0_4 : float64 :=
  Fin (Q2Qc (3602879701896397 # 9007199254740992)).

Definition guess_components (paths : list string)
    (stop_words : option (list string)) (n_clusters : nat) : result DataFrame :=
  let data := paths in
  let dirs := (λ p, dirname (replace_backslash p)) <$> data in
  let '(features, cluster_centers, labels_) := fit dirs stop_words n_clusters in
  let* cluster_names :=
    traverse (λ center, cluster_name center features n_clusters threshold_0_4)
             cluster_centers in
  let* components :=
    traverse (λ lbl, match cluster_names !! lbl with
                     | Some n => Ok (VStr n)
                     | None => Raise IndexError
                     end) labels_ in
  let* rv := from_columns [("path", VStr <$> data); ("component", components)] in
  sort_values ["component"] rv.

End Reports.

(** ** Reading the result of hot_spots

    [measure strtod v] is the number [compute_score] works with for the cell
    [v]: the cell as a float, a missing value counting for 0.  [metric strtod
    df c] is the column [c] of [df] read that way, top to bottom. *)

Definition measure (strtod : string → option float64) (v : value) : float64 :=
  match to_float strtod v with
  | Ok v' => fill0 (as_float v')
  | Raise _ => NaN
  end.

Definition metric (strtod : string → option float64) (df : DataFrame)
    (c : string) : list float64 :=
  (λ r, measure strtod (at_ df c r)) <$> rows df.

(** The least and the largest value of a column, NaN skipped, and the rows
    that hold them. *)
Definition column_min (col : list float64) : float64 := foldr fmin NaN col.
Definition column_max (col : list float64) : float64 := foldr fmax NaN col.

Definition holds_min (strtod : string → option float64) (df : DataFrame)
    (c : string) (r : row) : Prop :=
  measure strtod (at_ df c r) = column_min (metric strtod df c).

Definition holds_max (strtod : string → option float64) (df : DataFrame)
    (c : string) (r : row) : Prop :=
  measure strtod (at_ df c r) = column_max (metric strtod df c).

Definition is_finite (f : float64) : bool :=
  match f with Fin _ => true | _ => false end.

(** A column is constant when its minimum is its maximum; it has a spread
    when its values are finite and it is not constant. *)
Definition constant (col : list float64) : Prop := column_min col = column_max col.

Definition spread (col : list float64) : Prop :=
  Forall (λ y, is_finite y) col ∧ ¬ constant col.

(** The range where the maximum of a column with a spread is scaled to 1 by
    float64 as it is here: no value exceeds 2^53 in magnitude, so that
    [astype('float')] converts an integer without rounding, two values that
    differ stay different, and the difference of two values does not
    overflow. *)
Definition in_exact_range (y : float64) : bool :=
  match y with
  | Fin q => bool_decide (- Qc_of_Z (2 ^ 53) ≤ q)%Qc
             && bool_decide (q ≤ Qc_of_Z (2 ^ 53))%Qc
  | _ => false
  end.

Global Instance holds_min_dec strtod df c r : Decision (holds_min strtod df c r).
Proof. unfold holds_min. apply _. Defined.
Global Instance holds_max_dec strtod df c r : Decision (holds_max strtod df c r).
Proof. unfold holds_max. apply _. Defined.
Global Instance constant_dec col : Decision (constant col).
Proof. unfold constant. apply _. Defined.
Global Instance spread_dec col : Decision (spread col).
Proof. unfold spread. apply _. Defined.

(** What a value less the minimum of its column can be. *)
Definition shifted (s : float64) : Prop :=
  s = NaN ∨ s = PInf ∨ ∃ q, s = Fin q ∧ (0 ≤ q)%Qc.

(** The labels of the columns [hot_spots] adds. *)
Definition score_labels : list string :=
  ["complexity_score"; "changes_score"; "score"].

(** ** Reading the name of a cluster

    [ranks_before a b]: the feature [a], with its weight, comes before the
    feature [b] in the ranking of a cluster center: by weight, the larger
    first, and by name, the larger first, for one weight. *)

Definition ranks_before (a b : string * float64) : Prop :=
  float_ltb b.2 a.2 = true ∨ (a.2 = b.2 ∧ String.le b.1 a.1).

(** The row of the table of features for a feature and its weight, and the
    way back; [ranking center features] is the features, with their weights,
    in the order of the table that [cluster_name] has sorted. *)
Definition feature_row (a : string * float64) : row :=
  ([], [VStr a.1; VFloat a.2]).

Definition row_feature (r : row) : string * float64 :=
  (match cell r 0 with VStr s => s | _ => "" end, as_float (cell r 1)).

Definition ranking (center : list float64) (features : list string)
    : list (string * float64) :=
  row_feature <$>
    merge_sort (λ r1 r2, key_ge (key_at [1; 0]%nat r1) (key_at [1; 0]%nat r2))
      (feature_row <$> zip features center).

(** The text of a cell that holds a string. *)
Definition text (v : value) : string :=
  match v with VStr s => s | _ => "" end.

(** ** Reading the changes of hot_spots

    The number of changes of the path [p]: the distinct values the rows of
    the log for [p] have in the columns [per] and [key]. *)
Definition changes_of (log : DataFrame) (per : list string) (key : string)
    (p : value) : Z :=
  Z.of_nat (length (unique_by id
    (key_of log (per ++ [key]) <$> filter (λ x, at_ log key x = p) (rows log)))).

(** * The repository of the test suite

    The log and the size table of [tests/test_core.py], with the dates as
    time stamps, and the clock the tests set: 2018-02-28T00:00:00Z. *)

Module Fixture.

Definition sec (s : Z) : Z := s * 1000000000.

Definition log_columns : list string :=
  ["revision"; "author"; "date"; "textmods"; "kind"; "action"; "propmods";
   "path"; "message"; "added"; "removed"].

Definition log : DataFrame :=
  mkDF [] log_columns
    [([], [VInt 1016; VStr "elmotec"; VTime (sec 1519640880); VBool true;
           VStr "file"; VStr "M"; VBool false; VStr "stats.py";
           VStr "modified again"; VInt 1; VInt 2]);
     ([], [VInt 1018; VStr "elmotec"; VTime (sec 1519470851); VBool true;
           VStr "file"; VStr "M"; VBool false; VStr "stats.py";
           VStr "modified"; VInt 3; VInt 4]);
     ([], [VInt 1018; VStr "elmotec"; VTime (sec 1519470851); VBool true;
           VStr "file"; VStr "M"; VBool false; VStr "requirements.txt";
           VStr "modified"; VInt 5; VInt 6])].

Definition loc : DataFrame :=
  mkDF [] ["language"; "path"; "blank"; "comment"; "code"]
    [([], [VStr "Python"; VStr "stats.py"; VInt 28; VInt 84; VInt 100]);
     ([], [VStr "Unknown"; VStr "requirements.txt"; VInt 0; VInt 0; VInt 3])].

(** The log of [test_hot_spot_with_custom_change_metric]: every row on the
    same day, 2018-02-24. *)
Definition log_with_day : DataFrame :=
  mkDF [] (log_columns ++ ["day"])
    ((λ r, (labels r, cells r ++ [VTime (sec 1519430400)])) <$> rows log).

Definition now : Z := sec 1519776000.

(** A cluster center over three features. *)
Definition features : list string := ["analysis"; "parsers"; "tools"].
Definition center : list float64 :=
  [Fin (Q2Qc (1 # 2)); Fin (Q2Qc (3 # 10)); Fin (Q2Qc (1 # 2))].

(** No string is parsed in the examples. *)
Definition strptime (utc : bool) (s : string) : option Z := None.
Definition strtod (s : string) : option float64 := None.

Definition q (n : Z) (d : positive) : value := VFloat (Fin (Q2Qc (n # d))).

(** What the reports return on it. *)
Definition mass_changes_1 : DataFrame :=
  mkDF [] ["revision"; "path_count"; "message"; "author"]
    [([], [VInt 1018; VInt 2; VStr "modified"; VStr "elmotec"])].

Definition ages_by_path : DataFrame :=
  mkDF [] ["path"; "age"]
    [([], [VStr "requirements.txt"; q 305149 86400]);
     ([], [VStr "stats.py"; q 135120 86400])].

Definition ages_by_default : DataFrame :=
  mkDF [] ["kind"; "path"; "added"; "removed"; "age"]
    [([], [VStr "file"; VStr "requirements.txt"; VInt 5; VInt 6;
           q 305149 86400]);
     ([], [VStr "file"; VStr "stats.py"; VInt 1; VInt 2;
           q 135120 86400]);
     ([], [VStr "file"; VStr "stats.py"; VInt 3; VInt 4;
           q 305149 86400])].

Definition hot_spots_columns : list string :=
  ["language"; "path"; "blank"; "comment"; "complexity"; "changes";
   "complexity_score"; "changes_score"; "score"].

Definition stats_by_revision : row :=
  ([], [VStr "Python"; VStr "stats.py"; VInt 28; VInt 84; VInt 100; VInt 2;
        q 1 1; q 1 1; q 2 1]).

Definition hot_spots_by_revision : DataFrame :=
  mkDF [] hot_spots_columns
    [stats_by_revision;
     ([], [VStr "Unknown"; VStr "requirements.txt"; VInt 0; VInt 0; VInt 3;
           VInt 1; q 0 1; q 0 1; q 0 1])].

Definition hot_spots_by_day : DataFrame :=
  mkDF [] hot_spots_columns
    [([], [VStr "Python"; VStr "stats.py"; VInt 28; VInt 84; VInt 100; VInt 1;
           q 1 1; q 0 1; q 1 1]);
     ([], [VStr "Unknown"; VStr "requirements.txt"; VInt 0; VInt 0; VInt 3;
           VInt 1; q 0 1; q 0 1; q 0 1])].

(** A size table that knows [stats.py] only, and the hot spots with it. *)
Definition loc_of_stats : DataFrame :=
  mkDF [] ["language"; "path"; "blank"; "comment"; "code"]
    [([], [VStr "Python"; VStr "stats.py"; VInt 28; VInt 84; VInt 100])].

Definition hot_spots_of_stats : DataFrame :=
  mkDF [] hot_spots_columns
    [([], [VStr "Python"; VStr "stats.py"; VInt 28; VInt 84; VInt 100; VInt 2;
           q 1 1; q 1 1; q 2 1]);
     ([], [q 0 1; VStr "requirements.txt"; q 0 1; q 0 1; q 0 1; VInt 1;
           q 0 1; q 0 1; q 0 1])].

(** A size table with a column [changes] of its own. *)
Definition loc_with_changes : DataFrame :=
  mkDF [] ["path"; "code"; "changes"]
    [([], [VStr "stats.py"; VInt 100; VInt 7])].

(** Three paths, and what scikit-learn could return for them: two features,
    two cluster centers and the label of every path. *)
Definition paths : list string :=
  ["parsers/a.py"; "analysis\b.py"; "parsers/c.py"].

Definition fit (dirs : list string) (stop_words : option (list string))
    (n_clusters : nat) : list string * list (list float64) * list nat :=
  (["analysis"; "parsers"],
   [[Fin (Q2Qc 0); Fin (Q2Qc 1)]; [Fin (Q2Qc 1); Fin (Q2Qc 0)]],
   [0; 1; 0]%nat).

Definition components : DataFrame :=
  mkDF [] ["path"; "component"]
    [([], [VStr "analysis\b.py"; VStr "analysis"]);
     ([], [VStr "parsers/c.py"; VStr "parsers"]);
     ([], [VStr "parsers/a.py"; VStr "parsers"])].

(** A log with two rows that have no revision, and its co-changes. *)
Definition log_without_revision : DataFrame :=
  mkDF [] ["revision"; "path"]
    [([], [VStr "1016"; VStr "stats.py"]);
     ([], [VFloat NaN; VStr "stats.py"]);
     ([], [VFloat NaN; VStr "requirements.txt"])].

Definition co_changes_without_revision : DataFrame :=
  mkDF [] ["primary"; "secondary"; "revision_cochanges"; "revision_changes";
           "coupling"]
    [([], [VStr "stats.py"; VStr "requirements.txt"; VInt 0; VInt 1; q 0 1]);
     ([], [VStr "requirements.txt"; VStr "stats.py"; VInt 0; VInt 0;
           VFloat NaN])].

Definition co_changes_by_revision : DataFrame :=
  mkDF [] ["primary"; "secondary"; "revision_cochanges"; "revision_changes";
           "coupling"]
    [([], [VStr "requirements.txt"; VStr "stats.py"; VInt 1; VInt 1;
           q 1 1]);
     ([], [VStr "stats.py"; VStr "requirements.txt"; VInt 1; VInt 2;
           q 1 2])].

End Fixture.

(** * Properties of the primitives *)

Lemma bind_Ok {A B} (m : result A) (f : A → result B) b :
  bind m f = Ok b ↔ ∃ a, m = Ok a ∧ f a = Ok b.
Proof.
  destruct m as [a|e]; simpl; split.
  - intros H. by exists a.
  - by intros (a' & [= <-] & H).
  - done.
  - by intros (a' & [=] & _).
Qed.

(** Splits the successful run of a sequence of steps into its steps. *)
Ltac inv_bind H :=
  repeat match type of H with
  | bind _ _ = Ok _ =>
      let a := fresh "a" in
      let Ha := fresh "Ha" in
      apply bind_Ok in H as (a & Ha & H)
  end.

Lemma traverse_Ok {A B} (f : A → result B) l l' :
  traverse f l = Ok l' ↔ Forall2 (λ x y, f x = Ok y) l l'.
Proof.
  revert l'. induction l as [|x l IH]; intros l'; simpl.
  - split; [intros [= <-]; constructor | by inversion 1].
  - rewrite bind_Ok. split.
    + intros (y & Hy & H). apply bind_Ok in H as (ys & Hys & [= <-]).
      constructor; [done | by apply IH].
    + inversion 1 as [|? y ? ys Hy Hys]; subst. exists y. split; [done|].
      apply bind_Ok. exists ys. split; [by apply IH | done].
Qed.

Lemma traverse_total {A B} (f : A → result B) l :
  Forall (λ x, ∃ y, f x = Ok y) l → ∃ l', traverse f l = Ok l'.
Proof.
  induction 1 as [|x l [y Hy] _ [l' IH]]; simpl; [by eexists|].
  rewrite Hy, IH. simpl. by eexists.
Qed.

Lemma traverse_length {A B} (f : A → result B) l l' :
  traverse f l = Ok l' → length l' = length l.
Proof. rewrite traverse_Ok. intros H. symmetry. by eapply Forall2_length. Qed.

Lemma get_loc_Some c cols i :
  get_loc c cols = Some i → cols !! i = Some c.
Proof.
  revert i. induction cols as [|c' cols IH]; intros i; simpl; [done|].
  case_decide as Hc; [by intros [= <-]; subst|].
  destruct (get_loc c cols) as [j|]; simpl; [|done].
  intros [= <-]. by apply IH.
Qed.

Lemma get_loc_None c cols : get_loc c cols = None ↔ c ∉ cols.
Proof.
  induction cols as [|c' cols IH]; simpl.
  - split; [intros _; apply not_elem_of_nil | done].
  - case_decide as Hc.
    + subst. split; [done | intros []; left].
    + rewrite not_elem_of_cons. destruct (get_loc c cols); simpl.
      * split; [done|]. intros [_ H]. by apply IH in H.
      * split; [|done]. intros _. split; [done | by apply IH].
Qed.

Lemma get_loc_is_Some c cols : c ∈ cols → ∃ i, get_loc c cols = Some i.
Proof.
  intros H. destruct (get_loc c cols) as [i|] eqn:E; [by eexists|].
  by apply get_loc_None in E.
Qed.

Lemma locate_Ok c cols i : locate c cols = Ok i ↔ get_loc c cols = Some i.
Proof.
  unfold locate. destruct (get_loc c cols); split; intros H; by simplify_eq.
Qed.

Lemma locate_total c cols : c ∈ cols → ∃ i, locate c cols = Ok i.
Proof. intros [i H]%get_loc_is_Some. exists i. by apply locate_Ok. Qed.

Lemma locate_all_total cs cols : cs ⊆ cols → ∃ ps, locate_all cs cols = Ok ps.
Proof.
  intros H. apply traverse_total, Forall_forall. intros c Hc.
  by apply locate_total, H.
Qed.

(** *** unique_by *)

Lemma elem_of_unique_by {A B} `{EqDecision B} (f : A → B) l x :
  x ∈ unique_by f l → x ∈ l.
Proof.
  revert x. induction l as [|y l IH]; intros x; simpl; [done|].
  rewrite elem_of_cons, list_elem_of_filter. intros [->|[_ H]]; [left|].
  right. by apply IH.
Qed.

Lemma elem_of_unique_by_fmap {A B} `{EqDecision B} (f : A → B) l b :
  b ∈ f <$> unique_by f l ↔ b ∈ f <$> l.
Proof.
  induction l as [|y l IH]; simpl; [done|].
  rewrite !elem_of_cons, <-IH, !list_elem_of_fmap.
  split.
  - intros [->|(x & -> & [_ Hx]%list_elem_of_filter)]; [by left|].
    right. by exists x.
  - intros [->|(x & -> & Hx)]; [by left|].
    destruct (decide (f x = f y)) as [->|Hne]; [by left|].
    right. exists x. split; [done|]. by apply list_elem_of_filter.
Qed.

Lemma NoDup_unique_by {A B} `{EqDecision B} (f : A → B) l :
  NoDup (f <$> unique_by f l).
Proof.
  induction l as [|y l IH]; simpl; [constructor|].
  constructor.
  - rewrite list_elem_of_fmap. intros (x & Hx & [Hne _]%list_elem_of_filter).
    by apply Hne.
  - clear -IH. induction (unique_by f l) as [|x l' IH']; simpl; [constructor|].
    rewrite filter_cons. apply NoDup_cons in IH as [Hx Hl'].
    case_decide; simpl; [|by apply IH'].
    constructor; [|by apply IH'].
    rewrite list_elem_of_fmap. intros (z & Hz & [_ Hin]%list_elem_of_filter).
    apply Hx, list_elem_of_fmap. by exists z.
Qed.

Lemma NoDup_unique_by_id {A} `{EqDecision A} (l : list A) :
  NoDup (unique_by id l).
Proof. rewrite <-(list_fmap_id (unique_by id l)). apply NoDup_unique_by. Qed.

Lemma elem_of_unique_by_id {A} `{EqDecision A} (l : list A) x :
  x ∈ unique_by id l ↔ x ∈ l.
Proof.
  rewrite <-(list_fmap_id (unique_by id l)), elem_of_unique_by_fmap.
  by rewrite list_fmap_id.
Qed.

(** *** Boolean indexing *)

Lemma filter_mask_fmap {A} (p : A → bool) (l : list A) :
  filter_mask (p <$> l) l = filter (λ x, p x) l.
Proof.
  induction l as [|x l IH]; [done|].
  rewrite filter_cons. cbn [fmap list_fmap filter_mask]. rewrite IH.
  by destruct (p x).
Qed.

Lemma elem_of_filter_mask {A} (mask : list bool) (l : list A) x :
  x ∈ filter_mask mask l ↔ ∃ i, mask !! i = Some true ∧ l !! i = Some x.
Proof.
  revert l. induction mask as [|b mask IH]; intros [|y l]; simpl.
  - split; [by intros ?%elem_of_nil | by intros (i & ? & ?)].
  - split; [by intros ?%elem_of_nil | by intros (i & ? & ?)].
  - split; [by intros ?%elem_of_nil | by intros (i & ? & ?)].
  - destruct b.
    + rewrite elem_of_cons, IH. split.
      * intros [->|(i & ? & ?)]; [by exists 0%nat | by exists (S i)].
      * intros ([|i] & ? & ?); simplify_eq/=; [by left|]. right. by exists i.
    + rewrite IH. split.
      * intros (i & ? & ?). by exists (S i).
      * intros ([|i] & ? & ?); simplify_eq/=. by exists i.
Qed.

Lemma col_mono c df df' :
  columns df = columns df' → rows df' ⊆ rows df → col c df' ⊆ col c df.
Proof.
  intros Hc Hr v. unfold col, column_at. rewrite Hc.
  destruct (get_loc c (columns df')); [|done].
  rewrite !list_elem_of_fmap. intros (r & -> & Hin). exists r. split; [done|].
  by apply Hr.
Qed.

(** *** merge is monotone in the rows of its left table *)

Lemma merge_on_mono on sfx left left' right out' :
  columns left = columns left' → rows left' ⊆ rows left →
  merge_on on sfx left' right = Ok out' →
  ∃ out, merge_on on sfx left right = Ok out
         ∧ columns out = columns out' ∧ rows out' ⊆ rows out.
Proof.
  intros Hc Hr H. unfold merge_on in *. rewrite Hc.
  inv_bind H. rewrite Ha, Ha0. simpl. eexists. split; [done|].
  injection H as <-. simpl. split; [done|].
  intros x. rewrite !list_elem_of_bind. intros (l & Hx & Hl).
  exists l. split; [done | by apply Hr].
Qed.

Lemma merge_mono left left' right out' :
  columns left = columns left' → rows left' ⊆ rows left →
  merge left' right = Ok out' →
  ∃ out, merge left right = Ok out
         ∧ columns out = columns out' ∧ rows out' ⊆ rows out.
Proof.
  intros Hc Hr. unfold merge. rewrite Hc. case_decide; [done|].
  by apply merge_on_mono.
Qed.

(** *** Raising the threshold of a comparison only clears bits of the mask *)

Lemma float_ltb_trans_Z t t' f :
  (t < t')%Z →
  float_ltb (Fin (Qc_of_Z t')) f = true → float_ltb (Fin (Qc_of_Z t)) f = true.
Proof.
  intros Ht. destruct f as [q| | |]; simpl; try done.
  rewrite !bool_decide_eq_true. intros Hq.
  eapply Qclt_trans; [|exact Hq].
  unfold Qclt, Qc_of_Z. simpl. unfold Qlt. simpl. lia.
Qed.

Lemma gt_mono s t t' m' :
  (t < t')%Z → gt s (VInt t') = Ok m' →
  ∃ m, gt s (VInt t) = Ok m ∧ Forall2 (λ b' b : bool, b' = true → b = true) m' m.
Proof.
  intros Ht. unfold gt, compare_scalar. simpl.
  revert m'. induction (values s) as [|v vs IH]; intros m'; simpl.
  - intros [= <-]. eexists. split; [done | constructor].
  - intros H. inv_bind H. injection H as <-.
    destruct (number v) as [fv|] eqn:Ev; [|done].
    injection Ha as <-. destruct (IH _ Ha0) as (m & -> & Hm). simpl.
    eexists. split; [done|]. constructor; [|done].
    by apply float_ltb_trans_Z.
Qed.

Lemma filter_mask_mono {A} (m m' : list bool) (l : list A) :
  Forall2 (λ b' b : bool, b' = true → b = true) m' m →
  filter_mask m' l ⊆ filter_mask m l.
Proof.
  intros Hm x. rewrite !elem_of_filter_mask. intros (i & Hi & Hx).
  exists i. split; [|done].
  destruct (Forall2_lookup_l _ _ _ _ _ Hm Hi) as (b & Hb & Himp).
  rewrite Hb. f_equal. by apply Himp.
Qed.

(** * get_mass_changesets *)

(** C4. With a larger threshold the extractor returns fewer revisions: when
    it returns with the threshold [t'], it returns with every smaller
    threshold [t], and every revision of the first result is a revision of the
    second. *)
Theorem mass_changes_threshold_monotone log t t' out' :
  (t < t')%Z →
  get_mass_changesets log t' = Ok out' →
  ∃ out, get_mass_changesets log t = Ok out
         ∧ col "revision" out' ⊆ col "revision" out.
Proof.
  intros Ht H. unfold get_mass_changesets in *. inv_bind H.
  rewrite Ha; cbn [bind]. rewrite Ha0; cbn [bind]. rewrite Ha1; cbn [bind].
  destruct (gt_mono _ _ _ _ Ht Ha2) as (m & -> & Hm). cbn [bind].
  rewrite Ha3; cbn [bind].
  eapply merge_mono in H as (out & -> & Hc & Hr).
  - exists out. split; [done|]. by apply col_mono.
  - done.
  - simpl. by apply filter_mask_mono.
Qed.

Lemma elem_of_distinct_keys (f : row → list value) rs k :
  k ∈ distinct_keys f rs ↔ ∃ r, r ∈ rs ∧ f r = k ∧ forallb notna k.
Proof.
  unfold distinct_keys.
  rewrite merge_sort_Permutation, elem_of_unique_by_id.
  rewrite list_elem_of_fmap. split.
  - intros (r & -> & [Hna Hr]%list_elem_of_filter). by exists r.
  - intros (r & Hr & <- & Hna). exists r. split; [done|].
    by apply list_elem_of_filter.
Qed.

Lemma NoDup_distinct_keys (f : row → list value) rs : NoDup (distinct_keys f rs).
Proof.
  unfold distinct_keys. rewrite merge_sort_Permutation.
  apply NoDup_unique_by_id.
Qed.

Lemma elem_of_group_keys ks rs k :
  k ∈ group_keys ks rs ↔ ∃ r, r ∈ rs ∧ key_at ks r = k ∧ forallb notna k.
Proof. apply elem_of_distinct_keys. Qed.


Lemma gt_VInt nm its (zs : list Z) t :
  snd <$> its = VInt <$> zs →
  gt (mkSeries nm its) (VInt t) = Ok ((λ z, bool_decide (t < z)%Z) <$> zs).
Proof.
  unfold gt, compare_scalar, values. cbn [items number]. intros ->.
  induction zs as [|z zs IH]; [done|].
  cbn [fmap list_fmap traverse number bind] in *. rewrite IH. cbn [bind float_ltb].
  do 2 f_equal.
  apply bool_decide_ext. unfold Qclt, Qc_of_Z, Qlt. simpl. lia.
Qed.


Lemma groupby_count_by_revision idx rs :
  groupby_count ["revision"] (mkDF idx ["revision"; "path"] rs) =
  Ok (mkDF ["revision"] ["path"]
        ((λ k, (k, [VInt (count_notna 1 (group [0%nat] k rs))]))
           <$> group_keys [0%nat] rs)).
Proof. reflexivity. Qed.



Lemma by_rev_reset rs :
  reset_index (rename [("path", "path_count")] (mkDF ["revision"] ["path"] rs)) =
  mkDF [] ["revision"; "path_count"] ((λ r, ([], labels r ++ cells r)) <$> rs).
Proof. reflexivity. Qed.

Lemma getcol_path_count rs :
  getcol "path_count" (mkDF [] ["revision"; "path_count"] rs) =
  Ok (mkSeries "path_count" ((λ r, (labels r, cell r 1)) <$> rs)).
Proof. reflexivity. Qed.


Lemma list_fmap_ext_in {A B} (f g : A → B) (l : list A) :
  (∀ x, x ∈ l → f x = g x) → f <$> l = g <$> l.
Proof.
  intros H. apply list_fmap_ext. intros i x Hx. apply H.
  by eapply list_elem_of_lookup_2.
Qed.

Lemma filter_mask_fmap_fmap {A B} (p : A → bool) (f : A → B) (l : list A) :
  filter_mask (p <$> l) (f <$> l) = f <$> filter (λ x, p x) l.
Proof.
  induction l as [|x l IH]; [done|].
  rewrite filter_cons. cbn [fmap list_fmap filter_mask]. rewrite IH.
  by destruct (p x).
Qed.

Lemma filter_fmap {A B} (P : B → Prop) `{∀ y, Decision (P y)} (f : A → B)
    (l : list A) :
  filter P (f <$> l) = f <$> filter (λ x, P (f x)) l.
Proof.
  induction l as [|x l IH]; [done|].
  cbn [fmap list_fmap]. rewrite !filter_cons. cbn [fmap list_fmap] in IH.
  rewrite IH. by destruct (decide (P (f x))).
Qed.


Lemma group_keys_singleton i rs k :
  k ∈ group_keys [i] rs → ∃ v, k = [v].
Proof. intros (r & _ & <- & _)%elem_of_group_keys. by eexists. Qed.

Section mass_changes.
Context (log : DataFrame) (t : Z) (ir ip im ia : nat).
Context (Hir : get_loc "revision" (columns log) = Some ir).
Context (Hip : get_loc "path" (columns log) = Some ip).
Context (Him : get_loc "message" (columns log) = Some im).
Context (Hia : get_loc "author" (columns log) = Some ia).

Let sel := (λ r, (labels r, [cell r ir; cell r ip])) <$> rows log.
Let meta := (λ r, (labels r, [cell r ir; cell r im; cell r ia])) <$> rows log.





End mass_changes.


(** *** Positions in a header *)

Lemma get_loc_app c (l1 l2 : list string) :
  get_loc c (l1 ++ l2) =
  match get_loc c l1 with
  | Some i => Some i
  | None => (λ i, length l1 + i)%nat <$> get_loc c l2
  end.
Proof.
  induction l1 as [|c' l1 IH]; simpl.
  - by destruct (get_loc c l2).
  - case_decide; [done|]. rewrite IH.
    destruct (get_loc c l1); simpl; [done|].
    by destruct (get_loc c l2).
Qed.

Lemma get_loc_app_l c (l1 l2 : list string) i :
  get_loc c l1 = Some i → get_loc c (l1 ++ l2) = Some i.
Proof. intros H. by rewrite get_loc_app, H. Qed.

Lemma get_loc_app_r c (l1 l2 : list string) :
  c ∉ l1 → get_loc c (l1 ++ l2) = (λ i, length l1 + i)%nat <$> get_loc c l2.
Proof. intros H%get_loc_None. by rewrite get_loc_app, H. Qed.

Lemma get_loc_lt c cols i : get_loc c cols = Some i → (i < length cols)%nat.
Proof. intros H%get_loc_Some. by eapply lookup_lt_Some. Qed.

Lemma locate_all_Ok cs cols ps :
  locate_all cs cols = Ok ps ↔ Forall2 (λ c p, get_loc c cols = Some p) cs ps.
Proof.
  unfold locate_all. rewrite traverse_Ok.
  split; intros H; (eapply Forall2_impl; [exact H|]); intros c p; apply locate_Ok.
Qed.

Lemma locate_all_subseteq cs cols ps : locate_all cs cols = Ok ps → cs ⊆ cols.
Proof.
  rewrite locate_all_Ok. intros H c Hc.
  apply list_elem_of_lookup in Hc as [i Hi].
  destruct (Forall2_lookup_l _ _ _ _ _ H Hi) as (p & _ & Hp).
  apply get_loc_Some in Hp. by eapply list_elem_of_lookup_2.
Qed.

Lemma locate_all_length cs cols ps :
  locate_all cs cols = Ok ps → length ps = length cs.
Proof. apply traverse_length. Qed.

(** The cells a selection takes from a row. *)
Lemma cell_at (df : DataFrame) c p r :
  get_loc c (columns df) = Some p → cell r p = at_ df c r.
Proof. intros H. unfold at_. by rewrite H. Qed.

Lemma cells_select (df : DataFrame) cs ps r :
  locate_all cs (columns df) = Ok ps → cell r <$> ps = key_of df cs r.
Proof.
  rewrite locate_all_Ok. unfold key_of.
  induction 1 as [|c p cs ps Hp _ IH]; [done|].
  cbn [fmap list_fmap] in *. rewrite IH. f_equal. by apply cell_at.
Qed.

Lemma getitem_eval cs df :
  cs ⊆ columns df →
  getitem cs df =
  Ok (mkDF (index_names df) cs ((λ r, (labels r, key_of df cs r)) <$> rows df)).
Proof.
  intros [ps Hps]%locate_all_total. unfold getitem. rewrite Hps. cbn [bind].
  do 2 f_equal. apply list_fmap_ext. intros _ r _. f_equal.
  by apply cells_select.
Qed.

Lemma getitem_Ok cs df out :
  getitem cs df = Ok out → cs ⊆ columns df.
Proof.
  unfold getitem. intros H. inv_bind H. by eapply locate_all_subseteq.
Qed.

(** A row built from its header: the cell under a label, the key for a list
    of labels. *)
Lemma cell_built cols c p lbl (F : string → value) :
  get_loc c cols = Some p → cell (lbl, F <$> cols) p = F c.
Proof.
  intros H%get_loc_Some. unfold cell. cbn [cells snd].
  by rewrite list_lookup_fmap, H.
Qed.

Lemma key_at_built cols cs ps lbl (F : string → value) :
  locate_all cs cols = Ok ps → key_at ps (lbl, F <$> cols) = F <$> cs.
Proof.
  rewrite locate_all_Ok. unfold key_at.
  induction 1 as [|c p cs ps Hp _ IH]; [done|].
  cbn [fmap list_fmap] in *. rewrite IH. f_equal. by apply cell_built.
Qed.

Lemma filter_ext_in {A} (P Q : A → Prop) `{∀ x, Decision (P x)}
    `{∀ x, Decision (Q x)} (l : list A) :
  (∀ x, x ∈ l → P x ↔ Q x) → filter P l = filter Q l.
Proof.
  induction l as [|x l IH]; intros HPQ; [done|].
  rewrite !filter_cons, IH by (intros y Hy; apply HPQ; by right).
  destruct (decide (P x)) as [HP|HP], (decide (Q x)) as [HQ|HQ]; try done.
  - destruct HQ. apply HPQ; [left | done].
  - destruct HP. apply HPQ; [left | done].
Qed.

Lemma distinct_keys_fmap (f : row → list value) (S : row → row) l :
  distinct_keys f (S <$> l) = distinct_keys (f ∘ S) l.
Proof.
  unfold distinct_keys. by rewrite filter_fmap, <-list_fmap_compose.
Qed.

Lemma distinct_keys_ext (f g : row → list value) l :
  (∀ x, x ∈ l → f x = g x) → distinct_keys f l = distinct_keys g l.
Proof.
  intros H. unfold distinct_keys. do 2 f_equal.
  rewrite (filter_ext_in _ (λ r, forallb notna (g r))).
  - apply list_fmap_ext_in. intros x [_ Hx]%list_elem_of_filter. by apply H.
  - intros x Hx. by rewrite H.
Qed.


(** *** groupby on the columns that come first *)

Lemma filter_imap_keys (keys l : list string) (g : nat → nat) :
  l ⊆ keys → filter (λ ic : nat * string, ic.2 ∉ keys) (imap (λ i c, (g i, c)) l) = [].
Proof.
  revert g. induction l as [|c l IH]; intros g Hl; [done|].
  rewrite imap_cons, filter_cons_False.
  - apply (IH (g ∘ S)). intros x Hx. apply Hl. by right.
  - simpl. intros Hc. apply Hc, Hl. left.
Qed.

Lemma other_locs_last keys d : d ∉ keys → other_locs keys (keys ++ [d]) = [length keys].
Proof.
  intros Hd. unfold other_locs. rewrite imap_app, filter_app.
  replace (filter (λ ic : nat * string, ic.2 ∉ keys) (imap pair keys))
    with (@nil (nat * string))
    by (symmetry; by apply (filter_imap_keys keys keys id)).
  cbn [imap app]. rewrite filter_cons_True by done.
  cbn. by rewrite Nat.add_0_r.
Qed.

Lemma get_loc_last keys d : d ∉ keys → get_loc d (keys ++ [d]) = Some (length keys).
Proof.
  intros Hd. rewrite get_loc_app_r by done. cbn.
  rewrite decide_True by done. cbn. by rewrite Nat.add_0_r.
Qed.

Lemma lookup_last {A} (l : list A) x : (l ++ [x]) !! length l = Some x.
Proof. by rewrite lookup_app_r, Nat.sub_diag. Qed.

Lemma groupby_max_first ks d idx rs ps :
  ks ≠ [] → d ∉ ks → locate_all ks (ks ++ [d]) = Ok ps →
  groupby_max ks (mkDF idx (ks ++ [d]) rs) =
  Ok (mkDF ks [d]
        ((λ k, (k, [max_notna (length ks) (group ps k rs)])) <$> group_keys ps rs)).
Proof.
  intros Hks Hd Hps. unfold groupby_max. rewrite decide_False by done.
  cbn [columns rows]. rewrite Hps. cbn [bind].
  rewrite other_locs_last by done. cbn [fmap list_fmap].
  by rewrite lookup_last.
Qed.

Section ages_rows.
Context (log : DataFrame) (ks : list string).
Context (Hks : ks ≠ []) (Hdate : "date" ∉ ks).
Context (Hcols : ks ++ ["date"] ⊆ columns log).

Let sel (x : row) : row := (labels x, key_of log (ks ++ ["date"]) x).

Lemma ages_grouped :
  groupby_max ks
    (mkDF (index_names log) (ks ++ ["date"])
       ((λ r, (labels r, key_of log (ks ++ ["date"]) r)) <$> rows log)) =
  Ok (mkDF ks ["date"] ((λ k, (k, [max_date log ks k])) <$> groups_of log ks)).
Proof.
  destruct (locate_all_total ks (ks ++ ["date"])) as [ps Hps].
  { intros c Hc. apply elem_of_app. by left. }
  rewrite (groupby_max_first _ _ _ _ ps) by done.
  assert (Hkey : ∀ x, key_at ps (sel x) = key_of log ks x).
  { intros x. unfold sel, key_of.
    by apply (key_at_built _ _ _ _ (λ c, at_ log c x)). }
  assert (Hd : ∀ x, cell (sel x) (length ks) = at_ log "date" x).
  { intros x. unfold sel, key_of.
    apply (cell_built _ _ _ _ (λ c, at_ log c x)). by apply get_loc_last. }
  do 2 f_equal. unfold group_keys. fold sel.
  rewrite distinct_keys_fmap.
  rewrite (distinct_keys_ext _ (key_of log ks)) by (intros x _; apply Hkey).
  fold (groups_of log ks). apply list_fmap_ext. intros _ k _. do 2 f_equal.
  unfold max_notna, group, max_date.
  rewrite filter_fmap, <-list_fmap_compose. f_equal.
  rewrite (filter_ext_in _ (λ x, key_of log ks x = k))
    by (intros x _; by rewrite Hkey).
  apply list_fmap_ext. intros _ x _. apply Hd.
Qed.

Lemma groups_of_length : Forall (λ k, length k = length ks) (groups_of log ks).
Proof.
  apply Forall_forall. intros k (x & _ & <- & _)%elem_of_distinct_keys.
  unfold key_of. apply length_fmap.
Qed.

End ages_rows.

(** *** The columns [drop] keeps *)

Lemma filter_imap_none (X l : list string) (off : nat) :
  (∀ c, c ∈ l → c ∉ X) →
  (filter (λ ic : nat * string, ic.2 ∉ X) (imap (λ i c, ((off + i)%nat, c)) l)).*1
  = seq off (length l).
Proof.
  revert off. induction l as [|c l IH]; intros off Hl; [done|].
  rewrite imap_cons, filter_cons_True by (apply Hl; left).
  cbn [fmap list_fmap fst length seq]. rewrite Nat.add_0_r. f_equal.
  rewrite <-(IH (S off)) by (intros x Hx; apply Hl; by right).
  do 2 f_equal. apply imap_ext. intros i x _. simpl. f_equal. lia.
Qed.

Lemma filter_all {A} (P : A → Prop) `{∀ x, Decision (P x)} (l : list A) :
  (∀ x, x ∈ l → P x) → filter P l = l.
Proof.
  induction l as [|x l IH]; intros Hl; [done|].
  rewrite filter_cons_True by (apply Hl; left).
  f_equal. apply IH. intros y Hy. apply Hl. by right.
Qed.

Lemma drop_middle ks d a rs :
  d ∉ ks → a ≠ d →
  drop [d] (mkDF [] ((ks ++ [d]) ++ [a]) rs) =
  Ok (mkDF [] (ks ++ [a])
        ((λ r, (labels r, cell r <$> (seq 0 (length ks) ++ [S (length ks)]))) <$> rs)).
Proof.
  intros Hd Ha. unfold drop, locate_all. cbn [traverse columns index_names rows].
  unfold locate. rewrite <-app_assoc, get_loc_app_r by done. cbn [get_loc app].
  rewrite decide_True by done. cbn [fmap option_fmap option_map bind].
  assert (Hin : ∀ c, c ∈ ks → c ∉ [d]).
  { intros c Hc ->%list_elem_of_singleton. done. }
  f_equal. f_equal.
  - rewrite filter_app, filter_all by done. f_equal.
    rewrite filter_cons_False by (intros H; apply H; left).
    rewrite filter_cons_True; [done|].
    by intros ->%list_elem_of_singleton.
  - apply list_fmap_ext. intros _ r _. do 2 f_equal.
    rewrite imap_app, filter_app, fmap_app. f_equal.
    + by apply (filter_imap_none [d] ks 0).
    + cbn [imap]. rewrite filter_cons_False by (intros H; apply H; left).
      rewrite filter_cons_True by (cbn; by intros ->%list_elem_of_singleton).
      cbn. f_equal. lia.
Qed.

(** *** The rows along the last steps of [ages] *)

Lemma cell_app_l lbl (k rest : list value) i :
  (i < length k)%nat → cell (lbl, k ++ rest) i = default (VFloat NaN) (k !! i).
Proof. intros H. unfold cell. cbn [cells snd]. by rewrite lookup_app_l. Qed.

Lemma cell_app_r lbl (k rest : list value) i :
  cell (lbl, k ++ rest) (length k + i) = default (VFloat NaN) (rest !! i).
Proof.
  unfold cell. cbn [cells snd]. rewrite lookup_app_r by lia.
  do 2 f_equal. lia.
Qed.

Lemma cells_prefix lbl (k rest : list value) :
  cell (lbl, k ++ rest) <$> seq 0 (length k) = k.
Proof.
  apply list_eq. intros i. rewrite list_lookup_fmap.
  destruct (decide (i < length k)%nat) as [Hi|Hi].
  - rewrite lookup_seq_lt by done. cbn. rewrite cell_app_l by done.
    destruct (lookup_lt_is_Some_2 k i Hi) as [x Hx]. by rewrite Hx.
  - rewrite lookup_seq_ge by lia. symmetry. apply lookup_ge_None. lia.
Qed.

Section rows_of_ages.
Context (n : nat) (D : list value → value).

Let row0 (k : list value) : row := ([], k ++ [D k]).

Lemma ages_rows_date K :
  Forall (λ k, length k = n) K →
  (λ r, cell r n) <$> (row0 <$> K) = D <$> K.
Proof.
  intros HK. rewrite <-list_fmap_compose. apply list_fmap_ext_in.
  intros k Hk. rewrite Forall_forall in HK. specialize (HK k Hk) as <-.
  unfold row0. cbn. rewrite <-(Nat.add_0_r (length k)) at 1.
  by rewrite cell_app_r.
Qed.

Lemma ages_rows_delta K (delta : list value) :
  Forall (λ k, length k = n) K → length delta = length K →
  (λ r, cell r (S n))
    <$> zip_with (λ r v, (labels r, cells r ++ [v])) (row0 <$> K) delta
  = delta.
Proof.
  intros HK. revert delta.
  induction HK as [|k K Hk _ IH]; intros [|v delta] [=]; [done|].
  cbn [fmap list_fmap zip_with]. rewrite IH by done. f_equal.
  unfold row0. cbn [labels cells fst snd]. rewrite <-app_assoc. subst n.
  rewrite <-(Nat.add_1_r (length k)). by rewrite cell_app_r.
Qed.

Lemma ages_rows_final K (delta age : list value) :
  Forall (λ k, length k = n) K → length delta = length K → length age = length K →
  (λ r, (labels r, cell r <$> (seq 0 n ++ [S n])))
    <$> zip_with (λ r v, (labels r, <[S n:=v]> (cells r)))
          (zip_with (λ r v, (labels r, cells r ++ [v])) (row0 <$> K) delta) age
  = zip_with (λ k a, ([], k ++ [a])) K age.
Proof.
  intros HK. revert delta age.
  induction HK as [|k K Hk _ IH]; intros [|v delta] [|a age] [=] [=]; [done|].
  cbn [fmap list_fmap zip_with]. rewrite IH by done. f_equal.
  unfold row0. cbn [labels cells fst snd]. f_equal. subst n.
  rewrite <-app_assoc. cbn [app].
  rewrite <-(Nat.add_1_r (length k)), insert_app_r. cbn [insert list_insert].
  rewrite fmap_app, cells_prefix. f_equal. cbn [fmap list_fmap].
  by rewrite cell_app_r.
Qed.

End rows_of_ages.

Lemma traverse_bind {A B C} (f : A → result B) (g : B → result C) l l2 :
  traverse (λ x, let* y := f x in g y) l = Ok l2 ↔
  ∃ l1, traverse f l = Ok l1 ∧ traverse g l1 = Ok l2.
Proof.
  rewrite traverse_Ok. split.
  - induction 1 as [|x z l l2 Hxz _ (l1 & H1 & H2)].
    + by exists [].
    + apply bind_Ok in Hxz as (y & Hy & Hz). exists (y :: l1).
      cbn [traverse]. by rewrite Hy, H1, Hz, H2.
  - intros (l1 & H1 & H2). apply traverse_Ok in H1, H2.
    revert l2 H2. induction H1 as [|x y l l1 Hy _ IH]; intros l2 H2.
    + inversion H2. constructor.
    + inversion H2 as [|? z ? l2' Hz H2']; subst. constructor; [|by apply IH].
      by rewrite Hy.
Qed.

Section ages_eval.
Context (get_now : Z) (strptime : bool → string → option Z).
Context (log : DataFrame) (ks : list string) (utc : bool).
Context (Hks : ks ≠ []) (Hdate : "date" ∉ ks) (Hage : "age" ∉ ks).

Let K := groups_of log ks.
Let D := max_date log ks.
Let rv0 := mkDF [] (ks ++ ["date"]) ((λ k, (([] : list value), k ++ [D k])) <$> K).

Lemma ages_tail (delta age : list value) :
  length delta = length K →
  traverse in_days delta = Ok age →
  (let* rv := setitem "age" delta rv0 in
   let* age := getcol "age" rv in
   let* age := traverse in_days (values age) in
   let* rv := setitem "age" age rv in
   drop ["date"] rv) =
  Ok (mkDF [] (ks ++ ["age"]) (zip_with (λ k a, ([], k ++ [a])) K age)).
Proof.
  intros Hlen Hage'. pose proof (groups_of_length log ks) as HK. fold K in HK.
  assert (Hlen' : length age = length K).
  { apply traverse_length in Hage'. lia. }
  assert (Hnone : get_loc "age" (ks ++ ["date"]) = None).
  { apply get_loc_None. rewrite elem_of_app, list_elem_of_singleton.
    by intros [?|?]. }
  assert (Hsome : get_loc "age" ((ks ++ ["date"]) ++ ["age"])
                  = Some (S (length ks))).
  { rewrite get_loc_app_r by (by apply get_loc_None). cbn [get_loc].
    rewrite decide_True by done. cbn.
    rewrite length_app. cbn. f_equal. lia. }
  unfold setitem at 1. cbn [rows columns rv0 index_names].
  rewrite decide_True by (by rewrite length_fmap).
  rewrite Hnone. cbn [bind].
  unfold getcol. cbn [columns rows]. unfold locate. rewrite Hsome. cbn [bind].
  unfold values. cbn [items]. rewrite <-list_fmap_compose.
  rewrite (list_fmap_ext_in _ (λ r, cell r (S (length ks)))) by done.
  rewrite (ages_rows_delta (length ks) D) by done.
  rewrite Hage'. cbn [bind].
  unfold setitem. cbn [rows columns index_names].
  rewrite decide_True by (rewrite length_zip_with, length_fmap; lia).
  rewrite Hsome. cbn [bind].
  rewrite drop_middle by done. do 2 f_equal.
  by apply (ages_rows_final (length ks) D).
Qed.

Lemma ages_Ok kwargs out :
  ks ++ ["date"] ⊆ columns log →
  ages get_now strptime log (Some ks) (Some utc) kwargs = Ok out ↔
  ∃ age, traverse (age_of strptime get_now utc) (D <$> K) = Ok age
         ∧ out = mkDF [] (ks ++ ["age"]) (zip_with (λ k a, ([], k ++ [a])) K age).
Proof.
  intros Hcols. unfold ages.
  change (default true (Some utc)) with utc.
  change (default _ (Some ks)) with ks. cbv zeta.
  rewrite getitem_eval by done. cbn [bind].
  rewrite ages_grouped by done. cbn [bind].
  pose proof (groups_of_length log ks) as HK. fold K in HK.
  replace (reset_index _) with rv0.
  2:{ unfold reset_index, rv0. cbn [index_names columns rows].
      by rewrite <-list_fmap_compose. }
  unfold getcol at 1. cbn [columns rv0]. unfold locate.
  rewrite get_loc_last by done. cbn [bind rows].
  unfold values at 1. cbn [items]. rewrite <-list_fmap_compose.
  rewrite (list_fmap_ext_in _ (λ r, cell r (length ks))) by done.
  unfold rv0 at 1. cbn [rows].
  rewrite (ages_rows_date (length ks) D) by done.
  fold rv0. split.
  - intros H. apply bind_Ok in H as (stamps & Hs & H).
    apply bind_Ok in H as (delta & Hd & H).
    assert (Hlen : length delta = length K).
    { apply traverse_length in Hs, Hd. rewrite length_fmap in Hs. lia. }
    destruct (traverse_total in_days delta) as [age Hage'].
    { apply traverse_Ok in Hs, Hd. apply Forall_forall. intros d Hin.
      apply list_elem_of_lookup in Hin as [i Hi].
      destruct (Forall2_lookup_r _ _ _ _ _ Hd Hi) as (s & Hsi & Hsd).
      destruct (Forall2_lookup_r _ _ _ _ _ Hs Hsi) as (v & _ & Hvs).
      unfold to_datetime in Hvs. unfold time_since in Hsd.
      repeat case_match; simplify_eq; by eexists. }
    rewrite (ages_tail delta age) in H by done. injection H as <-.
    exists age. split; [|done].
    unfold age_of. apply traverse_bind. exists stamps. split; [done|].
    apply traverse_bind. by exists delta.
  - intros (age & Hage' & ->). unfold age_of in Hage'.
    apply traverse_bind in Hage' as (stamps & Hs & Hage').
    apply traverse_bind in Hage' as (delta & Hd & Hage').
    rewrite Hs. cbn [bind]. rewrite Hd. cbn [bind].
    apply ages_tail; [|done].
    apply traverse_length in Hs, Hd. rewrite length_fmap in Hs. lia.
Qed.

End ages_eval.

(** *** The columns along [setitem] and [drop] *)

Lemma setitem_columns c vals df df' :
  setitem c vals df = Ok df' →
  columns df' = if decide (c ∈ columns df) then columns df else columns df ++ [c].
Proof.
  unfold setitem. case_decide; [|done].
  destruct (get_loc c (columns df)) as [i|] eqn:E; intros [= <-]; cbn.
  - rewrite decide_True; [done|]. apply get_loc_Some in E.
    by eapply list_elem_of_lookup_2.
  - rewrite decide_False; [done|]. by apply get_loc_None.
Qed.

Lemma drop_columns cs df df' :
  drop cs df = Ok df' → columns df' = filter (λ c, c ∉ cs) (columns df).
Proof. unfold drop. intros H. inv_bind H. by injection H as <-. Qed.

Lemma zip_with_rows_elem (K : list (list value)) (F : list value → result value)
    (A : list value) (r : row) :
  traverse F K = Ok A →
  r ∈ zip_with (λ k a, (([] : list value), k ++ [a])) K A ↔
  ∃ k a, k ∈ K ∧ F k = Ok a ∧ r = ([], k ++ [a]).
Proof.
  rewrite traverse_Ok. intros HF. rewrite elem_of_lookup_zip_with. split.
  - intros (i & k & a & -> & Hk & Ha). exists k, a.
    destruct (Forall2_lookup_l _ _ _ _ _ HF Hk) as (a' & Ha' & HFk).
    rewrite Ha in Ha'. injection Ha' as <-.
    split; [by eapply list_elem_of_lookup_2 | done].
  - intros (k & a & Hk & HFk & ->).
    apply list_elem_of_lookup in Hk as [i Hi]. exists i, k, a.
    destruct (Forall2_lookup_l _ _ _ _ _ HF Hi) as (a' & Ha' & HFk').
    rewrite HFk in HFk'. by injection HFk' as <-.
Qed.

(** * ages *)

(** *** The largest of a list of time stamps *)

Lemma latest_VTime (vs : list value) :
  Forall (λ v, ∃ t, v = VTime t) vs → vs ≠ [] →
  ∃ t, latest vs = VTime t ∧ VTime t ∈ vs
       ∧ ∀ t', VTime t' ∈ vs → (t' ≤ t)%Z.
Proof.
  induction 1 as [|v vs [t0 ->] Hvs IH]; intros Hne; [done|].
  unfold latest in *. cbn [foldr].
  destruct vs as [|v' vs'].
  - exists t0. cbn. split; [done|]. split; [left|].
    intros t' [= ->]%list_elem_of_singleton. lia.
  - destruct IH as (t & -> & Hin & Hmax); [done|].
    unfold value_max. cbn.
    destruct (bool_decide (t0 ≤ t)%Z) eqn:E.
    + apply bool_decide_eq_true in E. exists t. split; [done|].
      split; [by right|]. intros t' [[= ->]|Ht']%elem_of_cons; [done|].
      by apply Hmax.
    + apply bool_decide_eq_false in E. exists t0. split; [done|].
      split; [left|]. intros t' [[= ->]|Ht']%elem_of_cons; [lia|].
      apply Hmax in Ht'. lia.
Qed.

Lemma age_of_VTime strptime now utc t :
  age_of strptime now utc (VTime t) =
  Ok (VFloat (Fin (Qc_of_Z (now - t) / Qc_of_Z day))).
Proof. reflexivity. Qed.

Lemma max_date_VTime log keys x :
  (∀ y, y ∈ rows log → ∃ t, at_ log "date" y = VTime t) →
  x ∈ rows log →
  ∃ t, max_date log keys (key_of log keys x) = VTime t
       ∧ (∃ y, y ∈ rows log ∧ key_of log keys y = key_of log keys x
               ∧ at_ log "date" y = VTime t)
       ∧ (∀ y t', y ∈ rows log → key_of log keys y = key_of log keys x →
                  at_ log "date" y = VTime t' → (t' ≤ t)%Z).
Proof.
  intros Hd Hx. unfold max_date.
  set (g := filter (λ y, key_of log keys y = key_of log keys x) (rows log)).
  assert (Hg : ∀ y, y ∈ g ↔ key_of log keys y = key_of log keys x ∧ y ∈ rows log).
  { intros y. unfold g. by rewrite list_elem_of_filter. }
  destruct (latest_VTime (at_ log "date" <$> g)) as (t & Ht & Hin & Hmax).
  - apply Forall_fmap, Forall_forall. intros y [_ Hy]%Hg. by apply Hd.
  - intros Hnil%fmap_nil_inv. assert (x ∈ g) as Hxg by by apply Hg.
    rewrite Hnil in Hxg. by apply elem_of_nil in Hxg.
  - exists t. split; [done|]. split.
    + apply list_elem_of_fmap in Hin as (y & Hy & [? ?]%Hg). by exists y.
    + intros y t' Hy Hk Hdy. apply Hmax. rewrite <-Hdy.
      apply list_elem_of_fmap. exists y. split; [done|]. by apply Hg.
Qed.

(** C7. With [keys=None] the age calculator groups by the columns of the log
    that are not in the exclusion set: the columns of its result are those
    keys and [age], the [date] column is gone; when the log has no [age]
    column of its own the columns are the keys followed by [age], and the
    rows are, for every row [x] of the log whose key has no missing value,
    the key of [x] followed by the age of the largest date among the rows of
    the log with that key.  Where the dates are time stamps, that date is the
    maximum of the group. *)
Theorem ages_default_keys get_now strptime log utc kwargs out :
  ages get_now strptime log None utc kwargs = Ok out →
  let keys := filter (λ c, c ∉ excluded) (columns log) in
  (∀ c, c ∈ columns out ↔ c ∈ keys ∨ c = "age")
  ∧ ("date" ∉ columns out)
  ∧ ("age" ∉ columns log →
     columns out = keys ++ ["age"]
     ∧ ∀ r, r ∈ rows out ↔
         ∃ x a, x ∈ rows log
                ∧ forallb notna (key_of log keys x)
                ∧ age_of strptime get_now (default true utc)
                    (max_date log keys (key_of log keys x)) = Ok a
                ∧ r = ([], key_of log keys x ++ [a]))
  ∧ ((∀ y, y ∈ rows log → ∃ t, at_ log "date" y = VTime t) →
     ∀ x, x ∈ rows log →
       ∃ t, max_date log keys (key_of log keys x) = VTime t
            ∧ (∃ y, y ∈ rows log ∧ key_of log keys y = key_of log keys x
                    ∧ at_ log "date" y = VTime t)
            ∧ (∀ y t', y ∈ rows log →
                       key_of log keys y = key_of log keys x →
                       at_ log "date" y = VTime t' → (t' ≤ t)%Z)).
Proof.
  intros H keys.
  assert (Hdate : "date" ∉ keys).
  { intros [Hex _]%list_elem_of_filter. apply Hex. unfold excluded.
    do 2 right. left. }
  change (ages get_now strptime log (Some keys) (Some (default true utc)) kwargs
          = Ok out) in H.
  pose proof H as H'. unfold ages in H'. cbv zeta in H'.
  change (default true (Some ?u)) with u in H'.
  change (default _ (Some keys)) with keys in H'.
  inv_bind H'.
  pose proof (getitem_Ok _ _ _ Ha) as Hcols.
  assert (Hks : keys ≠ []).
  { intros E. unfold groupby_max in Ha0. by rewrite decide_True in Ha0. }
  rewrite getitem_eval in Ha by done. injection Ha as <-.
  rewrite ages_grouped in Ha0 by done. injection Ha0 as <-.
  apply setitem_columns in Ha4, Ha7. apply drop_columns in H'.
  cbn [reset_index columns index_names] in Ha4.
  split; [|split; [|split]].
  - intros c. rewrite H', list_elem_of_filter, Ha7, Ha4.
    rewrite list_elem_of_singleton.
    destruct (decide ("age" ∈ keys ++ ["date"])) as [Hin|Hin].
    + rewrite decide_True by done.
      rewrite elem_of_app, list_elem_of_singleton in Hin.
      destruct Hin as [Hin|?]; [|done].
      rewrite elem_of_app, list_elem_of_singleton. split.
      * intros [? [?|?]]; [by left | done].
      * intros [? | ->]; (split; [|by left]); [by intros -> | done].
    + rewrite decide_True by (apply elem_of_app; right; left).
      rewrite !elem_of_app, !list_elem_of_singleton. split.
      * intros [? [[?|?]|?]]; [by left | done | by right].
      * intros [? | ->]; (split; [|]);
          [by intros -> | by left; left | done | by right].
  - rewrite H', list_elem_of_filter, list_elem_of_singleton. by intros [? _].
  - intros Hage.
    assert (Hage' : "age" ∉ keys).
    { intros [_ Hin]%list_elem_of_filter. done. }
    apply (ages_Ok get_now strptime log keys (default true utc)) in H
      as (age & Hage'' & ->); [|done..].
    split; [done|]. intros r. cbn [rows].
    rewrite (zip_with_rows_elem _
               (λ k, age_of strptime get_now (default true utc)
                       (max_date log keys k))).
    2:{ apply traverse_Ok. apply traverse_Ok in Hage''.
        by rewrite Forall2_fmap_l in Hage''. }
    split.
    + intros (k & a & (x & Hx & <- & Hna)%elem_of_distinct_keys & Ha & ->).
      by exists x, a.
    + intros (x & a & Hx & Hna & Ha & ->).
      exists (key_of log keys x), a. split; [|done].
      apply elem_of_distinct_keys. by exists x.
  - intros Hd x Hx. by apply max_date_VTime.
Qed.

(** C6, as the code has it.  [ages] has no [reference_time] parameter: the
    keyword arguments it accepts do not change its result, and the age of a
    group is counted from the clock [get_now] to the largest date of the
    group, in days.  (For grouping columns other than [date] and [age].) *)
Theorem ages_reads_the_clock get_now strptime log ks utc kwargs out :
  "date" ∉ ks → "age" ∉ ks →
  ages get_now strptime log (Some ks) utc kwargs = Ok out →
  (∀ kwargs', ages get_now strptime log (Some ks) utc kwargs' = Ok out)
  ∧ (∀ r, r ∈ rows out ↔
       ∃ x a, x ∈ rows log
              ∧ forallb notna (key_of log ks x)
              ∧ age_of strptime get_now (default true utc)
                  (max_date log ks (key_of log ks x)) = Ok a
              ∧ r = ([], key_of log ks x ++ [a]))
  ∧ (∀ t, age_of strptime get_now (default true utc) (VTime t)
          = Ok (VFloat (Fin (Qc_of_Z (get_now - t) / Qc_of_Z day)))).
Proof.
  intros Hdate Hage H. split; [done|]. split; [|done].
  change (ages get_now strptime log (Some ks) (Some (default true utc)) kwargs
          = Ok out) in H.
  pose proof H as H'. unfold ages in H'. cbv zeta in H'.
  change (default _ (Some ks)) with ks in H'.
  inv_bind H'.
  pose proof (getitem_Ok _ _ _ Ha) as Hcols.
  assert (Hks : ks ≠ []).
  { intros E. unfold groupby_max in Ha0. by rewrite decide_True in Ha0. }
  clear -H Hcols Hks Hdate Hage.
  apply (ages_Ok get_now strptime log ks (default true utc)) in H
    as (age & Hage'' & ->); [|done..].
  intros r. cbn [rows].
  rewrite (zip_with_rows_elem _
             (λ k, age_of strptime get_now (default true utc)
                     (max_date log ks k))).
  2:{ apply traverse_Ok. apply traverse_Ok in Hage''.
      by rewrite Forall2_fmap_l in Hage''. }
  split.
  - intros (k & a & (x & Hx & <- & Hna)%elem_of_distinct_keys & Ha & ->).
    by exists x, a.
  - intros (x & a & Hx & Hna & Ha & ->).
    exists (key_of log ks x), a. split; [|done].
    apply elem_of_distinct_keys. by exists x.
Qed.

(** C6, as the claim has it, fails: called with [reference_time] set to
    2018-03-01 while the clock says 2018-02-28, [ages] gives the file last
    changed on 2018-02-26T10:28:00Z the age 135120/86400 = 1.5639 days, the
    time to the clock, and not the 221520/86400 = 2.5639 days to
    [reference_time]. *)
Lemma ages_reference_time_ignored :
  ages Fixture.now Fixture.strptime Fixture.log (Some ["path"]) None
       [("reference_time", VTime (Fixture.sec 1519862400))]
  = Ok (mkDF [] ["path"; "age"]
          [([], [VStr "requirements.txt"; Fixture.q 305149 86400]);
           ([], [VStr "stats.py"; Fixture.q 135120 86400])])
  ∧ Fixture.q 135120 86400 ≠ Fixture.q (1519862400 - 1519640880) 86400.
Proof. split; apply (bool_decide_unpack _); vm_compute; exact I. Qed.

(** * co_changes *)

(** *** Labels made with a suffix *)

Lemma append_is_suffix (s t c : string) : s +:+ t = c → is_suffix t c = true.
Proof.
  revert c. induction s as [|a s IH]; intros c.
  - change ("" +:+ t) with t. intros ->.
    destruct c; cbn; by rewrite bool_decide_eq_true_2.
  - change (String a s +:+ t) with (String a (s +:+ t)). intros <-.
    cbn. rewrite (IH _ eq_refl). by rewrite orb_true_r.
Qed.

Lemma not_suffix_ne (s t c : string) : is_suffix t c = false → s +:+ t ≠ c.
Proof. intros H E. apply append_is_suffix in E. by rewrite H in E. Qed.

Lemma suffix_ne (s a b : string) : a ≠ b → s +:+ a ≠ s +:+ b.
Proof. intros Hab H. by apply (inj (String.app s)) in H. Qed.

(** Decides the tests on labels that the hypotheses settle. *)
Ltac label_facts :=
  solve [ done
        | by apply not_eq_sym
        | by apply suffix_ne
        | by apply not_suffix_ne
        | by apply not_eq_sym, not_suffix_ne
        | rewrite ?elem_of_cons, ?not_elem_of_cons, ?elem_of_nil; intuition congruence ].

Ltac labels :=
  repeat match goal with
  | |- context [decide ?P] =>
      first [ rewrite (decide_True (P:=P)) by label_facts
            | rewrite (decide_False (P:=P)) by label_facts ]
  end.

Section co_changes_steps.
Context (by_ on : string).
Context (Hne : by_ ≠ on).
Context (Hon1 : on ≠ "primary") (Hon2 : on ≠ "secondary").
Context (Hon3 : on ≠ by_ +:+ "_x") (Hon4 : on ≠ by_ +:+ "_y").

Lemma merge_on_self idx rs :
  merge_on [on] ("_x", "_y") (mkDF idx [on; by_] rs) (mkDF idx [on; by_] rs) =
  Ok (mkDF [] [on; by_ +:+ "_x"; by_ +:+ "_y"]
        (l ← rs;
         r ← filter (λ r, key_at [0%nat] r = key_at [0%nat] l) rs;
         [([], cells l ++ drop_locs [0%nat] (cells r))])).
Proof.
  unfold merge_on, locate_all, locate. cbn [traverse get_loc columns rows].
  labels. cbn [bind].
  unfold drop_labels, suffixed. cbn [filter list_filter fmap list_fmap fst snd].
  labels. cbn [filter list_filter fmap list_fmap fst snd app]. labels. done.
Qed.

Lemma rename_self idx rs :
  rename [(by_ +:+ "_x", "primary"); (by_ +:+ "_y", "secondary")]
    (mkDF idx [on; by_ +:+ "_x"; by_ +:+ "_y"] rs) =
  mkDF idx [on; "primary"; "secondary"] rs.
Proof.
  unfold rename. cbn [fmap list_fmap rename_label columns rows index_names].
  labels. done.
Qed.

Lemma groupby_count_pairs idx rs :
  groupby_count ["primary"; "secondary"] (mkDF idx [on; "primary"; "secondary"] rs) =
  Ok (mkDF ["primary"; "secondary"] [on]
        ((λ k, (k, [VInt (count_notna 0 (group [1; 2]%nat k rs))]))
           <$> group_keys [1; 2]%nat rs)).
Proof.
  unfold groupby_count, locate_all, locate, other_locs.
  cbn [traverse get_loc columns rows imap filter list_filter fmap list_fmap
       option_fmap option_map fst snd compose].
  labels. cbn [bind fmap list_fmap option_fmap option_map fst snd].
  labels. done.
Qed.

Lemma getcol_primary rs :
  getcol "primary" (mkDF [] ["primary"; "secondary"; on] rs) =
  Ok (mkSeries "primary" ((λ r, (labels r, cell r 0)) <$> rs)).
Proof. reflexivity. Qed.

Lemma getcol_secondary rs :
  getcol "secondary" (mkDF [] ["primary"; "secondary"; on] rs) =
  Ok (mkSeries "secondary" ((λ r, (labels r, cell r 1)) <$> rs)).
Proof. reflexivity. Qed.

Lemma getitem_self rs :
  getitem ["primary"; on] (mkDF [] ["primary"; "secondary"; on] rs) =
  Ok (mkDF [] ["primary"; on] ((λ r, (labels r, [cell r 0; cell r 2])) <$> rs)).
Proof.
  unfold getitem, locate_all, locate.
  cbn [traverse get_loc columns rows index_names fmap option_fmap option_map].
  labels. done.
Qed.

Lemma merge_on_primary ls rs :
  merge_on ["primary"] ("_changes", "_cochanges")
    (mkDF [] ["primary"; on] ls) (mkDF [] ["primary"; "secondary"; on] rs) =
  Ok (mkDF [] ["primary"; on +:+ "_changes"; "secondary"; on +:+ "_cochanges"]
        (l ← ls;
         r ← filter (λ r, key_at [0%nat] r = key_at [0%nat] l) rs;
         [([], cells l ++ drop_locs [0%nat] (cells r))])).
Proof.
  unfold merge_on, locate_all, locate. cbn [traverse get_loc columns rows].
  labels. cbn [bind].
  unfold drop_labels, suffixed. cbn [filter list_filter fmap list_fmap fst snd].
  labels. cbn [filter list_filter fmap list_fmap fst snd app]. labels.
  cbn [filter list_filter fmap list_fmap fst snd app]. labels. done.
Qed.

Lemma getcol_cochanges rs :
  getcol (on +:+ "_cochanges") (mkDF [] (result_columns on) rs) =
  Ok (mkSeries (on +:+ "_cochanges") ((λ r, (labels r, cell r 3)) <$> rs)).
Proof.
  unfold getcol, locate, result_columns.
  cbn [get_loc columns rows fmap option_fmap option_map].
  labels. done.
Qed.

Lemma getcol_changes rs :
  getcol (on +:+ "_changes") (mkDF [] (result_columns on) rs) =
  Ok (mkSeries (on +:+ "_changes") ((λ r, (labels r, cell r 1)) <$> rs)).
Proof.
  unfold getcol, locate, result_columns.
  cbn [get_loc columns rows fmap option_fmap option_map].
  labels. done.
Qed.

Lemma setitem_coupling vals rs :
  length vals = length rs →
  setitem "coupling" vals (mkDF [] (result_columns on) rs) =
  Ok (mkDF [] (result_columns on ++ ["coupling"])
        (zip_with (λ r v, (labels r, cells r ++ [v])) rs vals)).
Proof.
  intros Hlen. unfold setitem, result_columns.
  cbn [get_loc columns rows fmap option_fmap option_map index_names].
  labels. done.
Qed.

Lemma getitem_result rs :
  getitem ["primary"; "secondary"; on +:+ "_cochanges"; on +:+ "_changes";
           "coupling"] (mkDF [] (result_columns on ++ ["coupling"]) rs) =
  Ok (mkDF [] ["primary"; "secondary"; on +:+ "_cochanges"; on +:+ "_changes";
               "coupling"]
        ((λ r, (labels r, [cell r 0; cell r 2; cell r 3; cell r 1; cell r 4]))
           <$> rs)).
Proof.
  unfold getitem, locate_all, locate, result_columns.
  cbn [traverse get_loc columns rows index_names fmap option_fmap option_map app].
  labels. done.
Qed.

Lemma sort_by_coupling rs :
  sort_values_desc ["coupling"]
    (mkDF [] ["primary"; "secondary"; on +:+ "_cochanges"; on +:+ "_changes";
              "coupling"] rs) =
  Ok (mkDF [] ["primary"; "secondary"; on +:+ "_cochanges"; on +:+ "_changes";
               "coupling"]
        (merge_sort (λ r1 r2, key_ge (key_at [4%nat] r1) (key_at [4%nat] r2)) rs)).
Proof.
  unfold sort_values_desc, locate_all, locate.
  cbn [traverse get_loc columns rows index_names fmap option_fmap option_map].
  labels. done.
Qed.

End co_changes_steps.

Lemma zip_with_fmap_same {A B C D} (h : B → C → D) (f : A → B) (g : A → C)
    (l : list A) :
  zip_with h (f <$> l) (g <$> l) = (λ x, h (f x) (g x)) <$> l.
Proof. induction l as [|x l IH]; [done|]. cbn. by rewrite IH. Qed.

Lemma zip_with_fmap_r_same {A B C} (h : A → B → C) (g : A → B) (l : list A) :
  zip_with h l (g <$> l) = (λ x, h x (g x)) <$> l.
Proof. induction l as [|x l IH]; [done|]. cbn. by rewrite IH. Qed.

Lemma traverse_fmap_Ok {A B C} (f : B → result C) (g : A → B) (h : A → C)
    (l : list A) :
  (∀ x, x ∈ l → f (g x) = Ok (h x)) → traverse f (g <$> l) = Ok (h <$> l).
Proof.
  induction l as [|x l IH]; intros H; [done|].
  cbn. rewrite (H x) by left. cbn.
  rewrite IH by (intros y Hy; apply H; by right). done.
Qed.

Section co_changes_eval.
Context (log : DataFrame) (by_ on : string).
Context (Hne : by_ ≠ on).
Context (Hon1 : on ≠ "primary") (Hon2 : on ≠ "secondary").
Context (Hon3 : on ≠ by_ +:+ "_x") (Hon4 : on ≠ by_ +:+ "_y").
Context (Hcols : [on; by_] ⊆ columns log).

Lemma pair_keys_shape k : k ∈ (pair_keys log by_ on) → ∃ p q, k = [p; q].
Proof. intros (r & _ & <- & _)%elem_of_group_keys. by eexists _, _. Qed.

Lemma result_rows_shape r :
  r ∈ (result_rows log by_ on) →
  ∃ p q m n, r = ([], [p; VInt m; q; VInt n]).
Proof.
  unfold result_rows. rewrite list_elem_of_bind.
  intros (l & Hr & Hl). apply list_elem_of_bind in Hr as (r' & Hr & Hr').
  apply list_elem_of_singleton in Hr as ->.
  apply list_elem_of_fmap in Hl as (l' & -> & [_ Hl']%list_elem_of_filter).
  apply list_elem_of_filter in Hr' as [_ [_ Hr']%list_elem_of_filter].
  unfold counted_rows in *.
  apply list_elem_of_fmap in Hl' as (k1 & -> & (p1 & q1 & ->)%pair_keys_shape).
  apply list_elem_of_fmap in Hr' as (k2 & -> & (p2 & q2 & ->)%pair_keys_shape).
  by eexists _, _, _, _.
Qed.

Lemma co_changes_eval :
  co_changes log (Some by_) (Some on) =
  Ok (mkDF [] ["primary"; "secondary"; on +:+ "_cochanges"; on +:+ "_changes";
               "coupling"]
        (merge_sort (λ r1 r2, key_ge (key_at [4%nat] r1) (key_at [4%nat] r2))
           (final_row <$> (result_rows log by_ on)))).
Proof.
  unfold co_changes. change (default _ (Some by_)) with by_.
  change (default _ (Some on)) with on. cbv zeta.
  rewrite getitem_eval by done. cbn [bind].
  unfold drop_duplicates. cbn [index_names columns rows].
  change (unique_by cells (_ <$> rows log)) with (pair_rows log by_ on).
  rewrite merge_on_self by done. cbn [bind].
  rewrite rename_self by done.
  cbn [index_names columns rows].
  change (unique_by cells ((pair_rows log by_ on) ≫= _)) with (joined_rows log by_ on).
  rewrite groupby_count_pairs by done. cbn [bind].
  change (group_keys [1; 2]%nat (joined_rows log by_ on)) with (pair_keys log by_ on).
  assert (Hreset : ∀ rs, reset_index (mkDF ["primary"; "secondary"] [on] rs)
                 = mkDF [] ["primary"; "secondary"; on]
                        ((λ r, ([], labels r ++ cells r)) <$> rs)) by done.
  rewrite Hreset, <-list_fmap_compose. clear Hreset.
  change ((λ r : row, ([], labels r ++ cells r)) ∘ _ <$> (pair_keys log by_ on))
    with (counted_rows log by_ on).
  rewrite getcol_primary, getcol_secondary. cbn [bind].
  unfold eq, ne, values, getitem_mask. cbn [items index_names columns rows].
  rewrite <-!list_fmap_compose.
  rewrite !(zip_with_fmap_same _ _ _ (counted_rows log by_ on)), !filter_mask_fmap.
  cbn [compose snd].
  rewrite getitem_self by done. cbn [bind].
  rewrite merge_on_primary by done. cbn [bind].
  change (_ ≫= _) with (result_rows log by_ on). fold (result_columns on).
  rewrite getcol_cochanges, getcol_changes by done. cbn [bind].
  unfold div, values. cbn [items]. rewrite <-!list_fmap_compose.
  rewrite (zip_with_fmap_same pair _ _ (result_rows log by_ on)).
  rewrite (traverse_fmap_Ok _ _ (λ r, ratio (cell r 3) (cell r 1))).
  2:{ intros r (p & q & m & n & ->)%result_rows_shape. reflexivity. }
  cbn [bind].
  rewrite setitem_coupling by (by rewrite length_fmap).
  cbn [bind]. rewrite zip_with_fmap_r_same.
  rewrite getitem_result by done. cbn [bind].
  rewrite sort_by_coupling by done. do 3 f_equal.
  rewrite <-list_fmap_compose. apply list_fmap_ext_in.
  intros r (p & q & m & n & ->)%result_rows_shape. reflexivity.
Qed.

End co_changes_eval.

Section co_changes_meaning.
Context (log : DataFrame) (by_ on : string).

Local Abbreviation touches' := (touches log by_ on).

Lemma elem_of_pair_rows r :
  r ∈ pair_rows log by_ on →
  ∃ x, x ∈ rows log ∧ cells r = [at_ log on x; at_ log by_ x].
Proof.
  intros Hr%elem_of_unique_by. apply list_elem_of_fmap in Hr as (x & -> & Hx).
  by exists x.
Qed.

Lemma pair_rows_touches u p :
  [u; p] ∈ cells <$> pair_rows log by_ on ↔ touches' u p.
Proof.
  unfold pair_rows, touches. rewrite elem_of_unique_by_fmap, <-list_fmap_compose.
  rewrite list_elem_of_fmap, Exists_exists. split.
  - intros (x & [= -> ->] & Hx). by exists x.
  - intros (x & Hx & <- & <-). by exists x.
Qed.

Lemma joined_rows_cells cs :
  cs ∈ cells <$> joined_rows log by_ on ↔
  ∃ u p q, cs = [u; p; q] ∧ touches' u p ∧ touches' u q.
Proof.
  unfold joined_rows. rewrite elem_of_unique_by_fmap, list_elem_of_fmap. split.
  - intros (r & -> & Hr). apply list_elem_of_bind in Hr as (l & Hr & Hl).
    apply list_elem_of_bind in Hr as (r' & Hr & [Hkey Hr']%list_elem_of_filter).
    apply list_elem_of_singleton in Hr as ->.
    pose proof (list_elem_of_fmap_2 cells _ _ Hl) as Hl1.
    pose proof (list_elem_of_fmap_2 cells _ _ Hr') as Hr1.
    apply elem_of_pair_rows in Hl as (x & _ & Hx).
    apply elem_of_pair_rows in Hr' as (y & _ & Hy).
    rewrite Hx in Hl1. rewrite Hy in Hr1.
    unfold key_at, cell in Hkey. rewrite Hx, Hy in Hkey. cbn in Hkey.
    injection Hkey as Hkey. rewrite Hkey in Hr1.
    apply pair_rows_touches in Hl1, Hr1.
    exists (at_ log on x), (at_ log by_ x), (at_ log by_ y).
    split; [|done]. cbn [cells snd]. by rewrite Hx, Hy.
  - intros (u & p & q & -> & Hp & Hq).
    apply pair_rows_touches, list_elem_of_fmap in Hp as (l & Hl & Hlin).
    apply pair_rows_touches, list_elem_of_fmap in Hq as (r & Hr & Hrin).
    exists ([], cells l ++ drop_locs [0%nat] (cells r)). split.
    + cbn [cells snd]. by rewrite <-Hl, <-Hr.
    + apply list_elem_of_bind. exists l. split; [|done].
      apply list_elem_of_bind. exists r. split; [apply list_elem_of_singleton; done|].
      apply list_elem_of_filter. split; [|done].
      unfold key_at, cell. by rewrite <-Hl, <-Hr.
Qed.

Lemma elem_of_joined_rows r :
  r ∈ joined_rows log by_ on →
  ∃ u p q, r = ([], [u; p; q]) ∧ touches' u p ∧ touches' u q.
Proof.
  intros Hr. pose proof (list_elem_of_fmap_2 cells _ _ Hr) as Hc.
  apply joined_rows_cells in Hc as (u & p & q & Hc & Hp & Hq).
  exists u, p, q. split; [|done].
  apply elem_of_unique_by, list_elem_of_bind in Hr as (l & Hr & _).
  apply list_elem_of_bind in Hr as (r' & ->%list_elem_of_singleton & _).
  cbn [cells snd] in Hc. by rewrite Hc.
Qed.

Lemma elem_of_pair_keys k :
  k ∈ pair_keys log by_ on ↔
  ∃ u p q, k = [p; q] ∧ notna p ∧ notna q ∧ touches' u p ∧ touches' u q.
Proof.
  unfold pair_keys. rewrite elem_of_group_keys. split.
  - intros (r & (u & p & q & -> & Hp & Hq)%elem_of_joined_rows & <- & Hna).
    exists u, p, q. cbn in Hna |- *.
    destruct (notna p), (notna q); done.
  - intros (u & p & q & -> & Hnp & Hnq & Hp & Hq).
    assert (Hc : [u; p; q] ∈ cells <$> joined_rows log by_ on).
    { apply joined_rows_cells. by exists u, p, q. }
    apply list_elem_of_fmap in Hc as (r & Hc & Hr). exists r.
    split; [done|]. unfold key_at, cell. rewrite <-Hc. cbn.
    split; [done|]. destruct (notna p), (notna q); done.
Qed.

Lemma shared_cochanges p q :
  shared log by_ on [p; q] = cochanges log by_ on p q.
Proof.
  unfold shared, count_notna, group, cochanges. f_equal.
  rewrite list_filter_filter.
  set (J := filter _ (joined_rows log by_ on)).
  set (U := filter _ (units log on)).
  rewrite <-(length_fmap (λ r, cell r 0) J).
  apply Permutation_length, NoDup_Permutation.
  - assert (Hc : NoDup (cells <$> J)).
    { eapply sublist_NoDup; [apply (NoDup_unique_by cells)|].
      apply fmap_sublist, sublist_filter. }
    apply NoDup_fmap_1 in Hc as HJ.
    apply NoDup_fmap_2_strong; [|done].
    intros r1 r2 [[_ H1] Hr1]%list_elem_of_filter [[_ H2] Hr2]%list_elem_of_filter.
    apply elem_of_joined_rows in Hr1 as (u1 & p1 & q1 & -> & _).
    apply elem_of_joined_rows in Hr2 as (u2 & p2 & q2 & -> & _).
    unfold key_at, cell in *. cbn in *. intros ->. by simplify_eq.
  - apply NoDup_filter, NoDup_unique_by_id.
  - intros u. unfold J, U, units.
    rewrite list_elem_of_fmap, list_elem_of_filter, elem_of_unique_by_id.
    rewrite list_elem_of_filter, list_elem_of_fmap. split.
    + intros (r & -> & [[Hna Hk] Hr]%list_elem_of_filter).
      apply elem_of_joined_rows in Hr as (u' & p' & q' & -> & Hp & Hq).
      unfold key_at, cell in *. cbn in *. simplify_eq.
      split; [done|]. split; [done|].
      unfold touches in Hp. apply Exists_exists in Hp as (x & Hx & <- & _).
      by exists x.
    + intros ([Hp Hq] & Hna & _).
      assert (Hc : [u; p; q] ∈ cells <$> joined_rows log by_ on).
      { apply joined_rows_cells. by exists u, p, q. }
      apply list_elem_of_fmap in Hc as (r & Hc & Hr). exists r.
      unfold cell. rewrite <-Hc. split; [done|].
      apply list_elem_of_filter. split; [|done].
      unfold key_at, cell. rewrite <-Hc. done.
Qed.

End co_changes_meaning.

(** *** Quotients of rationals *)

Local Open Scope Qc_scope.

Lemma Qcdiv_nonneg (a b : Qc) : 0 ≤ a → 0 < b → 0 ≤ a / b.
Proof.
  intros Ha Hb. apply Qcmult_nonneg_nonneg; [done|].
  by apply Qclt_le_weak, Qcinv_pos.
Qed.

Lemma Qcdiv_pos (a b : Qc) : 0 < a → 0 < b → 0 < a / b.
Proof. intros Ha Hb. apply Qcmult_pos_pos; [done|]. by apply Qcinv_pos. Qed.

Lemma Qcdiv_le_1 (a b : Qc) : 0 < b → a ≤ b → a / b ≤ 1.
Proof.
  intros Hb Hab. apply (Qcmult_le_mono_pos_r _ _ b Hb).
  rewrite Qcmult_1_l, Qcmult_comm, Qcmult_div_r; [done|].
  intros ->. by apply (Qclt_not_eq 0 0).
Qed.

Lemma Qcdiv_diag (a : Qc) : a ≠ 0 → a / a = 1.
Proof. intros Ha. by apply Qcmult_inv_r. Qed.

Local Close Scope Qc_scope.

Lemma eq_values_spec a b : notna a → notna b → eq_values a b ↔ a = b.
Proof.
  intros Ha Hb. unfold eq_values.
  destruct (notna a), (notna b); try done. cbn. apply bool_decide_spec.
Qed.

Lemma drop_locs_first (a b c : value) : drop_locs [0%nat] [a; b; c] = [b; c].
Proof. reflexivity. Qed.

Section co_changes_rows.
Context (log : DataFrame) (by_ on : string).

Local Abbreviation touches' := (touches log by_ on).
Local Abbreviation cochanges' := (cochanges log by_ on).

Lemma elem_of_result_rows r :
  r ∈ result_rows log by_ on ↔
  ∃ p q, p ≠ q ∧ notna p ∧ notna q ∧ (∃ u, touches' u p ∧ touches' u q)
         ∧ r = ([], [p; VInt (cochanges' p p); q; VInt (cochanges' p q)]).
Proof.
  unfold result_rows, counted_rows. rewrite list_elem_of_bind. split.
  - intros (l & Hr & Hl). apply list_elem_of_bind in Hr as (r' & Hr & Hr').
    apply list_elem_of_singleton in Hr as ->.
    apply list_elem_of_fmap in Hl as (l' & -> & [Heq Hl']%list_elem_of_filter).
    apply list_elem_of_filter in Hr' as [Hkey [Hneq Hr']%list_elem_of_filter].
    apply list_elem_of_fmap in Hl' as (k1 & -> & Hk1).
    apply list_elem_of_fmap in Hr' as (k2 & -> & Hk2).
    apply elem_of_pair_keys in Hk1 as (u1 & p1 & q1 & -> & Hn1 & Hn1' & Hp1 & Hq1).
    apply elem_of_pair_keys in Hk2 as (u2 & p2 & q2 & -> & Hn2 & Hn2' & Hp2 & Hq2).
    cbn [labels cells fst snd app] in *. rewrite drop_locs_first.
    unfold key_at, cell in *. cbn in Heq, Hneq, Hkey.
    rewrite !shared_cochanges.
    apply eq_values_spec in Heq as <-; [|done..].
    injection Hkey as ->.
    apply negb_prop_elim in Hneq. rewrite eq_values_spec in Hneq by done.
    exists p1, q2. repeat split; try done. by exists u2.
  - intros (p & q & Hne & Hnp & Hnq & (u & Hp & Hq) & ->).
    assert (Hpp : [p; p] ∈ pair_keys log by_ on).
    { apply elem_of_pair_keys. by exists u, p, p. }
    assert (Hpq : [p; q] ∈ pair_keys log by_ on).
    { apply elem_of_pair_keys. by exists u, p, q. }
    exists ([], [p; VInt (shared log by_ on [p; p])]). split.
    + apply list_elem_of_bind.
      exists ([], [p; q; VInt (shared log by_ on [p; q])]). split.
      * rewrite !shared_cochanges. apply list_elem_of_singleton. done.
      * apply list_elem_of_filter. split; [done|].
        apply list_elem_of_filter. split.
        -- unfold cell. cbn. apply negb_prop_intro.
           by rewrite eq_values_spec.
        -- apply list_elem_of_fmap. by exists [p; q].
    + apply list_elem_of_fmap.
      exists ([], [p; p; VInt (shared log by_ on [p; p])]). split; [done|].
      apply list_elem_of_filter. split.
      * unfold cell. cbn. by apply eq_values_spec.
      * apply list_elem_of_fmap. by exists [p; p].
Qed.

End co_changes_rows.

Lemma length_filter_mono {A} (P Q : A → Prop) `{∀ x, Decision (P x)}
    `{∀ x, Decision (Q x)} (l : list A) :
  (∀ x, P x → Q x) → (length (filter P l) ≤ length (filter Q l))%nat.
Proof.
  intros HPQ. induction l as [|x l IH]; [done|].
  rewrite !filter_cons.
  destruct (decide (P x)) as [HP|HP], (decide (Q x)) as [HQ|HQ]; cbn; try lia.
  destruct HQ. by apply HPQ.
Qed.

Lemma cochanges_comm log by_ on p q :
  cochanges log by_ on p q = cochanges log by_ on q p.
Proof.
  unfold cochanges. do 2 f_equal. apply list_filter_iff. intros u. tauto.
Qed.

Lemma cochanges_le log by_ on p q :
  (cochanges log by_ on p q ≤ cochanges log by_ on p p)%Z.
Proof.
  unfold cochanges. apply inj_le, length_filter_mono. intros u. tauto.
Qed.

Lemma cochanges_pos log by_ on p q u :
  notna u → touches log by_ on u p → touches log by_ on u q →
  (0 < cochanges log by_ on p q)%Z.
Proof.
  intros Hna Hp Hq. unfold cochanges.
  assert (Hin : u ∈ filter (λ u, touches log by_ on u p ∧ touches log by_ on u q)
                      (units log on)).
  { apply list_elem_of_filter. split; [done|]. unfold units.
    apply elem_of_unique_by_id, list_elem_of_filter. split; [done|].
    unfold touches in Hp. apply Exists_exists in Hp as (x & Hx & <- & _).
    apply list_elem_of_fmap. by exists x. }
  destruct (filter _ _); [by apply elem_of_nil in Hin | cbn; lia].
Qed.

Lemma touches_unit log by_ on u p :
  touches log by_ on u p → ∃ x, x ∈ rows log ∧ at_ log on x = u.
Proof. intros (x & Hx & <- & _)%Exists_exists. by exists x. Qed.

Lemma ratio_ints n m :
  (0 < m)%Z →
  ratio (VInt n) (VInt m) = VFloat (Fin (Qc_of_Z n / Qc_of_Z m)).
Proof.
  intros Hm. unfold ratio, number, fdiv. rewrite decide_False; [done|].
  unfold Qc0. rewrite <-Z2Qc_inj_0. intros ?%Z2Qc_inj. lia.
Qed.

Lemma co_changes_rows log b o out :
  b ≠ o → o ∉ ["primary"; "secondary"; b +:+ "_x"; b +:+ "_y"] →
  co_changes log (Some b) (Some o) = Ok out →
  columns out = ["primary"; "secondary"; o +:+ "_cochanges"; o +:+ "_changes";
                 "coupling"]
  ∧ ∀ r, r ∈ rows out ↔
      ∃ p q, p ≠ q ∧ notna p ∧ notna q
             ∧ (∃ u, touches log b o u p ∧ touches log b o u q)
             ∧ r = ([], [p; q; VInt (cochanges log b o p q);
                         VInt (cochanges log b o p p);
                         ratio (VInt (cochanges log b o p q))
                               (VInt (cochanges log b o p p))]).
Proof.
  intros Hne Hon H.
  assert (Hcols : [o; b] ⊆ columns log).
  { unfold co_changes in H. apply bind_Ok in H as (sel & Hsel & _).
    by apply getitem_Ok in Hsel. }
  rewrite !not_elem_of_cons in Hon. destruct Hon as (H1 & H2 & H3 & H4 & _).
  rewrite co_changes_eval in H by done. injection H as <-.
  split; [done|]. intros r. cbn [rows].
  rewrite merge_sort_Permutation, list_elem_of_fmap. split.
  - intros (r' & -> & Hr'). apply elem_of_result_rows in Hr'
      as (p & q & Hpq & Hp & Hq & Hu & ->).
    by exists p, q.
  - intros (p & q & Hpq & Hp & Hq & Hu & ->).
    exists ([], [p; VInt (cochanges log b o p p); q; VInt (cochanges log b o p q)]).
    split; [done|]. apply elem_of_result_rows. by exists p, q.
Qed.

(** C2, as the code has it.  For a log whose grouping column has no missing
    value, every row of
    the co-change table holds a primary and a secondary path, the number of
    units that touch both, the number of units that touch the primary, and
    their quotient, the coupling, which is above 0 and at most 1. *)
Theorem co_changes_coupling_range log by_ on out :
  let b := default "path" by_ in
  let o := default "revision" on in
  b ≠ o → o ∉ ["primary"; "secondary"; b +:+ "_x"; b +:+ "_y"] →
  (∀ x, x ∈ rows log → notna (at_ log o x)) →
  co_changes log by_ on = Ok out →
  ∀ r, r ∈ rows out →
    ∃ p q c,
      r = ([], [p; q; VInt (cochanges log b o p q); VInt (cochanges log b o p p);
                VFloat (Fin c)])
      ∧ c = (Qc_of_Z (cochanges log b o p q) / Qc_of_Z (cochanges log b o p p))%Qc
      ∧ (0 < c)%Qc ∧ (c ≤ 1)%Qc.
Proof.
  intros b o Hne Hon Hfull H r Hr.
  change (co_changes log (Some b) (Some o) = Ok out) in H.
  apply co_changes_rows in H as [_ Hrows]; [|done..].
  apply Hrows in Hr as (p & q & Hpq & Hp & Hq & (u & Hup & Huq) & ->).
  assert (Hu : notna u).
  { apply touches_unit in Hup as (x & Hx & <-). by apply Hfull. }
  pose proof (cochanges_pos _ _ _ _ _ _ Hu Hup Huq) as Hpos.
  pose proof (cochanges_le log b o p q) as Hle.
  exists p, q, (Qc_of_Z (cochanges log b o p q) / Qc_of_Z (cochanges log b o p p))%Qc.
  rewrite ratio_ints by lia. split; [done|]. split; [done|].
  assert (0 < Qc_of_Z (cochanges log b o p q))%Qc
    by (rewrite <-Z2Qc_inj_0; apply (proj1 (Z2Qc_inj_lt _ _)); lia).
  assert (0 < Qc_of_Z (cochanges log b o p p))%Qc
    by (rewrite <-Z2Qc_inj_0; apply (proj1 (Z2Qc_inj_lt _ _)); lia).
  split; [by apply Qcdiv_pos|]. apply Qcdiv_le_1; [done|].
  by apply (proj1 (Z2Qc_inj_le _ _)).
Qed.

(** C3. In the co-change table the row of the pair (A, B) and the row of the
    pair (B, A) come together and hold the same count of shared units; their
    couplings may differ, as they do in the repository of the tests, where
    the two rows have the couplings 1 and 1/2. *)
Theorem co_changes_counts_symmetric log by_ on out :
  let b := default "path" by_ in
  let o := default "revision" on in
  b ≠ o → o ∉ ["primary"; "secondary"; b +:+ "_x"; b +:+ "_y"] →
  co_changes log by_ on = Ok out →
  (∀ A B n m c, ([], [A; B; n; m; c]) ∈ rows out →
     ∃ m' c', ([], [B; A; n; m'; c']) ∈ rows out)
  ∧ (∀ A B n m c n' m' c',
       ([], [A; B; n; m; c]) ∈ rows out → ([], [B; A; n'; m'; c']) ∈ rows out →
       n = n')
  ∧ co_changes Fixture.log None None
    = Ok (mkDF [] ["primary"; "secondary"; "revision_cochanges";
                   "revision_changes"; "coupling"]
            [([], [VStr "requirements.txt"; VStr "stats.py"; VInt 1; VInt 1;
                   Fixture.q 1 1]);
             ([], [VStr "stats.py"; VStr "requirements.txt"; VInt 1; VInt 2;
                   Fixture.q 1 2])]).
Proof.
  intros b o Hne Hon H.
  change (co_changes log (Some b) (Some o) = Ok out) in H.
  apply co_changes_rows in H as [_ Hrows]; [|done..].
  split; [|split].
  - intros A B n m c (p & q & Hpq & Hp & Hq & (u & Hup & Huq) & [= -> -> -> -> ->])%Hrows.
    eexists _, _. apply Hrows. exists q, p.
    split; [by apply not_eq_sym|]. split; [done|]. split; [done|].
    split; [by exists u|]. rewrite (cochanges_comm _ _ _ p q). reflexivity.
  - intros A B n m c n' m' c'
      (p & q & _ & _ & _ & _ & [= -> -> -> -> ->])%Hrows
      (p' & q' & _ & _ & _ & _ & [= -> -> -> -> ->])%Hrows.
    by rewrite cochanges_comm.
  - apply (bool_decide_unpack _). vm_compute. exact I.
Qed.

(** * hot_spots *)

(** *** The order of float64 *)

Lemma float_leb_refl a : a ≠ NaN → float_leb a a = true.
Proof.
  destruct a as [q| | |]; cbn; try done. intros _.
  by apply bool_decide_eq_true_2.
Qed.

Lemma float_leb_trans a b c :
  float_leb a b = true → float_leb b c = true → float_leb a c = true.
Proof.
  destruct a as [x| | |], b as [y| | |], c as [z| | |]; cbn; try done.
  rewrite !bool_decide_eq_true. apply Qcle_trans.
Qed.

Lemma float_ltb_leb a b : float_ltb a b = true → float_leb a b = true.
Proof.
  destruct a as [x| | |], b as [y| | |]; cbn; try done.
  rewrite !bool_decide_eq_true. apply Qclt_le_weak.
Qed.

Lemma float_ltb_false a b :
  a ≠ NaN → b ≠ NaN → float_ltb a b = false → float_leb b a = true.
Proof.
  destruct a as [x| | |], b as [y| | |]; cbn; try done.
  rewrite bool_decide_eq_false, bool_decide_eq_true. intros _ _.
  apply Qcnot_lt_le.
Qed.

Lemma float_leb_antisym a b :
  float_leb a b = true → float_leb b a = true → a = b.
Proof.
  destruct a as [x| | |], b as [y| | |]; cbn; try done.
  rewrite !bool_decide_eq_true. intros H1 H2. f_equal. by apply Qcle_antisym.
Qed.

(** *** The skipna minimum and maximum of a column *)

Lemma fmin_spec (l : list float64) :
  Forall (λ y, y ≠ NaN) l → l ≠ [] →
  foldr fmin NaN l ∈ l ∧ ∀ y, y ∈ l → float_leb (foldr fmin NaN l) y = true.
Proof.
  induction 1 as [|x l Hx Hl IH]; intros Hne; [done|]. cbn [foldr].
  destruct l as [|x' l'].
  - cbn. assert (fmin x NaN = x) as -> by by destruct x.
    split; [left|]. intros y ->%list_elem_of_singleton. by apply float_leb_refl.
  - destruct IH as [Hin Hle]; [done|]. set (m := foldr fmin NaN (x' :: l')) in *.
    assert (Hm : m ≠ NaN).
    { rewrite Forall_forall in Hl. by apply Hl. }
    assert (Hfm : fmin x m = if float_ltb m x then m else x).
    { by destruct x, m. }
    rewrite Hfm. destruct (float_ltb m x) eqn:E.
    + split; [by right|]. intros y [->|Hy]%elem_of_cons; [|by apply Hle].
      by apply float_ltb_leb.
    + split; [left|]. intros y [->|Hy]%elem_of_cons; [by apply float_leb_refl|].
      eapply float_leb_trans; [|by apply Hle]. by apply float_ltb_false.
Qed.

(** The maximum skips the NaN of the column it is taken from. *)
Lemma fmax_spec (l : list float64) :
  (foldr fmax NaN l = NaN ∧ Forall (λ y, y = NaN) l)
  ∨ (foldr fmax NaN l ≠ NaN ∧ foldr fmax NaN l ∈ l
     ∧ ∀ y, y ∈ l → y ≠ NaN → float_leb y (foldr fmax NaN l) = true).
Proof.
  induction l as [|x l IH]; [left; by split|]. cbn [foldr].
  set (m := foldr fmax NaN l) in *.
  destruct (decide (x = NaN)) as [->|Hx].
  - assert (fmax NaN m = m) as -> by done.
    destruct IH as [[Hm Hall]|(Hm & Hin & Hle)].
    + left. split; [done|]. by constructor.
    + right. split; [done|]. split; [by right|].
      intros y [->|Hy]%elem_of_cons Hy'; [done|]. by apply Hle.
  - right. destruct IH as [[Hm Hall]|(Hm & Hin & Hle)].
    + rewrite Hm. assert (fmax x NaN = x) as -> by by destruct x.
      split; [done|]. split; [left|].
      intros y [->|Hy]%elem_of_cons Hy'; [by apply float_leb_refl|].
      rewrite Forall_forall in Hall. by apply Hall in Hy.
    + assert (Hfm : fmax x m = if float_ltb x m then m else x).
      { by destruct x, m. }
      rewrite Hfm. destruct (float_ltb x m) eqn:E.
      * split; [done|]. split; [by right|].
        intros y [->|Hy]%elem_of_cons Hy'; [by apply float_ltb_leb|].
        by apply Hle.
      * split; [done|]. split; [left|].
        intros y [->|Hy]%elem_of_cons Hy'; [by apply float_leb_refl|].
        eapply float_leb_trans; [by apply Hle|]. by apply float_ltb_false.
Qed.

(** *** Min-max scaling *)

Local Open Scope Qc_scope.

Lemma fsub_shifted lo y :
  lo ≠ NaN → y ≠ NaN → float_leb lo y = true → shifted (fsub y lo).
Proof.
  unfold shifted.
  destruct lo as [a| | |], y as [b| | |]; cbn; intros Hlo Hy Hle; try done;
    try (by left); try (by right; left).
  right. right. eexists. split; [done|].
  apply bool_decide_eq_true in Hle. unfold Qcminus.
  by apply (proj1 (Qcle_minus_iff a b)).
Qed.

Lemma Qcsquare_bounds (q : Qc) : 0 ≤ q → q ≤ 1 → 0 ≤ q * q ∧ q * q ≤ 1.
Proof.
  intros H0 H1. split; [by apply Qcmult_nonneg_nonneg|].
  eapply Qcle_trans; [by apply Qcmult_le_mono_nonneg_l|].
  by rewrite Qcmult_1_r.
Qed.

Lemma normalized_bounds s hi :
  shifted s →
  hi = NaN ∨ (shifted hi ∧ (s ≠ NaN → float_leb s hi = true)) →
  ∃ q, fsquare (fill0 (fdiv s hi)) = Fin q ∧ 0 ≤ q ∧ q ≤ 1.
Proof.
  assert (Hzero : ∃ q, Fin (Qc0 * Qc0) = Fin q ∧ 0 ≤ q ∧ q ≤ 1).
  { eexists. split; [done|]. unfold Qc0. by rewrite Qcmult_0_l. }
  intros [->|[->|(a & -> & Ha)]] [->|[Hhi Hle]]; cbn; try done.
  - specialize (Hle ltac:(done)).
    destruct Hhi as [->|[->|(b & -> & Hb)]]; done.
  - specialize (Hle ltac:(done)).
    destruct Hhi as [->|[->|(b & -> & Hb)]]; cbn in *; try done.
    apply bool_decide_eq_true in Hle.
    destruct (decide (b = Qc0)) as [->|Hb0].
    + destruct (decide (a = Qc0)) as [->|Ha0]; [done|].
      destruct Ha0. by apply Qcle_antisym.
    + cbn. eexists. split; [done|].
      assert (Hbpos : 0 < b).
      { destruct (Qcle_lt_or_eq _ _ Hb) as [?|Heq]; [done|]. by destruct Hb0. }
      apply Qcsquare_bounds; [by apply Qcdiv_nonneg | by apply Qcdiv_le_1].
Qed.

Section scaling.
Context (col : list float64) (x : float64).
Context (Hcol : Forall (λ y, y ≠ NaN) col) (Hx : x ∈ col).

Let lo := foldr fmin NaN col.
Let hi := foldr fmax NaN ((λ y, fsub y lo) <$> col).

Lemma minimum_in_column : lo ∈ col ∧ lo ≠ NaN ∧ ∀ y, y ∈ col → float_leb lo y = true.
Proof.
  destruct (fmin_spec col Hcol) as [Hin Hle].
  { intros ->. by apply elem_of_nil in Hx. }
  split; [done|]. split; [|done]. rewrite Forall_forall in Hcol. by apply Hcol.
Qed.

Lemma shifted_column y : y ∈ col → shifted (fsub y lo).
Proof.
  intros Hy. destruct minimum_in_column as (_ & Hlo & Hle).
  apply fsub_shifted; [done | | by apply Hle].
  rewrite Forall_forall in Hcol. by apply Hcol.
Qed.

Lemma scale_bounds : ∃ q, scale col x = Fin q ∧ 0 ≤ q ∧ q ≤ 1.
Proof.
  unfold scale. fold lo. fold hi. apply normalized_bounds.
  - by apply shifted_column.
  - destruct (fmax_spec ((λ y, fsub y lo) <$> col)) as [[Hn _]|(Hn & Hin & Hle)].
    + by left.
    + right. fold hi in Hn, Hin, Hle. split.
      * apply list_elem_of_fmap in Hin as (y & -> & Hy). by apply shifted_column.
      * intros Hs. apply Hle; [|done]. apply list_elem_of_fmap. by exists x.
Qed.

Lemma scale_minimum :
  (∀ y, y ∈ col → float_leb x y = true) → scale col x = Fin 0.
Proof.
  intros Hmin. destruct minimum_in_column as (Hin & Hlo & Hle).
  assert (x = lo) as Hxlo.
  { apply float_leb_antisym; [by apply Hmin | by apply Hle]. }
  unfold scale. fold lo. fold hi. rewrite Hxlo.
  assert (Hs : fsub lo lo = NaN ∨ fsub lo lo = Fin 0).
  { destruct lo; cbn; try (by left); try done. right. f_equal.
    apply Qcplus_opp_r. }
  destruct Hs as [->| ->]; [done|].
  assert (H00 : Fin (Qc0 * Qc0) = Fin 0) by (unfold Qc0; by rewrite Qcmult_0_l).
  destruct hi as [b| | |]; cbn; try done.
  change (Q2Qc 0) with Qc0.
  destruct (decide (b = Qc0)); cbn.
  - by rewrite decide_True by done.
  - done.
Qed.

Lemma scale_maximum :
  Forall (λ y, ∃ q, y = Fin q) col →
  (∀ y, y ∈ col → float_leb y x = true) →
  (∃ y, y ∈ col ∧ y ≠ x) →
  scale col x = Fin 1.
Proof.
  intros Hfin Hmax (y0 & Hy0 & Hne).
  destruct minimum_in_column as (Hin & Hlo & Hle).
  rewrite Forall_forall in Hfin.
  destruct (Hfin _ Hx) as [b ->]. destruct (Hfin _ Hin) as [a Ha].
  assert (Hab : a < b).
  { apply Qcnot_le_lt. intros Hba. apply Hne.
    assert (Fin b = lo) as Hbl.
    { apply float_leb_antisym; [|by apply Hle]. rewrite Ha. cbn.
      by apply bool_decide_eq_true. }
    apply float_leb_antisym; [by apply Hmax|]. rewrite Hbl. by apply Hle. }
  assert (Hpos : 0 < b - a).
  { unfold Qcminus. by apply (proj1 (Qclt_minus_iff a b)). }
  assert (Hhi : hi = Fin (b - a)).
  { destruct (fmax_spec ((λ y, fsub y lo) <$> col)) as [[_ Hall]|(Hn & Hhin & Hhle)].
    - rewrite Forall_forall in Hall.
      assert (fsub (Fin b) lo = NaN) as Hn.
      { apply Hall, list_elem_of_fmap. by exists (Fin b). }
      by rewrite Ha in Hn.
    - fold hi in Hn, Hhin, Hhle. apply float_leb_antisym.
      + apply list_elem_of_fmap in Hhin as (y & -> & Hy).
        destruct (Hfin _ Hy) as [c ->]. rewrite Ha. cbn.
        apply bool_decide_eq_true. specialize (Hmax _ Hy). cbn in Hmax.
        apply bool_decide_eq_true in Hmax.
        unfold Qcminus. by apply (proj1 (Qcplus_le_mono_r c b (-a))).
      + apply Hhle; [|done]. apply list_elem_of_fmap. exists (Fin b).
        by rewrite Ha. }
  unfold scale. fold lo. fold hi. rewrite Hhi, Ha. cbn.
  assert (Hnz : b - a ≠ Qc0).
  { intros E. rewrite E in Hpos. by apply (Qclt_not_eq 0 0). }
  rewrite decide_False by done. cbn.
  rewrite Qcdiv_diag by done. by rewrite Qcmult_1_l.
Qed.

End scaling.

Local Close Scope Qc_scope.

(** *** Cells of a row that is rewritten cell by cell *)

Lemma cell_fmap (f : value → value) lbl (cs : list value) i :
  (i < length cs)%nat → cell (lbl, f <$> cs) i = f (cell (lbl, cs) i).
Proof.
  intros [c Hc]%lookup_lt_is_Some_2. unfold cell. cbn [cells snd].
  by rewrite list_lookup_fmap, Hc.
Qed.

Lemma cell_imap (g : nat → value → value) lbl (cs : list value) i :
  (i < length cs)%nat → cell (lbl, imap g cs) i = g i (cell (lbl, cs) i).
Proof.
  intros [c Hc]%lookup_lt_is_Some_2. unfold cell. cbn [cells snd].
  by rewrite list_lookup_imap, Hc.
Qed.

Lemma traverse_Ok_fmap {A B C} (f : A → result B) (h : B → C) (g : A → C) l l' :
  (∀ x y, f x = Ok y → h y = g x) → traverse f l = Ok l' → h <$> l' = g <$> l.
Proof.
  intros Hfg. rewrite traverse_Ok.
  induction 1 as [|x y l l' Hxy _ IH]; [done|].
  cbn [fmap list_fmap] in *. by rewrite IH, (Hfg _ _ Hxy).
Qed.

(** *** compute_score *)

Section compute_score.
Context (strtod : string → option float64).

Lemma fill_to_float v v' :
  to_float strtod v = Ok v' →
  fill (VFloat (Fin Qc0)) v' = VFloat (measure strtod v).
Proof.
  intros H. unfold measure. rewrite H.
  assert (∃ f, v' = VFloat f) as [f ->]; [|by destruct f].
  destruct v as [s| | | | |]; cbn in H; try (injection H as <-; by eexists); try done.
  destruct (strtod s); [injection H as <-; by eexists | done].
Qed.

Lemma astype_fillna df df' :
  astype_float strtod df = Ok df' →
  fillna (VFloat (Fin Qc0)) df' = map_cells (λ v, VFloat (measure strtod v)) df.
Proof.
  unfold astype_float. intros H. inv_bind H. injection H as <-.
  unfold fillna, map_cells. cbn [index_names columns rows]. f_equal.
  eapply traverse_Ok_fmap; [|done]. intros r r' Hr. cbn beta in Hr.
  inv_bind Hr. injection Hr as <-. cbn [labels cells fst snd]. f_equal.
  eapply traverse_Ok_fmap; [|done]. apply fill_to_float.
Qed.

Lemma astype_float_measure df df' r c :
  astype_float strtod df = Ok df' → r ∈ rows df → c ∈ cells r →
  measure strtod c ≠ NaN.
Proof.
  unfold astype_float. intros H Hr Hc. inv_bind H. clear H.
  apply traverse_Ok in Ha. apply list_elem_of_lookup in Hr as [i Hi].
  destruct (Forall2_lookup_l _ _ _ _ _ Ha Hi) as (r' & _ & Hr').
  cbn beta in Hr'. inv_bind Hr'. clear Hr'. apply traverse_Ok in Ha0.
  apply list_elem_of_lookup in Hc as [j Hj].
  destruct (Forall2_lookup_l _ _ _ _ _ Ha0 Hj) as (c' & _ & Hc').
  unfold measure. rewrite Hc'. by destruct (as_float c').
Qed.

Lemma reduce_columns_lookup f df i :
  (i < length (columns df))%nat →
  reduce_columns f df !! i = Some (foldr f NaN (as_float <$> column_at i df)).
Proof.
  intros Hi. unfold reduce_columns.
  by rewrite list_lookup_fmap, lookup_seq_lt.
Qed.

(** The scores of a column: every value of the column, scaled. *)
Lemma compute_score_column input out i :
  rectangular input → compute_score strtod input = Ok out →
  (i < length (columns input))%nat →
  column_at i out =
  (λ r, VFloat (scale ((λ r, measure strtod (cell r i)) <$> rows input)
                      (measure strtod (cell r i)))) <$> rows input.
Proof.
  intros Hrect H Hi. unfold compute_score in H. inv_bind H. injection H as <-.
  rewrite (astype_fillna _ _ Ha).
  set (xs := (λ r, measure strtod (cell r i)) <$> rows input).
  set (d2 := map_cells (λ v, VFloat (measure strtod v)) input).
  set (d3 := broadcast fsub d2 (min_axis0 d2)).
  unfold rectangular in Hrect. rewrite Forall_forall in Hrect.
  assert (Hlen : ∀ r, r ∈ rows input → (i < length r.2)%nat).
  { intros r Hr. specialize (Hrect r Hr). unfold cells in Hrect. lia. }
  assert (Hc2 : as_float <$> column_at i d2 = xs).
  { unfold column_at, d2, map_cells, xs. cbn [rows].
    rewrite <-!list_fmap_compose. apply list_fmap_ext_in. intros [lbl cs] Hr.
    cbn [compose labels cells fst snd]. rewrite cell_fmap by apply (Hlen _ Hr). done. }
  remember (min_axis0 d2) as mins eqn:Emins.
  assert (Hmin : mins !! i = Some (foldr fmin NaN xs)).
  { subst mins. unfold min_axis0. rewrite reduce_columns_lookup by done.
    by rewrite Hc2. }
  assert (Hc3 : as_float <$> column_at i d3
                = (λ y, fsub y (foldr fmin NaN xs)) <$> xs).
  { unfold column_at, d3, d2, broadcast, map_cells, xs. cbn [rows].
    rewrite <-!list_fmap_compose. apply list_fmap_ext_in. intros [lbl cs] Hr.
    cbn [compose labels cells fst snd].
    rewrite cell_imap by (rewrite length_fmap; apply (Hlen _ Hr)).
    rewrite cell_fmap by apply (Hlen _ Hr).
    by rewrite Hmin. }
  remember (max_axis0 d3) as maxs eqn:Emaxs.
  assert (Hmax : maxs !! i
                 = Some (foldr fmax NaN ((λ y, fsub y (foldr fmin NaN xs)) <$> xs))).
  { subst maxs. unfold max_axis0. rewrite reduce_columns_lookup by done.
    by rewrite Hc3. }
  clear Emins Emaxs Hc2 Hc3.
  unfold column_at, pow2, fillna, map_cells, d3, broadcast, d2, map_cells.
  cbn [rows]. rewrite <-!list_fmap_compose.
  apply list_fmap_ext_in. intros [lbl cs] Hr.
  cbn [compose labels cells fst snd].
  rewrite cell_fmap by (rewrite length_fmap, !length_imap, length_fmap; apply (Hlen _ Hr)).
  rewrite cell_fmap by (rewrite !length_imap, length_fmap; apply (Hlen _ Hr)).
  rewrite cell_imap by (rewrite !length_imap, length_fmap; apply (Hlen _ Hr)).
  rewrite cell_imap by (rewrite length_fmap; apply (Hlen _ Hr)).
  rewrite cell_fmap by apply (Hlen _ Hr).
  rewrite Hmin, Hmax. cbn [as_float default].
  unfold scale. fold xs.
  set (z := fdiv _ _). by destruct z.
Qed.

End compute_score.

(** *** Assignment of a column in a rectangular table *)

Lemma get_loc_inj c c' cols i :
  get_loc c cols = Some i → get_loc c' cols = Some i → c = c'.
Proof. intros H1%get_loc_Some H2%get_loc_Some. congruence. Qed.

Lemma setitem_spec c vals df df' :
  rectangular df → setitem c vals df = Ok df' →
  rectangular df' ∧ length (rows df') = length (rows df) ∧
  ∀ i r', rows df' !! i = Some r' →
    ∃ r v, rows df !! i = Some r ∧ vals !! i = Some v ∧
      at_ df' c r' = v ∧ ∀ c', c' ≠ c → at_ df' c' r' = at_ df c' r.
Proof.
  unfold rectangular, setitem. rewrite !Forall_lookup. intros Hrect H.
  case_decide as Hlen; [|done].
  destruct (get_loc c (columns df)) as [j|] eqn:Hj; injection H as <-;
    cbn [rows columns]; (split; [|split]).
  - intros i r' (r & v & -> & Hr & Hv)%lookup_zip_with_Some.
    cbn [cells snd]. rewrite length_insert. by eapply Hrect.
  - by rewrite length_zip_with_l_eq.
  - intros i r' (r & v & -> & Hr & Hv)%lookup_zip_with_Some.
    exists r, v. split; [done|]. split; [done|].
    pose proof (Hrect _ _ Hr) as Hl. pose proof (get_loc_lt _ _ _ Hj) as Hjl.
    unfold at_. cbn [columns]. rewrite Hj. split.
    + unfold cell. cbn [cells snd].
      rewrite list_lookup_insert_eq; [done|]. lia.
    + intros c' Hc'. destruct (get_loc c' (columns df)) as [j'|] eqn:Hj'; [|done].
      unfold cell. cbn [cells snd]. rewrite list_lookup_insert_ne; [done|].
      intros <-. apply Hc'. by eapply get_loc_inj.
  - intros i r' (r & v & -> & Hr & Hv)%lookup_zip_with_Some.
    cbn [cells snd]. rewrite !length_app. cbn. f_equal. by eapply Hrect.
  - by rewrite length_zip_with_l_eq.
  - intros i r' (r & v & -> & Hr & Hv)%lookup_zip_with_Some.
    exists r, v. split; [done|]. split; [done|].
    pose proof (Hrect _ _ Hr) as Hl. apply get_loc_None in Hj.
    unfold at_. cbn [columns]. split.
    + rewrite get_loc_last by done. unfold cell. cbn [cells snd].
      by rewrite <-Hl, lookup_last.
    + intros c' Hc'. rewrite get_loc_app.
      destruct (get_loc c' (columns df)) as [j'|] eqn:Hj'.
      * pose proof (get_loc_lt _ _ _ Hj') as Hjl. unfold cell. cbn [cells snd].
        rewrite lookup_app_l; [done|]. lia.
      * cbn. by rewrite decide_False by (by apply not_eq_sym).
Qed.

(** *** The score columns *)

Lemma getitem_rectangular cs df out : getitem cs df = Ok out → rectangular out.
Proof.
  unfold getitem. intros H. inv_bind H. injection H as <-.
  unfold rectangular. cbn [rows columns]. apply Forall_fmap, Forall_true.
  intros r. cbn. rewrite length_fmap. by eapply locate_all_length.
Qed.

Lemma compute_score_columns strtod input out :
  compute_score strtod input = Ok out → columns out = columns input.
Proof.
  unfold compute_score, astype_float. intros H. inv_bind H.
  injection H as <-. inv_bind Ha. by injection Ha as <-.
Qed.

Section score_columns.
Context (strtod : string → option float64) (m out : DataFrame).
Context (Hrect : rectangular m).
Context (H :
  (let* metrics := getitem ["complexity"; "changes"] m in
   let* scores := compute_score strtod metrics in
   let* df := setitem_frame ["complexity_score"; "changes_score"] scores m in
   let* both := getitem ["complexity_score"; "changes_score"] df in
   let* df := setitem "score" (sum_axis1 both) df in
   Ok df) = Ok out).

Lemma score_columns :
  length (rows out) = length (rows m) ∧
  ∀ i r', rows out !! i = Some r' →
    ∃ r, rows m !! i = Some r ∧
      let s1 := scale (metric strtod m "complexity")
                  (measure strtod (at_ m "complexity" r)) in
      let s2 := scale (metric strtod m "changes")
                  (measure strtod (at_ m "changes" r)) in
      at_ out "complexity_score" r' = VFloat s1 ∧
      at_ out "changes_score" r' = VFloat s2 ∧
      at_ out "score" r' = VFloat (fadd (fill0 s1) (fadd (fill0 s2) (Fin Qc0))) ∧
      ∀ c, c ∉ score_labels → at_ out c r' = at_ m c r.
Proof.
  pose proof H as H'.
  apply bind_Ok in H' as (metrics & Hmet & H').
  apply bind_Ok in H' as (scores & Hsc & H').
  apply bind_Ok in H' as (df1 & Hdf1 & H').
  apply bind_Ok in H' as (both & Hboth & H').
  apply bind_Ok in H' as (df2 & Hdf2 & [= ->]).
  pose proof (getitem_rectangular _ _ _ Hmet) as Hrm.
  pose proof (compute_score_columns _ _ _ Hsc) as Hcols.
  pose proof (getitem_Ok _ _ _ Hmet) as Hsub.
  rewrite (getitem_eval _ _ Hsub) in Hmet. injection Hmet as <-.
  cbn [columns] in Hcols.
  assert (Hc0 : column_at 0 scores =
    (λ r, VFloat (scale (metric strtod m "complexity")
                    (measure strtod (at_ m "complexity" r)))) <$> rows m).
  { rewrite (compute_score_column _ _ _ 0 Hrm Hsc) by (cbn; lia).
    cbn [rows]. by rewrite <-!list_fmap_compose. }
  assert (Hc1 : column_at 1 scores =
    (λ r, VFloat (scale (metric strtod m "changes")
                    (measure strtod (at_ m "changes" r)))) <$> rows m).
  { rewrite (compute_score_column _ _ _ 1 Hrm Hsc) by (cbn; lia).
    cbn [rows]. by rewrite <-!list_fmap_compose. }
  unfold setitem_frame in Hdf1. rewrite decide_True in Hdf1 by by rewrite Hcols.
  cbn [setitem_from] in Hdf1.
  apply bind_Ok in Hdf1 as (df0 & Hdf0 & Hdf1).
  apply bind_Ok in Hdf1 as (df1' & Hdf1 & [= ->]).
  destruct (setitem_spec _ _ _ _ Hrect Hdf0) as (R0 & L0 & S0).
  destruct (setitem_spec _ _ _ _ R0 Hdf1) as (R1 & L1 & S1).
  destruct (setitem_spec _ _ _ _ R1 Hdf2) as (R2 & L2 & S2).
  pose proof (getitem_Ok _ _ _ Hboth) as Hsub'.
  rewrite (getitem_eval _ _ Hsub') in Hboth. injection Hboth as <-.
  split; [congruence|]. intros i r' Hr'.
  destruct (S2 _ _ Hr') as (r1 & v2 & Hr1 & Hv2 & Hat2 & Hoth2).
  destruct (S1 _ _ Hr1) as (r0 & v1 & Hr0 & Hv1 & Hat1 & Hoth1).
  destruct (S0 _ _ Hr0) as (r & v0 & Hr & Hv0 & Hat0 & Hoth0).
  exists r. split; [done|]. cbn zeta.
  rewrite Hc0, list_lookup_fmap, Hr in Hv0. injection Hv0 as <-.
  rewrite Hc1, list_lookup_fmap, Hr in Hv1. injection Hv1 as <-.
  assert (E1 : at_ df1 "complexity_score" r1
               = VFloat (scale (metric strtod m "complexity")
                           (measure strtod (at_ m "complexity" r)))).
  { rewrite Hoth1 by done. done. }
  split; [by rewrite Hoth2 by done|].
  split; [by rewrite Hoth2 by done|].
  split.
  - rewrite Hat2. unfold sum_axis1 in Hv2. cbn [rows] in Hv2.
    rewrite <-list_fmap_compose, list_lookup_fmap, Hr1 in Hv2.
    injection Hv2 as <-. cbn. rewrite E1, Hat1. f_equal.
    set (s1 := scale _ _). set (s2 := scale _ _). by destruct s1, s2.
  - intros c Hc. unfold score_labels in Hc.
    rewrite !not_elem_of_cons in Hc. destruct Hc as (? & ? & ? & _).
    by rewrite Hoth2, Hoth1, Hoth0.
Qed.

Lemma score_columns_defined c :
  c ∈ ["complexity"; "changes"] → Forall (λ y, y ≠ NaN) (metric strtod m c).
Proof.
  intros Hc. pose proof H as H'.
  apply bind_Ok in H' as (metrics & Hmet & H').
  apply bind_Ok in H' as (scores & Hsc & _).
  pose proof (getitem_Ok _ _ _ Hmet) as Hsub.
  rewrite (getitem_eval _ _ Hsub) in Hmet. injection Hmet as <-.
  unfold compute_score in Hsc. apply bind_Ok in Hsc as (a & Ha & _).
  unfold metric. apply Forall_fmap, Forall_forall. intros r Hr. cbn.
  eapply (astype_float_measure _ _ _ (labels r, key_of m ["complexity"; "changes"] r));
    [exact Ha | | ].
  - cbn [rows]. apply list_elem_of_fmap. by exists r.
  - cbn. rewrite !elem_of_cons in Hc. rewrite !elem_of_cons.
    destruct Hc as [->|[->|[]%elem_of_nil]]; auto.
Qed.

End score_columns.

(** *** The merged table *)

Lemma rectangular_fillna v df : rectangular df → rectangular (fillna v df).
Proof.
  unfold rectangular, fillna. cbn [rows columns]. intros Hr.
  apply Forall_fmap. eapply Forall_impl; [exact Hr|].
  intros r. cbn. by rewrite length_fmap.
Qed.

Lemma rectangular_rename m df : rectangular df → rectangular (rename m df).
Proof.
  unfold rectangular, rename. cbn [rows columns]. intros Hr.
  eapply Forall_impl; [exact Hr|]. intros r. cbn. by rewrite length_fmap.
Qed.

Lemma rectangular_to_frame c s : rectangular (to_frame c s).
Proof.
  unfold rectangular, to_frame. cbn [rows columns].
  apply Forall_fmap, Forall_true. by intros r.
Qed.

Lemma merge_outer_rectangular key sfx left right out :
  rectangular left → rectangular right →
  merge_outer_right_index key sfx left right = Ok out → rectangular out.
Proof.
  unfold rectangular, merge_outer_right_index. rewrite !Forall_forall.
  intros Hl Hr H. inv_bind H. injection H as <-. cbn [rows columns].
  intros r. rewrite length_app, !length_fmap.
  rewrite elem_of_app, list_elem_of_bind, list_elem_of_fmap.
  intros [(l & Hin & Hl')|(r0 & -> & [_ Hr0]%list_elem_of_filter)].
  - destruct (filter _ (rows right)) as [|r1 rs] eqn:Hf.
    + apply list_elem_of_singleton in Hin as ->. cbn [cells snd].
      rewrite length_app. unfold missing. rewrite length_replicate.
      by rewrite (Hl _ Hl').
    + change (r ∈ (λ r, (([] : list value), cells l ++ cells r)) <$> (r1 :: rs)) in Hin.
      apply list_elem_of_fmap in Hin as (r0 & -> & Hr0).
      assert (r0 ∈ rows right) as Hr0'.
      { assert (r0 ∈ filter (λ r, right_label r = cell l a) (rows right)) as Hx
          by by rewrite Hf.
        by apply list_elem_of_filter in Hx as [_ ?]. }
      cbn [cells snd]. rewrite length_app. by rewrite (Hl _ Hl'), (Hr _ Hr0').
  - cbn [cells snd]. rewrite length_app, length_insert. unfold missing.
    rewrite length_replicate. by rewrite (Hr _ Hr0).
Qed.

Lemma metric_transfer strtod (m out : DataFrame) c :
  length (rows out) = length (rows m) →
  (∀ i r', rows out !! i = Some r' →
     ∃ r, rows m !! i = Some r ∧ at_ out c r' = at_ m c r) →
  metric strtod out c = metric strtod m c.
Proof.
  intros Hlen Hrows. unfold metric. apply list_eq. intros i.
  rewrite !list_lookup_fmap.
  destruct (rows out !! i) as [r'|] eqn:Hr'.
  - destruct (Hrows _ _ Hr') as (r & Hr & Hat). rewrite Hr. cbn. by rewrite Hat.
  - apply lookup_ge_None in Hr'. rewrite Hlen in Hr'.
    apply lookup_ge_None in Hr'. by rewrite Hr'.
Qed.

Section hot_spots_eval.
Context (strtod : string → option float64) (log loc : DataFrame).
Context (by_ : option string) (count_one_change_per : option (list string)).
Context (out : DataFrame).
Context (Hrect : rectangular loc).
Context (H : hot_spots strtod log loc by_ count_one_change_per = Ok out).

Lemma hot_spots_steps :
  ∃ sel changed m,
    getitem (default ["revision"] count_one_change_per ++ [default "path" by_]) log
      = Ok sel ∧
    getcol (default "path" by_) (drop_duplicates sel) = Ok changed ∧
    merge_outer_right_index (default "path" by_) ("_x", "_y")
      (rename [("code", "complexity")] loc)
      (to_frame "changes" (value_counts changed)) = Ok m ∧
    rectangular (fillna (VFloat (Fin Qc0)) m) ∧
    ["complexity"; "changes"] ⊆ columns m ∧
    length (rows out) = length (rows m) ∧
    Forall (λ y, y ≠ NaN) (metric strtod out "complexity") ∧
    Forall (λ y, y ≠ NaN) (metric strtod out "changes") ∧
    ∀ i r', rows out !! i = Some r' →
      ∃ r, rows (fillna (VFloat (Fin Qc0)) m) !! i = Some r ∧
        let s1 := scale (metric strtod out "complexity")
                    (measure strtod (at_ out "complexity" r')) in
        let s2 := scale (metric strtod out "changes")
                    (measure strtod (at_ out "changes" r')) in
        at_ out "complexity_score" r' = VFloat s1 ∧
        at_ out "changes_score" r' = VFloat s2 ∧
        at_ out "score" r' = VFloat (fadd (fill0 s1) (fadd (fill0 s2) (Fin Qc0))) ∧
        ∀ c, c ∉ score_labels →
          at_ out c r' = at_ (fillna (VFloat (Fin Qc0)) m) c r.
Proof.
  pose proof H as H'. unfold hot_spots in H'. cbn zeta in H'.
  apply bind_Ok in H' as (sel & Hsel & H').
  apply bind_Ok in H' as (changed & Hch & H').
  apply bind_Ok in H' as (m & Hm & H').
  exists sel, changed, m. split; [done|]. split; [done|]. split; [done|].
  assert (Hrm : rectangular (fillna (VFloat (Fin Qc0)) m)).
  { apply rectangular_fillna. eapply merge_outer_rectangular; [| |exact Hm].
    - by apply rectangular_rename.
    - apply rectangular_to_frame. }
  split; [done|].
  split.
  { pose proof H' as H''. apply bind_Ok in H'' as (metrics & Hmet & _).
    by apply getitem_Ok in Hmet. }
  destruct (score_columns strtod _ out Hrm H') as [Hlen Hrows].
  split; [by rewrite Hlen; unfold fillna; cbn; rewrite length_fmap|].
  assert (Hmet : ∀ c, c ∉ score_labels →
            metric strtod out c = metric strtod (fillna (VFloat (Fin Qc0)) m) c).
  { intros c Hc. apply metric_transfer; [done|]. intros i r' Hr'.
    destruct (Hrows _ _ Hr') as (r & Hr & _ & _ & _ & Hoth). exists r.
    split; [done|]. by apply Hoth. }
  assert (Hc1 : "complexity" ∉ score_labels).
  { unfold score_labels. label_facts. }
  assert (Hc2 : "changes" ∉ score_labels).
  { unfold score_labels. label_facts. }
  split.
  { rewrite Hmet by done. apply (score_columns_defined strtod _ out H').
    rewrite !elem_of_cons. auto. }
  split.
  { rewrite Hmet by done. apply (score_columns_defined strtod _ out H').
    rewrite !elem_of_cons. auto. }
  intros i r' Hr'. destruct (Hrows _ _ Hr') as (r & Hr & H1 & H2 & H3 & Hoth).
  exists r. split; [done|]. cbn zeta in *.
  rewrite (Hmet "complexity"), (Hmet "changes") by done.
  rewrite (Hoth "complexity"), (Hoth "changes") by done.
  done.
Qed.

End hot_spots_eval.

(** *** The rows that hold the minimum or the maximum of a column *)

Lemma column_min_lowest col x :
  Forall (λ y, y ≠ NaN) col → x ∈ col → x = column_min col →
  ∀ y, y ∈ col → float_leb x y = true.
Proof.
  intros Hcol Hx -> y Hy. apply fmin_spec; [done | | done].
  intros ->. by apply elem_of_nil in Hx.
Qed.

Lemma column_max_highest col x :
  Forall (λ y, y ≠ NaN) col → x ∈ col → x = column_max col →
  ∀ y, y ∈ col → float_leb y x = true.
Proof.
  intros Hcol Hx -> y Hy. rewrite Forall_forall in Hcol.
  destruct (fmax_spec col) as [[_ Hall]|(_ & _ & Hle)].
  - rewrite Forall_forall in Hall. destruct (Hcol _ Hy). by apply Hall.
  - apply Hle; [done|]. by apply Hcol.
Qed.

Lemma column_min_elem col x :
  Forall (λ y, y ≠ NaN) col → x ∈ col → column_min col ∈ col.
Proof.
  intros Hcol Hx. apply fmin_spec; [done|]. intros ->. by apply elem_of_nil in Hx.
Qed.

Lemma column_max_elem col x :
  Forall (λ y, y ≠ NaN) col → x ∈ col → column_max col ∈ col.
Proof.
  intros Hcol Hx. rewrite Forall_forall in Hcol.
  destruct (fmax_spec col) as [[_ Hall]|(_ & Hin & _)]; [|done].
  rewrite Forall_forall in Hall. destruct (Hcol _ Hx). by apply Hall.
Qed.

Lemma constant_lowest col x :
  Forall (λ y, y ≠ NaN) col → x ∈ col → constant col →
  ∀ y, y ∈ col → float_leb x y = true.
Proof.
  intros Hcol Hx Hc. apply column_min_lowest; [done..|].
  assert (∀ y, y ∈ col → float_leb (column_min col) y = true) as Hlo.
  { apply column_min_lowest; eauto using column_min_elem. }
  apply float_leb_antisym; [|by apply Hlo]. rewrite Hc.
  apply (column_max_highest col (column_max col)); eauto using column_max_elem.
Qed.

(** *** The scores of a row of the result *)

Lemma hot_spots_scores strtod log loc by_ count_one_change_per out r :
  rectangular loc →
  hot_spots strtod log loc by_ count_one_change_per = Ok out →
  r ∈ rows out →
  ∀ c, c ∈ ["complexity"; "changes"] →
    Forall (λ y, y ≠ NaN) (metric strtod out c)
    ∧ measure strtod (at_ out c r) ∈ metric strtod out c
    ∧ at_ out (c +:+ "_score") r
      = VFloat (scale (metric strtod out c) (measure strtod (at_ out c r))).
Proof.
  intros Hrect H Hr c Hc.
  destruct (hot_spots_steps _ _ _ _ _ _ Hrect H)
    as (sel & changed & m & _ & _ & _ & _ & _ & _ & Hn1 & Hn2 & Hrows).
  apply list_elem_of_lookup in Hr as [i Hi].
  destruct (Hrows _ _ Hi) as (r0 & _ & H1 & H2 & _).
  assert (Hin : measure strtod (at_ out c r) ∈ metric strtod out c).
  { unfold metric. apply list_elem_of_fmap. exists r. split; [done|].
    by eapply list_elem_of_lookup_2. }
  rewrite !elem_of_cons in Hc. destruct Hc as [->|[->|[]%elem_of_nil]]; done.
Qed.

Lemma hot_spots_score_sum strtod log loc by_ count_one_change_per out r :
  rectangular loc →
  hot_spots strtod log loc by_ count_one_change_per = Ok out →
  r ∈ rows out →
  at_ out "score" r
  = VFloat (fadd (fill0 (as_float (at_ out "complexity_score" r)))
              (fadd (fill0 (as_float (at_ out "changes_score" r))) (Fin Qc0))).
Proof.
  intros Hrect H Hr.
  destruct (hot_spots_steps _ _ _ _ _ _ Hrect H)
    as (sel & changed & m & _ & _ & _ & _ & _ & _ & _ & _ & Hrows).
  apply list_elem_of_lookup in Hr as [i Hi].
  destruct (Hrows _ _ Hi) as (r0 & _ & H1 & H2 & H3 & _).
  by rewrite H1, H2, H3.
Qed.

Local Open Scope Qc_scope.

(** C1, as the code has it.  In every row of the result the two scores are
    numbers between 0 and 1 and [score] is their sum, between 0 and 2.  A row
    that holds the minimum of a metric column scores 0 on that metric.  A row
    that holds the maximum scores 1 when the column has a spread, that is when
    its values are finite and not all the same, and no value of the column
    exceeds 2^53 in magnitude. *)
Theorem hot_spots_score_bounds strtod log loc by_ count_one_change_per out r :
  rectangular loc →
  hot_spots strtod log loc by_ count_one_change_per = Ok out →
  r ∈ rows out →
  ∃ s1 s2 : Qc,
    at_ out "complexity_score" r = VFloat (Fin s1)
    ∧ at_ out "changes_score" r = VFloat (Fin s2)
    ∧ at_ out "score" r = VFloat (Fin (s1 + s2))
    ∧ (0 ≤ s1 ∧ s1 ≤ 1) ∧ (0 ≤ s2 ∧ s2 ≤ 1) ∧ (0 ≤ s1 + s2 ∧ s1 + s2 ≤ 2)
    ∧ (holds_min strtod out "complexity" r → s1 = 0)
    ∧ (holds_min strtod out "changes" r → s2 = 0)
    ∧ (holds_max strtod out "complexity" r →
       spread (metric strtod out "complexity") →
       Forall (λ y, in_exact_range y) (metric strtod out "complexity") → s1 = 1)
    ∧ (holds_max strtod out "changes" r →
       spread (metric strtod out "changes") →
       Forall (λ y, in_exact_range y) (metric strtod out "changes") → s2 = 1).
Proof.
  intros Hrect H Hr.
  assert (Hcol : ∀ c, c ∈ ["complexity"; "changes"] →
    ∃ s : Qc, at_ out (c +:+ "_score") r = VFloat (Fin s)
      ∧ (0 ≤ s ∧ s ≤ 1)
      ∧ (holds_min strtod out c r → s = 0)
      ∧ (holds_max strtod out c r → spread (metric strtod out c) →
         Forall (λ y, in_exact_range y) (metric strtod out c) → s = 1)).
  { intros c Hc.
    destruct (hot_spots_scores _ _ _ _ _ _ _ Hrect H Hr c Hc) as (Hn & Hin & Hs).
    destruct (scale_bounds _ _ Hn Hin) as (s & Es & Hs0 & Hs1).
    exists s. rewrite Hs, Es. split; [done|]. split; [done|]. split.
    - intros Hmin. unfold holds_min in Hmin.
      pose proof (scale_minimum _ _ Hn Hin (column_min_lowest _ _ Hn Hin Hmin)) as E.
      rewrite Es in E. by injection E.
    - intros Hmax [Hfin Hnc] _. unfold holds_max in Hmax.
      assert (E : scale (metric strtod out c) (measure strtod (at_ out c r)) = Fin 1).
      { apply scale_maximum; [done | done | | by apply column_max_highest |].
        - eapply Forall_impl; [exact Hfin|]. intros [q| | |]; try done. by exists q.
        - exists (column_min (metric strtod out c)).
          split; [by eapply column_min_elem|]. by rewrite Hmax. }
      rewrite Es in E. by injection E. }
  destruct (Hcol "complexity") as (s1 & E1 & B1 & Hmin1 & Hmax1);
    [rewrite !elem_of_cons; auto|].
  destruct (Hcol "changes") as (s2 & E2 & B2 & Hmin2 & Hmax2);
    [rewrite !elem_of_cons; auto|].
  change ("complexity" +:+ "_score") with "complexity_score" in E1.
  change ("changes" +:+ "_score") with "changes_score" in E2.
  exists s1, s2. split; [done|]. split; [done|]. split.
  { rewrite (hot_spots_score_sum _ _ _ _ _ _ _ Hrect H Hr), E1, E2. cbn.
    unfold Qc0. by rewrite Qcplus_0_r. }
  split; [done|]. split; [done|]. split.
  { destruct B1, B2. split.
    - by apply (Qcplus_le_compat 0 s1 0 s2).
    - by apply (Qcplus_le_compat s1 1 s2 1). }
  done.
Qed.

(** C8.  [compute_score] fails only where the conversion to floats fails, so
    not in the division; and when the complexity column or the changes column
    of the result is constant, every row scores 0 on it. *)
Theorem hot_spots_constant_column strtod log loc by_ count_one_change_per out c :
  rectangular loc →
  hot_spots strtod log loc by_ count_one_change_per = Ok out →
  c ∈ ["complexity"; "changes"] →
  constant (metric strtod out c) →
  (∀ input e, compute_score strtod input = Raise e →
     astype_float strtod input = Raise e)
  ∧ ∀ r, r ∈ rows out → at_ out (c +:+ "_score") r = VFloat (Fin 0).
Proof.
  intros Hrect H Hc Hconst. split.
  - intros input e. unfold compute_score.
    by destruct (astype_float strtod input).
  - intros r Hr.
    destruct (hot_spots_scores _ _ _ _ _ _ _ Hrect H Hr c Hc) as (Hn & Hin & ->).
    f_equal. apply scale_minimum; [done..|]. by apply constant_lowest.
Qed.

Local Close Scope Qc_scope.

(** *** The paths that the size table does not know *)

(** The values counted are those of the log. *)
Lemma changed_values cs by_ log sel changed p :
  getitem (cs ++ [by_]) log = Ok sel →
  getcol by_ (drop_duplicates sel) = Ok changed →
  p ∈ col by_ log → p ∈ values changed.
Proof.
  intros Hsel Hch Hp. pose proof (getitem_Ok _ _ _ Hsel) as Hsub.
  rewrite (getitem_eval _ _ Hsub) in Hsel. injection Hsel as <-.
  unfold getcol in Hch. apply bind_Ok in Hch as (pb & Hpb & [= <-]).
  apply locate_Ok in Hpb. cbn [drop_duplicates columns rows] in *.
  unfold values. cbn [items]. rewrite <-list_fmap_compose.
  unfold col in Hp. destruct (get_loc by_ (columns log)) as [i|] eqn:Hi;
    [|by apply elem_of_nil in Hp].
  apply list_elem_of_fmap in Hp as (x & -> & Hx).
  assert (key_of log (cs ++ [by_]) x
          ∈ cells <$> unique_by cells
              ((λ r, (labels r, key_of log (cs ++ [by_]) r)) <$> rows log))
    as (r' & Hr' & Hin)%list_elem_of_fmap.
  { apply elem_of_unique_by_fmap. rewrite <-list_fmap_compose.
    apply list_elem_of_fmap. by exists x. }
  apply list_elem_of_fmap. exists r'. split; [|done]. cbn.
  unfold cell at 2. rewrite <-Hr'.
  change (default (VFloat NaN) (key_of log (cs ++ [by_]) x !! pb))
    with (cell (labels x, key_of log (cs ++ [by_]) x) pb).
  unfold key_of. rewrite (cell_built _ by_ pb _ (λ c, at_ log c x)) by done.
  by apply cell_at.
Qed.

(** Every value that is not missing is in the index of the counts. *)
Lemma value_counts_index s p :
  p ∈ values s → p ≠ VFloat NaN →
  ∃ n, ([p], VInt n) ∈ items (value_counts s).
Proof.
  intros Hp Hna. exists (occurrences p (filter (λ v, notna v) (values s))).
  unfold value_counts. cbn [items]. rewrite merge_sort_Permutation.
  apply list_elem_of_fmap. exists p. split; [done|].
  apply elem_of_unique_by_id, list_elem_of_filter. split; [|done].
  unfold notna, isna. by rewrite bool_decide_eq_false_2.
Qed.

(** The rows of an outer merge that come from the right table only. *)
Lemma merge_outer_right_only key sfx left right m k r :
  merge_outer_right_index key sfx left right = Ok m →
  get_loc key (columns left) = Some k →
  r ∈ rows right → right_label r ∉ column_at k left →
  ([], <[k:=right_label r]> (missing (length (columns left))) ++ cells r)
  ∈ rows m.
Proof.
  unfold merge_outer_right_index, locate. intros H Hk Hr Hnot.
  rewrite Hk in H. cbn [bind] in H. injection H as <-. cbn [rows].
  apply elem_of_app. right. apply list_elem_of_fmap. exists r. split; [done|].
  apply list_elem_of_filter. split; [|done]. apply Forall_forall.
  intros l Hl E. apply Hnot. unfold column_at. apply list_elem_of_fmap.
  by exists l.
Qed.

(** The labels of the merged table, once it is known to have the column
    [changes]. *)
Lemma merged_columns (cols : list string) :
  let clash := filter (λ c, c ∈ ["changes"]) cols in
  "changes" ∈ (suffixed "_x" clash <$> cols) ++ (suffixed "_y" clash <$> ["changes"]) →
  (suffixed "_x" clash <$> cols) ++ (suffixed "_y" clash <$> ["changes"])
  = cols ++ ["changes"].
Proof.
  intros clash Hin.
  assert (Hclash : ∀ c, c ∈ clash ↔ c = "changes" ∧ c ∈ cols).
  { intros c. unfold clash. rewrite list_elem_of_filter, list_elem_of_singleton.
    done. }
  destruct (decide ("changes" ∈ cols)) as [Hc|Hc].
  - exfalso. assert ("changes" ∈ clash) as Hcl by by apply Hclash.
    apply elem_of_app in Hin as [Hin|Hin];
      apply list_elem_of_fmap in Hin as (c & Hc' & Hin); unfold suffixed in Hc';
      case_decide as Hd.
    + apply Hclash in Hd as [-> _]. discriminate Hc'.
    + by subst c.
    + apply list_elem_of_singleton in Hin as ->. discriminate Hc'.
    + apply list_elem_of_singleton in Hin as ->. done.
  - assert (clash = []) as ->.
    { destruct clash as [|c l] eqn:E; [done|]. destruct Hc.
      assert (c ∈ c :: l) as [-> ?]%Hclash by left. done. }
    f_equal. rewrite <-(list_fmap_id cols) at 2. apply list_fmap_ext.
    intros _ c _. unfold suffixed. rewrite decide_False; [done|].
    apply not_elem_of_nil.
Qed.

(** The cells of a row that the right table brings alone, once filled. *)
Lemma cell_right_only lbl k j n (p : value) (rest : list value) :
  (k < n)%nat → (j < n)%nat →
  cell (lbl, fill (VFloat (Fin Qc0)) <$> (<[k:=p]> (missing n) ++ rest)) j
  = if decide (j = k) then fill (VFloat (Fin Qc0)) p else VFloat (Fin Qc0).
Proof.
  intros Hk Hj. unfold cell. cbn [cells snd].
  rewrite list_lookup_fmap, lookup_app_l
    by (unfold missing; by rewrite length_insert, length_replicate).
  case_decide as E.
  - subst j. rewrite list_lookup_insert_eq; [done|].
    unfold missing. by rewrite length_replicate.
  - rewrite list_lookup_insert_ne by done. unfold missing.
    by rewrite lookup_replicate_2.
Qed.

(** C10.  A value of the [by] column of the log that is not missing and that
    the size table does not have is the [by] cell of a row of the result, and
    in that row every column that comes from the size table, whatever it
    holds for the other rows, is 0.0.  (A column that [hot_spots] itself
    writes, one of the three scores, is left out.) *)
Theorem hot_spots_rows_without_size strtod log loc by_ count_one_change_per out p :
  rectangular loc →
  hot_spots strtod log loc by_ count_one_change_per = Ok out →
  default "path" by_ ∉ score_labels →
  p ∈ col (default "path" by_) log →
  p ≠ VFloat NaN →
  p ∉ col (default "path" by_) (rename [("code", "complexity")] loc) →
  ∃ r, r ∈ rows out
       ∧ at_ out (default "path" by_) r = p
       ∧ ∀ c, c ∈ columns (rename [("code", "complexity")] loc) →
              c ≠ default "path" by_ → c ∉ score_labels →
              at_ out c r = VFloat (Fin 0).
Proof.
  intros Hrect H Hby Hp Hna Hnot.
  destruct (hot_spots_steps _ _ _ _ _ _ Hrect H)
    as (sel & changed & m & Hsel & Hch & Hm & Hrm & Hcols & Hlen & _ & _ & Hrows).
  set (key := default "path" by_) in *.
  set (size := rename [("code", "complexity")] loc) in *.
  pose proof (changed_values _ _ _ _ _ _ Hsel Hch Hp) as Hv.
  destruct (value_counts_index _ _ Hv Hna) as [n Hn].
  pose proof Hm as Hm'. unfold merge_outer_right_index in Hm'.
  apply bind_Ok in Hm' as (k & Hk%locate_Ok & Hm').
  assert (Hcm : columns m = columns size ++ ["changes"]).
  { injection Hm' as <-. cbn [columns]. apply merged_columns.
    apply Hcols. rewrite !elem_of_cons. auto. }
  clear Hm'.
  assert (Hr0 : ([p], [VInt n]) ∈ rows (to_frame "changes" (value_counts changed))).
  { unfold to_frame. cbn [rows]. apply list_elem_of_fmap.
    by exists ([p], VInt n). }
  assert (Hnot' : right_label ([p], [VInt n]) ∉ column_at k size).
  { unfold col in Hnot. by rewrite Hk in Hnot. }
  pose proof (merge_outer_right_only _ _ _ _ _ _ _ Hm Hk Hr0 Hnot') as Hrow.
  change (right_label ([p], [VInt n])) with p in Hrow.
  change (cells ([p], [VInt n])) with [VInt n] in Hrow.
  apply list_elem_of_lookup in Hrow as [i Hi].
  destruct (lookup_lt_is_Some_2 (rows out) i) as [r' Hr'].
  { rewrite Hlen. by eapply lookup_lt_Some. }
  destruct (Hrows _ _ Hr') as (r & Hr & _ & _ & _ & Hoth).
  unfold fillna in Hr. cbn [rows] in Hr.
  apply list_lookup_fmap_Some in Hr as (r0 & -> & Hr).
  pose proof (eq_trans (eq_sym Hi) Hr) as E. injection E as <-.
  cbn [labels cells fst snd] in Hoth.
  pose proof (get_loc_lt _ _ _ Hk) as Hkl.
  exists r'. split; [by eapply list_elem_of_lookup_2|]. split.
  - rewrite Hoth by done. unfold at_. cbn [fillna columns].
    rewrite Hcm, (get_loc_app_l _ _ _ _ Hk).
    rewrite cell_right_only by done. rewrite decide_True by done.
    unfold fill, isna. by rewrite bool_decide_eq_false_2.
  - intros c Hc Hne Hsc. rewrite Hoth by done. unfold at_. cbn [fillna columns].
    destruct (get_loc_is_Some _ _ Hc) as [j Hj].
    rewrite Hcm, (get_loc_app_l _ _ _ _ Hj).
    rewrite cell_right_only by (done || by eapply get_loc_lt).
    rewrite decide_False; [done|]. intros ->. apply Hne. by eapply get_loc_inj.
Qed.

(** * guess_components *)

(** *** The order of the sort is total *)

Lemma float_leb_total a b :
  a ≠ NaN → b ≠ NaN → float_leb a b || float_leb b a = true.
Proof.
  destruct a as [x| | |], b as [y| | |]; cbn; try done. intros _ _.
  destruct (Qclt_le_dec y x) as [H|H].
  - rewrite (bool_decide_eq_true_2 (y ≤ x)%Qc) by by apply Qclt_le_weak.
    by rewrite orb_true_r.
  - by rewrite (bool_decide_eq_true_2 (x ≤ y)%Qc).
Qed.

Lemma value_leb_total a b : value_leb a b || value_leb b a = true.
Proof.
  destruct a as [s1|z1|f1|b1|t1|d1], b as [s2|z2|f2|b2|t2|d2]; cbn; try done.
  - destruct (String.leb_total s1 s2) as [-> | ->]; [done|]. by rewrite orb_true_r.
  - destruct (decide (z1 ≤ z2)%Z).
    + by rewrite bool_decide_eq_true_2.
    + rewrite (bool_decide_eq_true_2 (z2 ≤ z1)%Z) by lia. by rewrite orb_true_r.
  - destruct (decide (f1 = NaN)) as [->|H1]; [by destruct f2|].
    destruct (decide (f2 = NaN)) as [->|H2]; [by destruct f1|].
    pose proof (float_leb_total f1 f2 H1 H2). by destruct f1, f2.
  - by destruct b1, b2.
  - destruct (decide (t1 ≤ t2)%Z).
    + by rewrite bool_decide_eq_true_2.
    + rewrite (bool_decide_eq_true_2 (t2 ≤ t1)%Z) by lia. by rewrite orb_true_r.
  - destruct (decide (d1 ≤ d2)%Z).
    + by rewrite bool_decide_eq_true_2.
    + rewrite (bool_decide_eq_true_2 (d2 ≤ d1)%Z) by lia. by rewrite orb_true_r.
Qed.

Lemma value_geb_total a b : value_geb a b || value_geb b a = true.
Proof.
  unfold value_geb. destruct (isna b); [done|].
  destruct (isna a); [by rewrite orb_true_r|]. rewrite orb_comm.
  apply value_leb_total.
Qed.

Lemma key_geb_total k1 k2 : key_geb k1 k2 || key_geb k2 k1 = true.
Proof.
  revert k2. induction k1 as [|a k1 IH]; intros [|b k2]; cbn; try done.
  destruct (decide (a = b)) as [->|Hab].
  - rewrite decide_True by done. apply IH.
  - rewrite decide_False by (by apply not_eq_sym). apply value_geb_total.
Qed.

Global Instance key_ge_total_at ps :
  Total (λ r1 r2 : row, key_ge (key_at ps r1) (key_at ps r2)).
Proof.
  intros r1 r2. unfold key_ge.
  pose proof (key_geb_total (key_at ps r1) (key_at ps r2)) as H.
  apply orb_true_iff in H as [->| ->]; [by left | by right].
Qed.

(** *** The ranking *)

Lemma float_ltb_trans a b c :
  float_ltb a b = true → float_ltb b c = true → float_ltb a c = true.
Proof.
  destruct a as [x| | |], b as [y| | |], c as [z| | |]; cbn; try done.
  rewrite !bool_decide_eq_true. apply Qclt_trans.
Qed.

Lemma float_leb_ltb a b : float_leb a b = true → a ≠ b → float_ltb a b = true.
Proof.
  destruct a as [x| | |], b as [y| | |]; cbn; try done.
  rewrite !bool_decide_eq_true. intros Hle Hne.
  destruct (Qcle_lt_or_eq _ _ Hle) as [?|E]; [done|]. by subst.
Qed.

Global Instance ranks_before_trans : Transitive ranks_before.
Proof.
  intros [f1 w1] [f2 w2] [f3 w3]. unfold ranks_before. cbn.
  intros [H12|[-> H12]] [H23|[-> H23]].
  - left. by eapply float_ltb_trans.
  - by left.
  - by left.
  - right. split; [done|]. by etrans.
Qed.

Lemma row_feature_row a : row_feature (feature_row a) = a.
Proof. by destruct a. Qed.

Lemma key_ge_ranks_before a b :
  a.2 ≠ NaN → b.2 ≠ NaN →
  key_ge (key_at [1; 0]%nat (feature_row a)) (key_at [1; 0]%nat (feature_row b)) →
  ranks_before a b.
Proof.
  destruct a as [f1 w1], b as [f2 w2]. unfold key_ge, ranks_before. cbn.
  intros H1 H2.
  destruct (decide (VFloat w1 = VFloat w2)) as [[= ->]|Hw].
  - intros H. right. split; [done|].
    destruct (decide (VStr f1 = VStr f2)) as [[= ->]|Hf]; [done|].
    by unfold value_geb in H.
  - intros H. left. unfold value_geb, isna in H.
    rewrite !bool_decide_eq_false_2 in H by congruence. cbn in H.
    apply float_leb_ltb; [|congruence].
    destruct w1, w2; try done; by apply Is_true_true.
Qed.

Lemma Sorted_fmap_in {A B} (R1 : relation A) (R2 : relation B) (f : A → B)
    (P : A → Prop) (l : list A) :
  (∀ x y, P x → P y → R1 x y → R2 (f x) (f y)) →
  Forall P l → Sorted R1 l → Sorted R2 (f <$> l).
Proof.
  intros Hf HP. induction 1 as [|x l Hl IH Hhd]; [constructor|].
  apply Forall_cons in HP as [Hx HP]. cbn. constructor; [by apply IH|].
  destruct Hhd as [|y l' Hxy]; constructor.
  apply Forall_cons in HP as [Hy _]. by apply Hf.
Qed.

Lemma transpose_pair (fs : list string) (ws : list float64) :
  length fs = length ws →
  transpose (length fs) [VStr <$> fs; VFloat <$> ws]
  = (λ a, [VStr a.1; VFloat a.2]) <$> zip fs ws.
Proof.
  revert ws. induction fs as [|f fs IH]; intros [|w ws] Hlen; try done.
  cbn. f_equal. apply IH. by injection Hlen.
Qed.

Lemma float_leb_not_ltb a b : float_leb a b = true → float_ltb b a = false.
Proof.
  destruct a as [x| | |], b as [y| | |]; cbn; try done.
  rewrite bool_decide_eq_true, bool_decide_eq_false. apply Qcle_not_lt.
Qed.

Lemma filter_none {A} (p : A → bool) (l : list A) :
  Forall (λ x, p x = false) l → filter (λ x, p x) l = [].
Proof.
  induction 1 as [|x l Hx _ IH]; [done|].
  rewrite filter_cons, IH. by rewrite Hx.
Qed.

(** *** The name of a cluster *)

Section cluster_name_eval.
Context (center : list float64) (features : list string).
Context (n_clusters : nat) (threshold : float64).
Context (Hlen : length features = length center).
Context (Hcenter : Forall (λ w, w ≠ NaN) center).

Lemma sorted_rows :
  merge_sort (λ r1 r2, key_ge (key_at [1; 0]%nat r1) (key_at [1; 0]%nat r2))
    (feature_row <$> zip features center)
  = feature_row <$> (ranking center features).
Proof.
  unfold ranking. rewrite <-list_fmap_compose.
  rewrite <-(list_fmap_id (merge_sort _ _)) at 1.
  apply list_fmap_ext_in. intros r Hr.
  rewrite merge_sort_Permutation in Hr.
  apply list_elem_of_fmap in Hr as (a & -> & _). cbn.
  by rewrite row_feature_row.
Qed.

Lemma ranking_Permutation : (ranking center features) ≡ₚ zip features center.
Proof.
  unfold ranking. rewrite merge_sort_Permutation, <-list_fmap_compose.
  replace (row_feature ∘ feature_row <$> zip features center)
    with (zip features center); [done|].
  rewrite <-(list_fmap_id (zip features center)) at 1.
  apply list_fmap_ext. intros _ a _. symmetry. apply row_feature_row.
Qed.

Lemma ranking_weights a : a ∈ (ranking center features) → a.2 ≠ NaN.
Proof.
  rewrite ranking_Permutation. intros Ha. rewrite Forall_forall in Hcenter.
  apply Hcenter. destruct a as [f w]. by eapply elem_of_zip_r.
Qed.

Lemma ranking_Sorted : StronglySorted ranks_before (ranking center features).
Proof.
  apply Sorted_StronglySorted; [apply _|]. unfold ranking.
  eapply (Sorted_fmap_in _ _ _ (λ r, ∃ a, r = feature_row a ∧ a.2 ≠ NaN));
    [| |apply Sorted_merge_sort, _].
  - intros r1 r2 (a & -> & Ha) (b & -> & Hb) H.
    rewrite !row_feature_row. by apply key_ge_ranks_before.
  - apply Forall_forall. intros r Hr. rewrite merge_sort_Permutation in Hr.
    apply list_elem_of_fmap in Hr as (a & -> & Ha). exists a. split; [done|].
    rewrite Forall_forall in Hcenter. apply Hcenter. destruct a as [f w].
    by eapply elem_of_zip_r.
Qed.

Lemma cluster_name_eval :
  cluster_name center features n_clusters threshold
  = Ok (String.concat "."
          (fst <$> filter (λ a, float_ltb threshold a.2) (ranking center features))).
Proof.
  unfold cluster_name, from_columns. cbn [fmap list_fmap head default compose snd].
  rewrite decide_True
    by (repeat constructor; cbn; by rewrite !length_fmap).
  cbn [bind fst]. unfold id. rewrite length_fmap, transpose_pair by done.
  rewrite <-list_fmap_compose.
  change ((λ cs, (([] : list value), cs)) ∘ (λ a : string * float64, [VStr a.1; VFloat a.2]))
    with feature_row.
  unfold sort_values_desc.
  change (locate_all ["weight"; "feature"] _) with (Ok [1; 0]%nat).
  cbn [bind columns rows index_names].
  change (merge_sort _ (feature_row <$> zip features center))
    with (merge_sort (λ r1 r2, key_ge (key_at [1; 0]%nat r1) (key_at [1; 0]%nat r2))
            (feature_row <$> zip features center)).
  rewrite sorted_rows.
  unfold getcol. cbn [columns getitem_mask].
  change (locate "weight" ["feature"; "weight"]) with (Ok 1%nat).
  change (locate "feature" ["feature"; "weight"]) with (Ok 0%nat).
  cbn [bind rows]. rewrite <-list_fmap_compose.
  unfold le, gt, compare_scalar, values. cbn [number items].
  rewrite <-!list_fmap_compose.
  rewrite (traverse_fmap_Ok _ _ (λ a, float_leb a.2 threshold)) by done.
  cbn [bind].
  destruct (all _) eqn:Hall.
  - rewrite filter_none; [done|]. unfold all in Hall.
    apply Is_true_true, forallb_True in Hall. rewrite !Forall_fmap in Hall.
    eapply Forall_impl; [exact Hall|]. intros a Ha. cbn in Ha.
    by apply float_leb_not_ltb, Is_true_true.
  - rewrite (traverse_fmap_Ok _ _ (λ a, float_ltb threshold a.2)) by done.
    cbn [bind]. unfold getitem_mask. cbn [rows]. rewrite filter_mask_fmap_fmap.
    rewrite <-!list_fmap_compose. unfold join.
    by rewrite (traverse_fmap_Ok _ _ fst).
Qed.

End cluster_name_eval.

(** The threshold of [guess_components] is a float64 of the binade of 1/4,
    with a significand of 53 bits, and no float64 is nearer to 2/5: it is
    within half a unit in the last place, 2^-55, of 2/5. *)
Lemma threshold_0_4_nearest :
  threshold_0_4 = Fin (Q2Qc (7205759403792794 # 2 ^ 54))
  ∧ (2 ^ 52 ≤ 7205759403792794 < 2 ^ 53)%Z
  ∧ (Q2Qc (2 # 5) < Q2Qc (3602879701896397 # 9007199254740992))%Qc
  ∧ (Q2Qc (3602879701896397 # 9007199254740992) - Q2Qc (2 # 5)
     < Q2Qc (1 # 2 ^ 55))%Qc.
Proof.
  split; [|split; [lia|split]].
  - unfold threshold_0_4. f_equal. by apply Qc_is_canon.
  - by vm_compute.
  - by vm_compute.
Qed.


(** *** The ascending order of the sort is total *)

Lemma key_leb_total k1 k2 : key_leb k1 k2 || key_leb k2 k1 = true.
Proof.
  revert k2. induction k1 as [|a k1 IH]; intros [|b k2]; cbn; try done.
  destruct (decide (a = b)) as [->|Hab].
  - rewrite decide_True by done. apply IH.
  - rewrite decide_False by (by apply not_eq_sym). apply value_leb_total.
Qed.

Global Instance key_le_total_at ps :
  Total (λ r1 r2 : row, key_le (key_at ps r1) (key_at ps r2)).
Proof.
  intros r1 r2. unfold key_le.
  pose proof (key_leb_total (key_at ps r1) (key_at ps r2)) as H.
  apply orb_true_iff in H as [->| ->]; [by left | by right].
Qed.

Lemma Sorted_weaken_in {A} (R1 R2 : relation A) (P : A → Prop) (l : list A) :
  (∀ x y, P x → P y → R1 x y → R2 x y) →
  Forall P l → Sorted R1 l → Sorted R2 l.
Proof.
  intros HR HP HS. rewrite <-(list_fmap_id l).
  by apply (Sorted_fmap_in R1 R2 id P).
Qed.

Lemma transpose_two (a b : list value) :
  length a = length b →
  transpose (length a) [a; b] = zip_with (λ x y, [x; y]) a b.
Proof.
  revert b. induction a as [|x a IH]; intros [|y b] Hlen; try done.
  cbn. f_equal. apply IH. by injection Hlen.
Qed.

Lemma from_columns_two c1 c2 (a b : list value) df :
  from_columns [(c1, a); (c2, b)] = Ok df →
  length a = length b
  ∧ df = mkDF [] [c1; c2] ((λ cs, ([], cs)) <$> zip_with (λ x y, [x; y]) a b).
Proof.
  unfold from_columns. cbn [fmap list_fmap head default compose snd fst].
  case_decide as H; [|done]. intros [= <-].
  apply Forall_cons in H as [_ [H _]%Forall_cons]. cbn in H.
  split; [done|]. unfold id. by rewrite transpose_two.
Qed.

(** * guess_components: the table of the components *)

Lemma key_le_text a b : key_le [VStr a] [VStr b] → String.le a b.
Proof.
  unfold key_le. cbn. case_decide as E; [|done].
  injection E as ->. intros _. reflexivity.
Qed.

Section guess_components_rows.
Context (fit : list string → option (list string) → nat →
               list string * list (list float64) * list nat).
Context (paths : list string) (stop_words : option (list string)).
Context (n_clusters : nat).
Context (features : list string) (centers : list (list float64)).
Context (labels_ : list nat) (rv : DataFrame).
Context (Hfit : fit ((λ p, dirname (replace_backslash p)) <$> paths)
                  stop_words n_clusters = (features, centers, labels_)).
Context (H : guess_components fit paths stop_words n_clusters = Ok rv).

Lemma guess_components_eval :
  ∃ names components,
    traverse (λ center, cluster_name center features n_clusters threshold_0_4)
      centers = Ok names
    ∧ Forall2 (λ lbl c, ∃ name, names !! lbl = Some name ∧ c = VStr name)
        labels_ components
    ∧ length paths = length labels_
    ∧ rv = mkDF [] ["path"; "component"]
             (merge_sort (λ r1 r2, key_le (key_at [1%nat] r1) (key_at [1%nat] r2))
                (zip_with (λ p c, ([], [VStr p; c])) paths components)).
Proof.
  pose proof H as H'. unfold guess_components in H'. cbv zeta in H'.
  rewrite Hfit in H'.
  apply bind_Ok in H' as (names & Hnames & H').
  apply bind_Ok in H' as (components & Hcomp & H').
  apply bind_Ok in H' as (df & Hdf & H').
  exists names, components. split; [done|].
  apply traverse_Ok in Hcomp.
  assert (Hc : Forall2 (λ lbl c, ∃ name, names !! lbl = Some name ∧ c = VStr name)
                 labels_ components).
  { eapply Forall2_impl; [exact Hcomp|]. intros lbl c Hl. cbn in Hl.
    destruct (names !! lbl) as [name|]; [|done]. injection Hl as <-.
    by exists name. }
  split; [done|].
  apply from_columns_two in Hdf as [Hlen ->].
  rewrite length_fmap in Hlen.
  split; [by rewrite Hlen, (Forall2_length _ _ _ Hc)|].
  unfold sort_values in H'.
  change (locate_all ["component"] _) with (Ok [1%nat]) in H'.
  cbn [bind columns rows index_names] in H'. injection H' as <-.
  f_equal. f_equal. clear. revert components.
  induction paths as [|p ps IH]; intros [|c cs]; [done..|].
  cbn. f_equal. apply IH.
Qed.

End guess_components_rows.

(** What [guess_components] returns, in terms of what scikit-learn
    returned: a table of two columns with one row a path, the path with the
    name of the cluster it was labelled with, in the ascending order of the
    names.  The labels are as many as the paths and all of them are labels of
    a center. *)
Theorem guess_components_table fit paths stop_words n_clusters features centers
    labels_ rv :
  fit ((λ p, dirname (replace_backslash p)) <$> paths) stop_words n_clusters
    = (features, centers, labels_) →
  guess_components fit paths stop_words n_clusters = Ok rv →
  columns rv = ["path"; "component"]
  ∧ length labels_ = length paths
  ∧ Forall (λ lbl, lbl < length centers)%nat labels_
  ∧ (∃ names,
       Forall2 (λ center name,
                  cluster_name center features n_clusters threshold_0_4 = Ok name)
         centers names
       ∧ rows rv ≡ₚ zip_with (λ p lbl, ([], [VStr p; VStr (default "" (names !! lbl))]))
                      paths labels_)
  ∧ Sorted (λ r1 r2, String.le (text (cell r1 1)) (text (cell r2 1))) (rows rv).
Proof.
  intros Hfit H.
  destruct (guess_components_eval _ _ _ _ _ _ _ _ Hfit H)
    as (names & components & Hnames & Hcomp & Hlen & ->).
  apply traverse_Ok in Hnames.
  assert (Hcs : components
                = (λ lbl, VStr (default "" (names !! lbl))) <$> labels_).
  { clear -Hcomp. induction Hcomp as [|lbl c ls cs (name & Hn & ->) _ IH]; [done|].
    cbn. by rewrite Hn, IH. }
  cbn [columns rows]. split; [done|]. split; [done|]. split.
  { apply Forall_forall. intros lbl Hl. apply list_elem_of_lookup in Hl as [i Hi].
    destruct (Forall2_lookup_l _ _ _ _ _ Hcomp Hi) as (c & _ & name & Hn & _).
    rewrite (Forall2_length _ _ _ Hnames). by eapply lookup_lt_Some. }
  split.
  { exists names. split; [done|].
    by rewrite merge_sort_Permutation, Hcs, zip_with_fmap_r. }
  eapply (Sorted_weaken_in _ _ (λ r, ∃ s, cell r 1 = VStr s));
    [| |apply Sorted_merge_sort, _].
  - intros r1 r2 [s1 E1] [s2 E2]. cbn. rewrite E1, E2. apply key_le_text.
  - apply Forall_forall. intros r Hr. rewrite merge_sort_Permutation in Hr.
    rewrite Hcs, zip_with_fmap_r in Hr.
    apply elem_of_lookup_zip_with in Hr as (i & p & lbl & -> & _ & _).
    by eexists.
Qed.

(** * guess_components: the name of a cluster, further *)

Lemma float_ltb_asym a b : float_ltb a b = true → float_ltb b a = false.
Proof. intros H. by apply float_leb_not_ltb, float_ltb_leb. Qed.

Lemma float_ltb_irrefl a : float_ltb a a = false.
Proof.
  destruct (float_ltb a a) eqn:E; [|done].
  by rewrite (float_ltb_asym _ _ E) in E.
Qed.

Global Instance ranks_before_antisym : AntiSymm (=) ranks_before.
Proof.
  intros [f1 w1] [f2 w2]. unfold ranks_before. cbn.
  intros [H12|[-> H12]] [H21|[E H21]].
  - by rewrite (float_ltb_asym _ _ H12) in H21.
  - subst. by rewrite float_ltb_irrefl in H12.
  - by rewrite float_ltb_irrefl in H21.
  - f_equal. by apply (anti_symm String.le).
Qed.

(** [cluster_name] returns a name when the center has one weight a feature,
    and raises [ValueError] otherwise, as [pd.DataFrame] does for columns of
    different lengths. *)
Theorem cluster_name_defined center features n_clusters threshold :
  (length features = length center →
   ∃ name, cluster_name center features n_clusters threshold = Ok name)
  ∧ (length features ≠ length center →
     cluster_name center features n_clusters threshold = Raise ValueError).
Proof.
  split.
  - intros Hlen. eexists. by apply cluster_name_eval.
  - intros Hlen. unfold cluster_name, from_columns.
    cbn [fmap list_fmap head default compose snd].
    rewrite decide_False; [done|]. unfold id.
    intros [_ [H _]%Forall_cons]%Forall_cons. cbn in H.
    rewrite !length_fmap in H. by symmetry in H.
Qed.

(** The name of a cluster does not depend on the order in which the
    vectorizer lists its features: two centers that give the same weights to
    the same features get the same name. *)
Theorem cluster_name_order_free center1 features1 center2 features2 n1 n2 threshold :
  length features1 = length center1 →
  length features2 = length center2 →
  Forall (λ w, w ≠ NaN) center1 →
  zip features1 center1 ≡ₚ zip features2 center2 →
  cluster_name center1 features1 n1 threshold
  = cluster_name center2 features2 n2 threshold.
Proof.
  intros Hl1 Hl2 Hc1 Hperm.
  assert (Hc2 : Forall (λ w, w ≠ NaN) center2).
  { assert (center2 ≡ₚ center1) as ->; [|done].
    rewrite <-(snd_zip features1 center1), <-(snd_zip features2 center2) by lia.
    by rewrite Hperm. }
  rewrite !cluster_name_eval by done. do 4 f_equal.
  apply (StronglySorted_unique ranks_before); [by apply ranking_Sorted..|].
  by rewrite !ranking_Permutation.
Qed.

(** * guess_components: the directories *)

Lemma list_ascii_of_string_app (a b : string) :
  list_ascii_of_string (a +:+ b) = list_ascii_of_string a ++ list_ascii_of_string b.
Proof.
  induction a as [|c a IH]; [done|].
  change (String c a +:+ b) with (String c (a +:+ b)). cbn. by rewrite IH.
Qed.

Lemma drop_basename_no_slash l : slash ∉ l → drop_basename l = [].
Proof.
  induction l as [|c l IH]; [done|]. intros [Hc Hl]%not_elem_of_cons. cbn.
  rewrite decide_False by (by apply not_eq_sym). by apply IH.
Qed.

Lemma drop_basename_app l1 l2 :
  slash ∉ l1 → drop_basename (l1 ++ slash :: l2) = slash :: l2.
Proof.
  induction l1 as [|c l IH]; cbn.
  - intros _. by rewrite decide_True.
  - intros [Hc Hl]%not_elem_of_cons.
    rewrite decide_False by (by apply not_eq_sym). by apply IH.
Qed.

Lemma elem_of_drop_basename c l : c ∈ drop_basename l → c ∈ l.
Proof.
  induction l as [|c' l IH]; [done|]. cbn. case_decide; [done|].
  intros Hin. right. by apply IH.
Qed.

Lemma elem_of_rstrip_slash c l : c ∈ rstrip_slash l → c ∈ l.
Proof.
  induction l as [|c' l IH]; [done|]. cbn. case_decide; [|done].
  intros Hin. right. by apply IH.
Qed.

Lemma elem_of_dirname c p :
  c ∈ list_ascii_of_string (dirname p) → c ∈ list_ascii_of_string p.
Proof.
  unfold dirname. rewrite list_ascii_of_string_of_list_ascii, elem_of_reverse.
  intros Hin. apply elem_of_reverse, elem_of_drop_basename.
  case_decide; [done|]. by apply elem_of_rstrip_slash.
Qed.

Lemma replace_backslash_chars p :
  backslash ∉ list_ascii_of_string (replace_backslash p).
Proof.
  unfold replace_backslash. rewrite list_ascii_of_string_of_list_ascii.
  intros (c & E & _)%list_elem_of_fmap. by case_decide.
Qed.

(** [os.path.dirname] of a file in a directory, of a bare file name and of a
    file of the root. *)
Lemma dirname_file_in_directory d c f :
  c ≠ slash → slash ∉ list_ascii_of_string f →
  dirname ((d +:+ String c "") +:+ String slash f) = d +:+ String c "".
Proof.
  intros Hc Hf. unfold dirname.
  rewrite !list_ascii_of_string_app. cbn [list_ascii_of_string].
  rewrite reverse_app, reverse_cons, <-app_assoc. cbn [app].
  rewrite drop_basename_app by (by rewrite elem_of_reverse).
  rewrite reverse_app. cbn [reverse app]. rewrite reverse_singleton. cbn [app].
  rewrite decide_False.
  2:{ intros [_ [E _]%Forall_cons]%Forall_cons. done. }
  cbn [rstrip_slash]. rewrite decide_True by done.
  rewrite decide_False by done.
  rewrite reverse_cons, reverse_involutive.
  rewrite <-(string_of_list_ascii_of_string (d +:+ String c "")).
  by rewrite list_ascii_of_string_app.
Qed.

Lemma dirname_bare_file f :
  slash ∉ list_ascii_of_string f → dirname f = "" ∧ dirname (String slash f) = "/".
Proof.
  intros Hf. split.
  - unfold dirname. rewrite drop_basename_no_slash by (by rewrite elem_of_reverse).
    by rewrite decide_True by constructor.
  - unfold dirname. cbn [list_ascii_of_string]. rewrite reverse_cons.
    rewrite drop_basename_app by (by rewrite elem_of_reverse).
    by rewrite decide_True by (by repeat constructor).
Qed.

(** [replace] goes through a concatenation and leaves a string without
    backslash as it is. *)
Lemma replace_backslash_app a b :
  replace_backslash (a +:+ b) = replace_backslash a +:+ replace_backslash b.
Proof.
  induction a as [|c a IH]; [done|].
  change (String c a +:+ b) with (String c (a +:+ b)).
  unfold replace_backslash in *. cbn [list_ascii_of_string fmap list_fmap].
  cbn [string_of_list_ascii]. fold (@fmap list _ ascii ascii).
  change (String ?x ?y +:+ ?z) with (String x (y +:+ z)). by rewrite IH.
Qed.

Lemma replace_backslash_id f :
  backslash ∉ list_ascii_of_string f → replace_backslash f = f.
Proof.
  induction f as [|c f IH]; [done|]. cbn [list_ascii_of_string].
  intros [Hc Hf]%not_elem_of_cons.
  unfold replace_backslash in *. cbn [list_ascii_of_string fmap list_fmap].
  cbn [string_of_list_ascii]. fold (@fmap list _ ascii ascii).
  rewrite decide_False by done. by rewrite IH.
Qed.

Lemma replace_backslash_separator s f :
  s = slash ∨ s = backslash → backslash ∉ list_ascii_of_string f →
  replace_backslash (String s f) = String slash f.
Proof.
  intros Hs Hf.
  change (String s f) with (String s "" +:+ f).
  rewrite replace_backslash_app, (replace_backslash_id f) by done.
  by destruct Hs as [->| ->].
Qed.

(** The directory [guess_components] gives the vectorizer for a path, where a
    separator is a slash or a backslash.  It has no backslash.  For a path
    that ends with a separator and a file name, it is what comes before that
    separator, with slashes for its backslashes, when this ends with a
    character that is not a separator; it is the root for a file of the root,
    and it is empty for a bare file name. *)
Theorem directory_of_path :
  (∀ p, backslash ∉ list_ascii_of_string (dirname (replace_backslash p)))
  ∧ (∀ d c s f,
       c ≠ slash → c ≠ backslash → s = slash ∨ s = backslash →
       slash ∉ list_ascii_of_string f → backslash ∉ list_ascii_of_string f →
       dirname (replace_backslash ((d +:+ String c "") +:+ String s f))
       = replace_backslash (d +:+ String c ""))
  ∧ (∀ s f,
       s = slash ∨ s = backslash →
       slash ∉ list_ascii_of_string f → backslash ∉ list_ascii_of_string f →
       dirname (replace_backslash f) = ""
       ∧ dirname (replace_backslash (String s f)) = "/").
Proof.
  split; [|split].
  - intros p H. by apply elem_of_dirname, replace_backslash_chars in H.
  - intros d c s f Hc Hc' Hs Hf Hf'.
    rewrite replace_backslash_app, (replace_backslash_separator s f) by done.
    rewrite (replace_backslash_app d (String c "")).
    rewrite (replace_backslash_id (String c "")).
    2:{ cbn [list_ascii_of_string]. intros E%list_elem_of_singleton.
        by apply Hc'. }
    by apply dirname_file_in_directory.
  - intros s f Hs Hf Hf'.
    rewrite (replace_backslash_separator s f), (replace_backslash_id f) by done.
    by apply dirname_bare_file.
Qed.

(** A path of the tests, with backslashes only. *)
Example directory_of_authors_clj :
  dirname (replace_backslash ".\src\code_maat\analysis\authors.clj")
  = "./src/code_maat/analysis".
Proof. reflexivity. Qed.

(** * ages, further *)

Global Instance key_le_total : Total key_le.
Proof.
  intros k1 k2. unfold key_le. pose proof (key_leb_total k1 k2) as H.
  apply orb_true_iff in H as [->| ->]; [by left | by right].
Qed.

Lemma Sorted_distinct_keys (f : row → list value) rs :
  Sorted key_le (distinct_keys f rs).
Proof. unfold distinct_keys. apply Sorted_merge_sort, _. Qed.

(** The cell of a row of the result under a label. *)
Lemma at_age_row ks (k : list value) (a : value) df :
  columns df = ks ++ ["age"] → "age" ∉ ks → length k = length ks →
  at_ df "age" ([], k ++ [a]) = a.
Proof.
  intros Hc Hage Hlen. unfold at_. rewrite Hc, get_loc_last by done.
  rewrite <-Hlen, <-(Nat.add_0_r (length k)). by rewrite cell_app_r.
Qed.

Lemma key_of_age_row (log : DataFrame) ks x (a : value) df :
  columns df = ks ++ ["age"] →
  key_of df ks ([], key_of log ks x ++ [a]) = key_of log ks x.
Proof.
  intros Hc. unfold key_of at 1. apply list_eq. intros i.
  rewrite list_lookup_fmap.
  destruct (ks !! i) as [c|] eqn:Hi; cbn.
  - destruct (get_loc_is_Some c ks) as [j Hj]; [by eapply list_elem_of_lookup_2|].
    unfold at_. rewrite Hc, (get_loc_app_l _ _ _ _ Hj).
    pose proof (get_loc_lt _ _ _ Hj) as Hjl. apply get_loc_Some in Hj.
    rewrite cell_app_l by (unfold key_of; by rewrite length_fmap).
    unfold key_of. by rewrite !list_lookup_fmap, Hj, Hi.
  - unfold key_of. by rewrite list_lookup_fmap, Hi.
Qed.

Section ages_further.
Context (get_now : Z) (strptime : bool → string → option Z).
Context (log : DataFrame) (ks : list string) (utc : option bool).
Context (kwargs : list (string * value)) (out : DataFrame).
Context (Hks : ks ≠ []) (Hdate : "date" ∉ ks) (Hage : "age" ∉ ks).
Context (H : ages get_now strptime log (Some ks) utc kwargs = Ok out).

Lemma ages_result :
  ∃ age, traverse (age_of strptime get_now (default true utc))
           (max_date log ks <$> groups_of log ks) = Ok age
         ∧ out = mkDF [] (ks ++ ["age"])
                   (zip_with (λ k a, ([], k ++ [a])) (groups_of log ks) age).
Proof.
  pose proof H as H'.
  change (ages get_now strptime log (Some ks) (Some (default true utc)) kwargs
          = Ok out) in H'.
  assert (Hcols : ks ++ ["date"] ⊆ columns log).
  { unfold ages in H'. cbv zeta in H'. apply bind_Ok in H' as (sel & Hsel & _).
    by apply getitem_Ok in Hsel. }
  by apply (ages_Ok get_now strptime log ks _ Hks Hdate Hage kwargs out Hcols).
Qed.

Lemma ages_keys : key_of out ks <$> rows out = groups_of log ks.
Proof.
  destruct ages_result as (age & Hage' & ->). cbn [rows].
  pose proof (traverse_length _ _ _ Hage') as Hlen. rewrite length_fmap in Hlen.
  apply list_eq. intros i. rewrite list_lookup_fmap.
  destruct (zip_with _ _ _ !! i) as [r|] eqn:Hr.
  - apply lookup_zip_with_Some in Hr as (k & a & -> & Hk & Ha).
    rewrite Hk. cbn. f_equal.
    assert (k ∈ groups_of log ks) as (x & _ & <- & _)%elem_of_distinct_keys
      by by eapply list_elem_of_lookup_2.
    by apply key_of_age_row.
  - apply lookup_zip_with_None in Hr as [Hk|Ha]; [by rewrite Hk|].
    apply lookup_ge_None in Ha. rewrite Hlen in Ha.
    apply lookup_ge_None in Ha. by rewrite Ha.
Qed.

End ages_further.

Local Open Scope Qc_scope.

(** With a clock that is not behind any date of the log, no age is
    negative. *)
Theorem ages_not_negative get_now strptime log ks utc kwargs out :
  ks ≠ [] → "date" ∉ ks → "age" ∉ ks →
  (∀ y, y ∈ rows log → ∃ t, at_ log "date" y = VTime t ∧ (t ≤ get_now)%Z) →
  ages get_now strptime log (Some ks) utc kwargs = Ok out →
  ∀ r, r ∈ rows out → ∃ q : Qc, at_ out "age" r = VFloat (Fin q) ∧ 0 ≤ q.
Proof.
  intros Hks Hdate Hage Hdates H r Hr.
  destruct (ages_result _ _ _ _ _ _ _ Hks Hdate Hage H) as (age & Hage' & ->).
  cbn [rows] in Hr. apply traverse_Ok in Hage'.
  apply elem_of_lookup_zip_with in Hr as (i & k & a & -> & Hk & Ha).
  rewrite (at_age_row ks) by
    (done || (pose proof (groups_of_length log ks) as HK;
              rewrite Forall_forall in HK; apply HK;
              by eapply list_elem_of_lookup_2)).
  assert (Hd : (max_date log ks <$> groups_of log ks) !! i = Some (max_date log ks k))
    by by rewrite list_lookup_fmap, Hk.
  destruct (Forall2_lookup_l _ _ _ _ _ Hage' Hd) as (a' & Ha' & Hage'').
  rewrite Ha in Ha'. injection Ha' as <-.
  assert (k ∈ groups_of log ks) as (x & Hx & <- & _)%elem_of_distinct_keys
    by by eapply list_elem_of_lookup_2.
  destruct (max_date_VTime log ks x) as (t & Et & (y & Hy & _ & Ey) & _); [|done|].
  { intros y Hy. destruct (Hdates y Hy) as (t & ? & _). by exists t. }
  rewrite Et, age_of_VTime in Hage''. injection Hage'' as <-.
  eexists. split; [done|].
  destruct (Hdates y Hy) as (t' & Et' & Hle). rewrite Ey in Et'. injection Et' as <-.
  apply Qcdiv_nonneg.
  - rewrite <-Z2Qc_inj_0. apply (proj1 (Z2Qc_inj_le _ _)). lia.
  - rewrite <-Z2Qc_inj_0. by apply (proj1 (Z2Qc_inj_lt _ _)).
Qed.

Local Close Scope Qc_scope.

(** The result has one row for each key of the log that has no missing
    value, and the rows come in the ascending order of the keys. *)
Theorem ages_one_row_a_key get_now strptime log ks utc kwargs out :
  ks ≠ [] → "date" ∉ ks → "age" ∉ ks →
  ages get_now strptime log (Some ks) utc kwargs = Ok out →
  NoDup (key_of out ks <$> rows out)
  ∧ Sorted key_le (key_of out ks <$> rows out)
  ∧ ∀ k, k ∈ key_of out ks <$> rows out ↔
         ∃ x, x ∈ rows log ∧ key_of log ks x = k ∧ forallb notna k.
Proof.
  intros Hks Hdate Hage H.
  rewrite (ages_keys _ _ _ _ _ _ _ Hks Hdate Hage H).
  split; [apply NoDup_distinct_keys|]. split; [apply Sorted_distinct_keys|].
  intros k. apply elem_of_distinct_keys.
Qed.

(** * Columns that the log does not have *)

Lemma locate_all_missing cs1 c cs2 cols :
  cs1 ⊆ cols → c ∉ cols →
  locate_all (cs1 ++ c :: cs2) cols = Raise (KeyError c).
Proof.
  intros Hsub Hc. unfold locate_all.
  induction cs1 as [|c1 cs1 IH]; cbn [app traverse].
  - unfold locate. apply get_loc_None in Hc. by rewrite Hc.
  - destruct (locate_total c1 cols) as [i ->]; [apply Hsub; left|].
    cbn [bind]. rewrite IH; [done|]. intros x Hx. apply Hsub. by right.
Qed.

Lemma getitem_missing cs1 c cs2 df :
  cs1 ⊆ columns df → c ∉ columns df →
  getitem (cs1 ++ c :: cs2) df = Raise (KeyError c).
Proof. intros Hsub Hc. unfold getitem. by rewrite locate_all_missing. Qed.

(** The first of the labels [cs] that the columns do not have. *)
Lemma first_missing (cs cols : list string) :
  ¬ cs ⊆ cols → ∃ cs1 c cs2, cs = cs1 ++ c :: cs2 ∧ cs1 ⊆ cols ∧ (c ∉ cols).
Proof.
  induction cs as [|c cs IH]; intros Hnot.
  - destruct Hnot. by intros ? ?%elem_of_nil.
  - destruct (decide (c ∈ cols)) as [Hc|Hc].
    + destruct IH as (cs1 & c' & cs2 & -> & Hsub & Hc').
      { intros Hsub. apply Hnot. intros x [->|Hx]%elem_of_cons; [done|].
        by apply Hsub. }
      exists (c :: cs1), c', cs2. split; [done|]. split; [|done].
      intros x [->|Hx]%elem_of_cons; [done|]. by apply Hsub.
    + exists [], c, cs. split; [done|]. split; [|done].
      by intros ? ?%elem_of_nil.
Qed.

(** Selecting columns raises a [KeyError] for one that is missing as soon as
    one is missing. *)
Lemma getitem_some_missing cs df :
  ¬ cs ⊆ columns df →
  ∃ c, c ∈ cs ∧ (c ∉ columns df) ∧ getitem cs df = Raise (KeyError c).
Proof.
  intros (cs1 & c & cs2 & -> & Hsub & Hc)%first_missing.
  exists c. split; [|split; [done|by apply getitem_missing]].
  apply elem_of_app. right. left.
Qed.

(** A log without one of the four columns that [get_mass_changesets] reads
    makes it raise a [KeyError] for a column that is missing. *)
Theorem mass_changes_missing_column log t :
  ¬ ["revision"; "path"; "message"; "author"] ⊆ columns log →
  ∃ c, c ∈ ["revision"; "path"; "message"; "author"]
       ∧ (c ∉ columns log)
       ∧ get_mass_changesets log t = Raise (KeyError c).
Proof.
  intros Hnot.
  destruct (get_loc "revision" (columns log)) as [ir|] eqn:Hir.
  2:{ exists "revision". apply get_loc_None in Hir.
      split; [rewrite !elem_of_cons; auto|]. split; [done|].
      unfold get_mass_changesets.
      rewrite (getitem_missing [] "revision" ["path"]);
        [done | by intros ? ?%elem_of_nil | done]. }
  destruct (get_loc "path" (columns log)) as [ip|] eqn:Hip.
  2:{ exists "path". pose proof Hir as Hir'%get_loc_Some%list_elem_of_lookup_2.
      apply get_loc_None in Hip.
      split; [rewrite !elem_of_cons; auto|]. split; [done|].
      unfold get_mass_changesets.
      rewrite (getitem_missing ["revision"] "path" []); [done| |done].
      by intros c ->%list_elem_of_singleton. }
  assert (∃ c, c ∈ ["message"; "author"] ∧ (c ∉ columns log)
               ∧ getitem ["revision"; "message"; "author"] log
                 = Raise (KeyError c)) as (c & Hc & Hmiss & Hget).
  { pose proof Hir as Hir'%get_loc_Some%list_elem_of_lookup_2.
    destruct (decide ("message" ∈ columns log)) as [Hm|Hm].
    - destruct (decide ("author" ∈ columns log)) as [Ha|Ha].
      + destruct Hnot. intros c. rewrite !elem_of_cons, elem_of_nil.
        pose proof Hip as Hip'%get_loc_Some%list_elem_of_lookup_2.
        intros [->|[->|[->|[->|[]]]]]; done.
      + exists "author". split; [rewrite !elem_of_cons; auto|]. split; [done|].
        apply (getitem_missing ["revision"; "message"] "author" []); [|done].
        intros c. rewrite !elem_of_cons, elem_of_nil.
        intros [->|[->|[]]]; done.
    - exists "message". split; [rewrite !elem_of_cons; auto|]. split; [done|].
      apply (getitem_missing ["revision"] "message" ["author"]); [|done].
      by intros c ->%list_elem_of_singleton. }
  exists c. split; [rewrite !elem_of_cons in *; tauto|]. split; [done|].
  unfold get_mass_changesets. unfold getitem at 1. unfold locate_all.
  cbn [traverse]. unfold locate. rewrite Hir, Hip. cbn [bind columns rows index_names].
  cbn [fmap list_fmap].
  rewrite groupby_count_by_revision. cbn [bind].
  rewrite by_rev_reset, getcol_path_count. cbn [bind].
  set (sel := (λ r, (labels r, [cell r ir; cell r ip])) <$> rows log).
  rewrite (gt_VInt _ _ ((λ k, count_notna 1 (group [0%nat] k sel))
                          <$> group_keys [0%nat] sel)).
  2:{ rewrite <-!list_fmap_compose. apply list_fmap_ext_in.
      intros k [v ->]%group_keys_singleton. reflexivity. }
  cbn [bind]. by rewrite Hget.
Qed.

(** A log without one of the grouping columns, or without the column [date],
    makes [ages] raise a [KeyError] for a column that is missing. *)
Theorem ages_missing_column get_now strptime log ks utc kwargs :
  ¬ ks ++ ["date"] ⊆ columns log →
  ∃ c, c ∈ ks ++ ["date"]
       ∧ (c ∉ columns log)
       ∧ ages get_now strptime log (Some ks) utc kwargs = Raise (KeyError c).
Proof.
  intros (c & Hin & Hc & E)%getitem_some_missing.
  exists c. split; [done|]. split; [done|].
  unfold ages. cbv zeta. cbn [default]. unfold id. by rewrite E.
Qed.

(** * co_changes, further *)

(** A log without the column [on], or without the column [by], makes
    [co_changes] raise a [KeyError] for a column that is missing. *)
Theorem co_changes_missing_column log by_ on :
  ¬ [default "revision" on; default "path" by_] ⊆ columns log →
  ∃ c, c ∈ [default "revision" on; default "path" by_]
       ∧ (c ∉ columns log)
       ∧ co_changes log by_ on = Raise (KeyError c).
Proof.
  intros (c & Hin & Hc & E)%getitem_some_missing.
  exists c. split; [done|]. split; [done|].
  unfold co_changes. cbv zeta. by rewrite E.
Qed.

Section co_changes_further.
Context (log : DataFrame) (by_ on : option string) (out : DataFrame).
Let b := default "path" by_.
Let o := default "revision" on.
Context (Hne : b ≠ o).
Context (Hon : o ∉ ["primary"; "secondary"; b +:+ "_x"; b +:+ "_y"]).
Context (H : co_changes log by_ on = Ok out).

Lemma co_changes_result :
  out = mkDF [] ["primary"; "secondary"; o +:+ "_cochanges"; o +:+ "_changes";
                 "coupling"]
          (merge_sort (λ r1 r2, key_ge (key_at [4%nat] r1) (key_at [4%nat] r2))
             (final_row <$> result_rows log b o)).
Proof.
  pose proof H as H'. change (co_changes log (Some b) (Some o) = Ok out) in H'.
  assert (Hcols : [o; b] ⊆ columns log).
  { unfold co_changes in H'. apply bind_Ok in H' as (sel & Hsel & _).
    by apply getitem_Ok in Hsel. }
  pose proof Hon as Hon'. rewrite !not_elem_of_cons in Hon'.
  destruct Hon' as (H1 & H2 & H3 & H4 & _).
  rewrite co_changes_eval in H' by done. by injection H' as <-.
Qed.

Lemma at_coupling r : at_ out "coupling" r = cell r 4.
Proof.
  rewrite co_changes_result. unfold at_.
  cbn [columns get_loc fmap option_fmap option_map]. labels. done.
Qed.

Lemma at_primary r : at_ out "primary" r = cell r 0.
Proof. by rewrite co_changes_result. Qed.

Lemma at_secondary r : at_ out "secondary" r = cell r 1.
Proof. by rewrite co_changes_result. Qed.

End co_changes_further.

Lemma key_ge_float (c1 c2 : Qc) :
  key_ge [VFloat (Fin c1)] [VFloat (Fin c2)] →
  float_leb (Fin c2) (Fin c1) = true.
Proof.
  unfold key_ge. cbn. case_decide as E.
  - injection E as ->. intros _. by apply bool_decide_eq_true_2.
  - unfold value_geb, isna. rewrite !bool_decide_eq_false_2 by done. cbn.
    apply Is_true_true.
Qed.

(** The rows of the co-change table come with the larger couplings first. *)
Theorem co_changes_sorted log by_ on out :
  default "path" by_ ≠ default "revision" on →
  default "revision" on
    ∉ ["primary"; "secondary"; default "path" by_ +:+ "_x";
       default "path" by_ +:+ "_y"] →
  (∀ x, x ∈ rows log → notna (at_ log (default "revision" on) x)) →
  co_changes log by_ on = Ok out →
  Sorted (λ r1 r2, float_leb (as_float (at_ out "coupling" r2))
                             (as_float (at_ out "coupling" r1)) = true)
    (rows out).
Proof.
  intros Hne Hon Hfull H.
  pose proof (co_changes_result _ _ _ _ Hne Hon H) as Hout.
  pose proof H as H'.
  change (co_changes log (Some (default "path" by_)) (Some (default "revision" on))
          = Ok out) in H'.
  apply co_changes_rows in H' as [_ Hrows]; [|done..].
  eapply (Sorted_weaken_in
            (λ r1 r2, key_ge (key_at [4%nat] r1) (key_at [4%nat] r2)) _
            (λ r, ∃ c, cell r 4 = VFloat (Fin c))).
  - intros r1 r2 [c1 E1] [c2 E2] Hge.
    rewrite !(at_coupling _ _ _ _ Hne Hon H), E1, E2. cbn [as_float].
    apply key_ge_float. unfold key_at in Hge. cbn [fmap list_fmap] in Hge.
    by rewrite E1, E2 in Hge.
  - apply Forall_forall. intros r Hr.
    apply Hrows in Hr as (p & q & Hpq & Hp & Hq & (u & Hup & Huq) & ->).
    assert (Hu : notna u).
    { apply touches_unit in Hup as (x & Hx & <-). by apply Hfull. }
    pose proof (cochanges_pos _ _ _ _ _ _ Hu Hup Huq) as Hpos.
    pose proof (cochanges_le log (default "path" by_) (default "revision" on) p q)
      as Hle.
    rewrite ratio_ints by lia. by eexists.
  - rewrite Hout. cbn [rows]. apply Sorted_merge_sort, _.
Qed.

(** The pairs of the co-change table are the pairs of different paths that
    some grouping unit has both touched, in both orders; no path is paired
    with itself. *)
Theorem co_changes_pairs log by_ on out :
  default "path" by_ ≠ default "revision" on →
  default "revision" on
    ∉ ["primary"; "secondary"; default "path" by_ +:+ "_x";
       default "path" by_ +:+ "_y"] →
  co_changes log by_ on = Ok out →
  ∀ p q,
    (∃ r, r ∈ rows out ∧ at_ out "primary" r = p ∧ at_ out "secondary" r = q)
    ↔ p ≠ q ∧ notna p ∧ notna q
      ∧ ∃ u, touches log (default "path" by_) (default "revision" on) u p
             ∧ touches log (default "path" by_) (default "revision" on) u q.
Proof.
  intros Hne Hon H p q.
  pose proof H as H'.
  change (co_changes log (Some (default "path" by_)) (Some (default "revision" on))
          = Ok out) in H'.
  apply co_changes_rows in H' as [_ Hrows]; [|done..].
  split.
  - intros (r & Hr & <- & <-).
    rewrite (at_primary _ _ _ _ Hne Hon H), (at_secondary _ _ _ _ Hne Hon H).
    by apply Hrows in Hr as (p & q & Hpq & Hp & Hq & Hu & ->).
  - intros (Hpq & Hp & Hq & Hu). eexists. split.
    + apply Hrows. by exists p, q.
    + by rewrite (at_primary _ _ _ _ Hne Hon H), (at_secondary _ _ _ _ Hne Hon H).
Qed.

(** * hot_spots, further *)

(** *** Columns that are missing, or that clash *)

Lemma getcol_missing c df : c ∉ columns df → getcol c df = Raise (KeyError c).
Proof.
  intros Hc%get_loc_None. unfold getcol, locate. by rewrite Hc.
Qed.

Lemma merged_columns_clash (cols : list string) :
  let clash := filter (λ c, c ∈ ["changes"]) cols in
  "changes" ∈ cols →
  "changes" ∉ (suffixed "_x" clash <$> cols) ++ (suffixed "_y" clash <$> ["changes"]).
Proof.
  intros clash Hc Hin.
  assert (Hclash : ∀ c, c ∈ clash ↔ c = "changes" ∧ c ∈ cols).
  { intros c. unfold clash. rewrite list_elem_of_filter, list_elem_of_singleton.
    done. }
  assert ("changes" ∈ clash) as Hcl by by apply Hclash.
  apply elem_of_app in Hin as [Hin|Hin];
    apply list_elem_of_fmap in Hin as (c & Hc' & Hin); unfold suffixed in Hc';
    case_decide as Hd.
  - apply Hclash in Hd as [-> _]. discriminate Hc'.
  - by subst c.
  - apply list_elem_of_singleton in Hin as ->. discriminate Hc'.
  - apply list_elem_of_singleton in Hin as ->. done.
Qed.

Section hot_spots_errors.
Context (strtod : string → option float64) (log loc : DataFrame).
Context (by_ : option string) (count_one_change_per : option (list string)).

Let key := default "path" by_.
Let per := default ["revision"] count_one_change_per.
Let size := rename [("code", "complexity")] loc.

(** The steps of [hot_spots] up to the merge do not fail when the log has
    the columns that count the changes. *)
Lemma hot_spots_counts :
  per ++ [key] ⊆ columns log →
  ∃ sel changed,
    getitem (per ++ [key]) log = Ok sel
    ∧ getcol key (drop_duplicates sel) = Ok changed.
Proof.
  intros Hsub. rewrite (getitem_eval _ _ Hsub).
  destruct (locate_total key (per ++ [key])) as [i Hi].
  { apply elem_of_app. right. left. }
  eexists _, _. split; [done|].
  unfold getcol. cbn [drop_duplicates columns]. by rewrite Hi.
Qed.

(** A log without one of the columns [count_one_change_per], or without the
    column [by], makes [hot_spots] raise a [KeyError] for a column that is
    missing, whatever the size table. *)
Theorem hot_spots_missing_column :
  ¬ per ++ [key] ⊆ columns log →
  ∃ c, c ∈ per ++ [key]
       ∧ (c ∉ columns log)
       ∧ hot_spots strtod log loc by_ count_one_change_per = Raise (KeyError c).
Proof.
  intros (c & Hin & Hc & E)%getitem_some_missing.
  exists c. split; [done|]. split; [done|].
  unfold hot_spots. cbv zeta. fold key per. by rewrite E.
Qed.

(** A size table that has a column [changes] of its own makes [hot_spots]
    raise the [KeyError] of [changes]: the merge gives the two columns of
    that name a suffix, and the column that is then read is not there. *)
Theorem hot_spots_changes_clash :
  per ++ [key] ⊆ columns log → key ∈ columns size →
  "complexity" ∈ columns size → "changes" ∈ columns size →
  hot_spots strtod log loc by_ count_one_change_per = Raise (KeyError "changes").
Proof.
  intros Hsub Hk Hcx Hcl.
  destruct (hot_spots_counts Hsub) as (sel & changed & Hsel & Hch).
  unfold hot_spots. cbv zeta. fold key per size. rewrite Hsel. cbn [bind].
  rewrite Hch. cbn [bind]. unfold merge_outer_right_index.
  destruct (locate_total key (columns size) Hk) as [k ->]. cbn [bind].
  rewrite (getitem_missing ["complexity"] "changes" []); [done| |].
  - intros c ->%list_elem_of_singleton. cbn [fillna columns].
    apply elem_of_app. left. apply list_elem_of_fmap. exists "complexity".
    split; [|done]. unfold suffixed. rewrite decide_False; [done|].
    intros [Hin _]%list_elem_of_filter. cbn in Hin.
    by apply list_elem_of_singleton in Hin.
  - cbn [fillna columns to_frame]. by apply merged_columns_clash.
Qed.

End hot_spots_errors.

(** *** What [changes] counts *)

Lemma filter_unique_by {A B} `{EqDecision B} (f : A → B) (P : B → Prop)
    `{∀ y, Decision (P y)} (l : list A) :
  filter (λ x, P (f x)) (unique_by f l) = unique_by f (filter (λ x, P (f x)) l).
Proof.
  induction l as [|x l IH]; [done|]. cbn [unique_by].
  rewrite !filter_cons. destruct (decide (P (f x))) as [HP|HP].
  - cbn [unique_by]. f_equal. rewrite <-IH, !list_filter_filter.
    apply list_filter_iff. tauto.
  - rewrite <-IH, list_filter_filter. apply filter_ext_in.
    intros y _. split; [tauto|]. intros Hy. split; [done|].
    intros E. apply HP. by rewrite <-E.
Qed.

Lemma unique_by_fmap {A B} `{EqDecision B} (f : A → B) (l : list A) :
  f <$> unique_by f l = unique_by id (f <$> l).
Proof.
  induction l as [|x l IH]; [done|]. cbn [unique_by fmap list_fmap].
  f_equal. rewrite <-IH. by rewrite (filter_fmap (λ y, id y ≠ id (f x))).
Qed.

Lemma occurrences_changes per key log sel changed p :
  getitem (per ++ [key]) log = Ok sel →
  getcol key (drop_duplicates sel) = Ok changed →
  p ≠ VFloat NaN →
  occurrences p (filter (λ v, notna v) (values changed)) = changes_of log per key p.
Proof.
  intros Hsel Hch Hp. pose proof (getitem_Ok _ _ _ Hsel) as Hsub.
  rewrite (getitem_eval _ _ Hsub) in Hsel. injection Hsel as <-.
  unfold getcol in Hch. apply bind_Ok in Hch as (pb & Hpb & [= <-]).
  apply locate_Ok in Hpb. cbn [drop_duplicates columns rows] in *.
  unfold values, occurrences, changes_of. cbn [items]. f_equal.
  rewrite <-list_fmap_compose, list_filter_filter.
  rewrite (filter_ext_in _ (λ v, v = p)).
  2:{ intros v _. split; [tauto|]. intros ->. split; [done|].
      unfold notna, isna. by rewrite bool_decide_eq_false_2. }
  rewrite filter_fmap, length_fmap.
  set (S := (λ r, (labels r, key_of log (per ++ [key]) r)) <$> rows log).
  rewrite (filter_ext_in _ (λ r, default (VFloat NaN) (cells r !! pb) = p)) by done.
  transitivity (length (unique_by cells
                  (filter (λ r, default (VFloat NaN) (cells r !! pb) = p) S))).
  { f_equal.
    exact (@filter_unique_by row (list value) _ cells
             (λ cs, default (VFloat NaN) (cs !! pb) = p) (λ cs, decide _) S). }
  rewrite <-(length_fmap cells), unique_by_fmap. do 2 f_equal.
  unfold S. rewrite filter_fmap, <-list_fmap_compose.
  rewrite (filter_ext_in _ (λ x, at_ log key x = p)); [done|].
  intros x _. cbn [cells snd].
  change (default (VFloat NaN) (key_of log (per ++ [key]) x !! pb))
    with (cell (labels x, key_of log (per ++ [key]) x) pb).
  unfold key_of. rewrite (cell_built _ key pb _ (λ c, at_ log c x)) by done.
  done.
Qed.

Lemma value_counts_rows (s : Series) r :
  r ∈ rows (to_frame "changes" (value_counts s)) →
  ∃ v, v ≠ VFloat NaN ∧ v ∈ values s
       ∧ r = ([v], [VInt (occurrences v (filter (λ v, notna v) (values s)))])
       ∧ (0 < occurrences v (filter (λ v, notna v) (values s)))%Z.
Proof.
  unfold to_frame, value_counts. cbn [rows items].
  intros (x & -> & Hx)%list_elem_of_fmap.
  rewrite merge_sort_Permutation in Hx.
  apply list_elem_of_fmap in Hx as (v & -> & Hv).
  rewrite elem_of_unique_by_id in Hv. pose proof Hv as Hv'.
  apply list_elem_of_filter in Hv as [Hna Hv].
  exists v. split.
  { intros ->. done. }
  split; [done|]. split; [done|].
  unfold occurrences.
  assert (v ∈ filter (λ x, x = v) (filter (λ v, notna v) (values s))) as Hin
    by by apply list_elem_of_filter.
  destruct (filter (λ x, x = v) _) as [|y F]; [by apply elem_of_nil in Hin|].
  cbn. lia.
Qed.

(** The rows of an outer merge. *)
Lemma merge_outer_rows key sfx left right m k :
  merge_outer_right_index key sfx left right = Ok m →
  get_loc key (columns left) = Some k →
  ∀ r, r ∈ rows m ↔
    (∃ l, l ∈ rows left
          ∧ ((Forall (λ r0, right_label r0 ≠ cell l k) (rows right)
              ∧ r = ([], cells l ++ missing (length (columns right))))
             ∨ ∃ r0, r0 ∈ rows right ∧ right_label r0 = cell l k
                     ∧ r = ([], cells l ++ cells r0)))
    ∨ (∃ r0, r0 ∈ rows right ∧ (right_label r0 ∉ column_at k left)
             ∧ r = ([], <[k:=right_label r0]> (missing (length (columns left)))
                          ++ cells r0)).
Proof.
  unfold merge_outer_right_index, locate. intros H Hk.
  rewrite Hk in H. cbn [bind] in H. injection H as <-. cbn [rows]. intros r.
  rewrite elem_of_app, list_elem_of_bind, list_elem_of_fmap.
  apply Morphisms_Prop.or_iff_morphism.
  - split.
    + intros (l & Hin & Hl). exists l. split; [done|].
      destruct (filter _ (rows right)) as [|r1 rs] eqn:Hf.
      * apply list_elem_of_singleton in Hin as ->. left. split; [|done].
        apply Forall_forall. intros r0 Hr0 E.
        assert (r0 ∈ filter (λ r, right_label r = cell l k) (rows right)) as Hx
          by by apply list_elem_of_filter.
        rewrite Hf in Hx. by apply elem_of_nil in Hx.
      * change (r ∈ (λ r, (([] : list value), cells l ++ cells r)) <$> (r1 :: rs)) in Hin.
        apply list_elem_of_fmap in Hin as (r0 & -> & Hr0). right. exists r0.
        rewrite <-Hf in Hr0. apply list_elem_of_filter in Hr0 as [? ?]. done.
    + intros (l & Hl & [[Hno ->]|(r0 & Hr0 & E & ->)]); exists l; (split; [|done]).
      * assert (filter (λ r0, right_label r0 = cell l k) (rows right) = []) as ->;
          [|left].
        clear -Hno. induction Hno as [|x xs Hx _ IH]; [done|].
        by rewrite filter_cons_False.
      * assert (r0 ∈ filter (λ r, right_label r = cell l k) (rows right)) as Hx
          by by apply list_elem_of_filter.
        destruct (filter _ (rows right)) as [|r1 rs]; [by apply elem_of_nil in Hx|].
        change (([], cells l ++ cells r0)
                ∈ (λ r, (([] : list value), cells l ++ cells r)) <$> (r1 :: rs)).
        apply list_elem_of_fmap. by exists r0.
  - split.
    + intros (r0 & -> & [Hall Hr0]%list_elem_of_filter). exists r0.
      split; [done|]. split; [|done]. rewrite Forall_forall in Hall.
      unfold column_at. intros (l & E & Hl)%list_elem_of_fmap. by apply (Hall l).
    + intros (r0 & Hr0 & Hnot & ->). exists r0. split; [done|].
      apply list_elem_of_filter. split; [|done]. apply Forall_forall.
      intros l Hl E. apply Hnot. unfold column_at. apply list_elem_of_fmap.
      by exists l.
Qed.

(** *** The rows of the result and the rows of the merge *)

Section hot_spots_rows.
Context (strtod : string → option float64) (log loc : DataFrame).
Context (by_ : option string) (count_one_change_per : option (list string)).
Context (out : DataFrame).
Context (Hrect : rectangular loc).
Context (H : hot_spots strtod log loc by_ count_one_change_per = Ok out).

Let key := default "path" by_.
Let per := default ["revision"] count_one_change_per.
Let size := rename [("code", "complexity")] loc.

Lemma hot_spots_table :
  ∃ sel changed m k,
    getitem (per ++ [key]) log = Ok sel
    ∧ getcol key (drop_duplicates sel) = Ok changed
    ∧ merge_outer_right_index key ("_x", "_y") size
        (to_frame "changes" (value_counts changed)) = Ok m
    ∧ get_loc key (columns size) = Some k
    ∧ columns m = columns size ++ ["changes"]
    ∧ ("changes" ∉ columns size)
    ∧ (∀ r, r ∈ rows m →
         ∃ r', r' ∈ rows out
               ∧ ∀ c, c ∉ score_labels →
                   at_ out c r' = at_ m c (labels r, fill (VFloat (Fin Qc0)) <$> cells r))
    ∧ (∀ r', r' ∈ rows out →
         ∃ r, r ∈ rows m
              ∧ ∀ c, c ∉ score_labels →
                  at_ out c r' = at_ m c (labels r, fill (VFloat (Fin Qc0)) <$> cells r)).
Proof.
  destruct (hot_spots_steps _ _ _ _ _ _ Hrect H)
    as (sel & changed & m & Hsel & Hch & Hm & Hrm & Hcols & Hlen & _ & _ & Hrows).
  fold key per size in Hsel, Hch, Hm.
  pose proof Hm as Hm'. unfold merge_outer_right_index in Hm'.
  apply bind_Ok in Hm' as (k & Hk%locate_Ok & Hm').
  assert (Hin : "changes" ∈ columns m).
  { apply Hcols. rewrite !elem_of_cons. auto. }
  assert (Hcm : columns m = columns size ++ ["changes"]).
  { injection Hm' as <-. by apply merged_columns. }
  assert (Hnc : "changes" ∉ columns size).
  { intros Hc. injection Hm' as <-. by apply (merged_columns_clash (columns size)). }
  exists sel, changed, m, k. do 6 (split; [done|]).
  assert (Hfill : ∀ i r, rows m !! i = Some r →
            rows (fillna (VFloat (Fin Qc0)) m) !! i
            = Some (labels r, fill (VFloat (Fin Qc0)) <$> cells r)).
  { intros i r Hi. unfold fillna. cbn [rows]. apply list_lookup_fmap_Some.
    by exists r. }
  split.
  - intros r [i Hi]%list_elem_of_lookup.
    destruct (lookup_lt_is_Some_2 (rows out) i) as [r' Hr'].
    { rewrite Hlen. by eapply lookup_lt_Some. }
    exists r'. split; [by eapply list_elem_of_lookup_2|].
    destruct (Hrows _ _ Hr') as (r0 & Hr0 & _ & _ & _ & Hoth).
    pose proof (eq_trans (eq_sym (Hfill _ _ Hi)) Hr0) as E. injection E as <-.
    exact Hoth.
  - intros r' [i Hr']%list_elem_of_lookup.
    destruct (lookup_lt_is_Some_2 (rows m) i) as [r Hi].
    { rewrite <-Hlen. by eapply lookup_lt_Some. }
    exists r. split; [by eapply list_elem_of_lookup_2|].
    destruct (Hrows _ _ Hr') as (r0 & Hr0 & _ & _ & _ & Hoth).
    pose proof (eq_trans (eq_sym (Hfill _ _ Hi)) Hr0) as E. injection E as <-.
    exact Hoth.
Qed.

End hot_spots_rows.

Lemma at_merged (m : DataFrame) cols c j lbl (cs rest : list value) (f : value → value) :
  columns m = cols ++ ["changes"] → get_loc c cols = Some j → length cs = length cols →
  at_ m c (lbl, f <$> (cs ++ rest)) = f (default (VFloat NaN) (cs !! j)).
Proof.
  intros Hcm Hj Hlen. unfold at_. rewrite Hcm, (get_loc_app_l _ _ _ _ Hj).
  pose proof (get_loc_lt _ _ _ Hj) as Hjl.
  rewrite cell_fmap by (rewrite length_app; lia).
  by rewrite cell_app_l by lia.
Qed.

Lemma at_merged_changes (m : DataFrame) cols lbl (cs : list value) v (f : value → value) :
  columns m = cols ++ ["changes"] → "changes" ∉ cols → length cs = length cols →
  at_ m "changes" (lbl, f <$> (cs ++ [v])) = f v.
Proof.
  intros Hcm Hnc Hlen. unfold at_. rewrite Hcm, get_loc_last by done.
  rewrite cell_fmap by (rewrite length_app; cbn; lia).
  rewrite <-Hlen, <-(Nat.add_0_r (length cs)). by rewrite cell_app_r.
Qed.

(** Every row of the size table is in the result, with its cells under the
    labels of the size table, a missing cell being 0.0.  (A column that
    [hot_spots] itself writes, one of the three scores, is left out.) *)
Theorem hot_spots_size_rows_kept strtod log loc by_ count_one_change_per out l :
  rectangular loc →
  hot_spots strtod log loc by_ count_one_change_per = Ok out →
  l ∈ rows loc →
  ∃ r, r ∈ rows out
       ∧ ∀ c, c ∈ columns (rename [("code", "complexity")] loc) →
              c ∉ score_labels →
              at_ out c r
              = fill (VFloat (Fin 0)) (at_ (rename [("code", "complexity")] loc) c l).
Proof.
  intros Hrect H Hl.
  destruct (hot_spots_table _ _ _ _ _ _ Hrect H)
    as (sel & changed & m & k & _ & _ & Hm & Hk & Hcm & _ & Hto & _).
  set (size := rename [("code", "complexity")] loc) in *.
  assert (Hlen : length (cells l) = length (columns size)).
  { unfold rectangular in Hrect. rewrite Forall_forall in Hrect.
    rewrite (Hrect _ Hl). unfold size, rename. cbn. by rewrite length_fmap. }
  assert (∃ rest, ([], cells l ++ rest) ∈ rows m) as [rest Hr].
  { destruct (decide (Forall (λ r0, right_label r0 ≠ cell l k)
                        (rows (to_frame "changes" (value_counts changed)))))
      as [Hno|Hsome].
    - eexists. apply (merge_outer_rows _ _ _ _ _ _ Hm Hk). left. exists l.
      split; [done|]. left. done.
    - apply not_Forall_Exists, Exists_exists in Hsome as (r0 & Hr0 & E); [|apply _].
      apply dec_stable in E.
      eexists. apply (merge_outer_rows _ _ _ _ _ _ Hm Hk). left. exists l.
      split; [done|]. right. by exists r0. }
  destruct (Hto _ Hr) as (r' & Hr' & Hoth).
  exists r'. split; [done|]. intros c Hc Hsc.
  destruct (get_loc_is_Some _ _ Hc) as [j Hj].
  rewrite Hoth by done. cbn [labels cells fst snd].
  rewrite (at_merged m (columns size) c j) by done.
  unfold at_. by rewrite Hj.
Qed.

(** The cell [changes] of a row of the result: the count of the path, and 0.0
    for a path that the log does not have. *)
Lemma hot_spots_changes_cell strtod log loc by_ count_one_change_per out r :
  rectangular loc →
  hot_spots strtod log loc by_ count_one_change_per = Ok out →
  default "path" by_ ∉ score_labels →
  (∀ l, l ∈ rows loc →
        at_ (rename [("code", "complexity")] loc) (default "path" by_) l
        ≠ VFloat NaN) →
  r ∈ rows out →
  at_ out "changes" r
  = if decide (changes_of log (default ["revision"] count_one_change_per)
                 (default "path" by_) (at_ out (default "path" by_) r) = 0%Z)
    then VFloat (Fin 0)
    else VInt (changes_of log (default ["revision"] count_one_change_per)
                 (default "path" by_) (at_ out (default "path" by_) r)).
Proof.
  intros Hrect H Hkey Hpaths Hr.
  destruct (hot_spots_table _ _ _ _ _ _ Hrect H)
    as (sel & changed & m & k & Hsel & Hch & Hm & Hk & Hcm & Hnc & _ & Hfrom).
  set (key := default "path" by_) in *.
  set (per := default ["revision"] count_one_change_per) in *.
  set (size := rename [("code", "complexity")] loc) in *.
  assert (Hchanges : "changes" ∉ score_labels) by (unfold score_labels; label_facts).
  assert (Hlen : ∀ l, l ∈ rows loc → length (cells l) = length (columns size)).
  { intros l Hl. unfold rectangular in Hrect. rewrite Forall_forall in Hrect.
    rewrite (Hrect _ Hl). unfold size, rename. cbn. by rewrite length_fmap. }
  assert (Hcount : ∀ r0, r0 ∈ rows (to_frame "changes" (value_counts changed)) →
            ∃ v, v ≠ VFloat NaN ∧ r0 = ([v], [VInt (changes_of log per key v)])
                 ∧ (0 < changes_of log per key v)%Z).
  { intros r0 (v & Hv & _ & -> & Hpos)%value_counts_rows.
    rewrite (occurrences_changes per key log sel changed v) in * by done.
    by exists v. }
  pose proof (get_loc_lt _ _ _ Hk) as Hkl.
  destruct (Hfrom _ Hr) as (rm & Hrm & Hoth).
  rewrite !Hoth by done.
  apply (merge_outer_rows _ _ _ _ _ _ Hm Hk) in Hrm
    as [(l & Hl & [[Hno ->]|(r0 & Hr0 & E & ->)])|(r0 & Hr0 & Hnot & ->)];
    cbn [labels cells fst snd].
  - (* a path of the size table that the log does not have *)
    change (missing (length (columns (to_frame "changes" (value_counts changed)))))
      with [VFloat NaN].
    rewrite (at_merged_changes m (columns size)) by auto.
    rewrite (at_merged m (columns size) key k) by auto.
    change (default (VFloat NaN) (cells l !! k)) with (cell l k).
    assert (Hp : cell l k ≠ VFloat NaN).
    { rewrite (cell_at size key) by done. by apply Hpaths. }
    assert (fill (VFloat (Fin Qc0)) (cell l k) = cell l k) as ->.
    { unfold fill, isna. by rewrite bool_decide_eq_false_2. }
    rewrite decide_True; [done|].
    unfold changes_of.
    assert (filter (λ x, at_ log key x = cell l k) (rows log) = []) as ->; [|done].
    destruct (filter _ (rows log)) as [|x xs] eqn:Hf; [done|]. exfalso.
    assert (x ∈ filter (λ x, at_ log key x = cell l k) (rows log))
      as [Ex Hx]%list_elem_of_filter by (rewrite Hf; left).
    assert (cell l k ∈ col key log) as Hcol.
    { unfold col.
      destruct (get_loc_is_Some key (columns log)) as [i Hi].
      { apply (getitem_Ok _ _ _ Hsel), elem_of_app. right. left. }
      rewrite Hi. unfold column_at. apply list_elem_of_fmap. exists x.
      split; [|done]. by rewrite (cell_at log key _ _ Hi). }
    pose proof (changed_values _ _ _ _ _ _ Hsel Hch Hcol) as Hv.
    destruct (value_counts_index _ _ Hv Hp) as [n Hn].
    rewrite Forall_forall in Hno. apply (Hno ([cell l k], [VInt n])); [|done].
    unfold to_frame. cbn [rows]. apply list_elem_of_fmap.
    by exists ([cell l k], VInt n).
  - (* a path of both *)
    destruct (Hcount _ Hr0) as (v & Hv & -> & Hpos). cbn in E. subst v.
    cbn [cells snd].
    rewrite (at_merged_changes m (columns size)) by auto.
    rewrite (at_merged m (columns size) key k) by auto.
    change (default (VFloat NaN) (cells l !! k)) with (cell l k).
    assert (fill (VFloat (Fin Qc0)) (cell l k) = cell l k) as ->.
    { unfold fill, isna. by rewrite bool_decide_eq_false_2. }
    rewrite decide_False by lia. done.
  - (* a path of the log that the size table does not have *)
    destruct (Hcount _ Hr0) as (v & Hv & -> & Hpos).
    change (right_label ([v], [VInt (changes_of log per key v)])) with v.
    cbn [cells snd].
    rewrite (at_merged_changes m (columns size))
      by (auto; unfold missing; by rewrite length_insert, length_replicate).
    rewrite (at_merged m (columns size) key k)
      by (auto; unfold missing; by rewrite length_insert, length_replicate).
    rewrite list_lookup_insert_eq by (unfold missing; by rewrite length_replicate).
    change (default (VFloat NaN) (Some v)) with v.
    assert (fill (VFloat (Fin Qc0)) v = v) as ->.
    { unfold fill, isna. by rewrite bool_decide_eq_false_2. }
    rewrite decide_False by lia. done.
Qed.

(** The column [changes] of the result: for the path of a row, the number of
    distinct values that the rows of the log for that path have in the
    columns [count_one_change_per] and [by]; it is zero for a path that the
    log does not have.  (For a size table without a missing path.) *)
Theorem hot_spots_changes strtod log loc by_ count_one_change_per out r :
  rectangular loc →
  hot_spots strtod log loc by_ count_one_change_per = Ok out →
  default "path" by_ ∉ score_labels →
  (∀ l, l ∈ rows loc →
        at_ (rename [("code", "complexity")] loc) (default "path" by_) l
        ≠ VFloat NaN) →
  r ∈ rows out →
  number (at_ out "changes" r)
  = Some (Fin (Qc_of_Z (changes_of log (default ["revision"] count_one_change_per)
                          (default "path" by_) (at_ out (default "path" by_) r)))).
Proof.
  intros Hrect H Hkey Hpaths Hr.
  rewrite (hot_spots_changes_cell strtod log loc by_ count_one_change_per out r)
    by done.
  case_decide as E; [|done]. rewrite E. cbn [number]. do 2 f_equal.
  by apply Qc_is_canon.
Qed.

(** * get_mass_changesets, further *)

(** *** The ascending order of the sort is an order *)

Lemma float_sort_leb_trans a b c :
  float_sort_leb a b = true → float_sort_leb b c = true → float_sort_leb a c = true.
Proof.
  destruct a as [x| | |], b as [y| | |], c as [z| | |]; cbn; try done.
  rewrite !bool_decide_eq_true. apply Qcle_trans.
Qed.

Lemma float_sort_leb_antisym a b :
  float_sort_leb a b = true → float_sort_leb b a = true → a = b.
Proof.
  destruct a as [x| | |], b as [y| | |]; cbn; try done.
  rewrite !bool_decide_eq_true. intros. f_equal. by apply Qcle_antisym.
Qed.

Lemma value_leb_trans a b c :
  value_leb a b = true → value_leb b c = true → value_leb a c = true.
Proof.
  destruct a as [s1|z1|f1|b1|t1|d1], b as [s2|z2|f2|b2|t2|d2],
    c as [s3|z3|f3|b3|t3|d3]; cbn; try done;
    rewrite ?bool_decide_eq_true; try lia.
  - intros H1 H2. apply Is_true_true. apply Is_true_true in H1, H2.
    by etrans.
  - apply float_sort_leb_trans.
  - by destruct b1, b2, b3.
Qed.

Lemma value_leb_antisym a b :
  value_leb a b = true → value_leb b a = true → a = b.
Proof.
  destruct a as [s1|z1|f1|b1|t1|d1], b as [s2|z2|f2|b2|t2|d2]; cbn; try done;
    rewrite ?bool_decide_eq_true; try lia.
  - intros H1 H2. f_equal. by apply String.leb_antisym.
  - intros. f_equal. lia.
  - intros. f_equal. by apply float_sort_leb_antisym.
  - by destruct b1, b2.
  - intros. f_equal. lia.
  - intros. f_equal. lia.
Qed.

Lemma key_leb_trans k1 k2 k3 :
  key_leb k1 k2 = true → key_leb k2 k3 = true → key_leb k1 k3 = true.
Proof.
  revert k2 k3. induction k1 as [|a k1 IH]; intros [|b k2] [|c k3]; cbn; try done.
  destruct (decide (a = b)) as [->|Hab].
  - destruct (decide (b = c)) as [->|Hbc]; [apply IH | done].
  - destruct (decide (b = c)) as [->|Hbc].
    + by rewrite decide_False by done.
    + intros H1 H2. destruct (decide (a = c)) as [->|Hac].
      * destruct Hab. by apply value_leb_antisym.
      * by eapply value_leb_trans.
Qed.

Global Instance key_le_trans : Transitive key_le.
Proof.
  intros k1 k2 k3. unfold key_le. rewrite !Is_true_true. apply key_leb_trans.
Qed.







(** * hot_spots: the columns of the result *)

(** The result has the columns of the size table, [code] under the name
    [complexity], followed by [changes] and the three scores, when the size
    table has no column with the name of a score. *)
Theorem hot_spots_result_columns strtod log loc by_ count_one_change_per out :
  (∀ c, c ∈ score_labels → c ∉ columns loc) →
  hot_spots strtod log loc by_ count_one_change_per = Ok out →
  columns out
  = (rename_label [("code", "complexity")] <$> columns loc)
      ++ ["changes"; "complexity_score"; "changes_score"; "score"].
Proof.
  intros Hno H. unfold hot_spots in H. cbv zeta in H.
  apply bind_Ok in H as (sel & _ & H).
  apply bind_Ok in H as (changed & _ & H).
  apply bind_Ok in H as (m & Hm & H).
  apply bind_Ok in H as (metrics & Hmet%getitem_Ok & H).
  apply bind_Ok in H as (scores & Hsc%compute_score_columns & H).
  apply bind_Ok in H as (df1 & Hdf1 & H).
  apply bind_Ok in H as (both & _ & H).
  apply bind_Ok in H as (df2 & Hdf2 & [= ->]).
  set (cols := rename_label [("code", "complexity")] <$> columns loc) in *.
  assert (Hcm : columns (fillna (VFloat (Fin Qc0)) m) = cols ++ ["changes"]).
  { unfold merge_outer_right_index in Hm.
    apply bind_Ok in Hm as (k & _ & [= <-]). cbn [fillna columns rename].
    apply merged_columns. apply Hmet. right. left. }
  assert (Hcols : ∀ c, c ∈ score_labels → c ∉ cols).
  { intros c Hc (c' & E & Hc')%list_elem_of_fmap. cbn in E.
    case_decide; subst.
    - unfold score_labels in Hc. rewrite !elem_of_cons, elem_of_nil in Hc.
      by destruct Hc as [?|[?|[?|[]]]].
    - by apply (Hno c'). }
  unfold setitem_frame in Hdf1. case_decide as Hlen; [|done]. clear Hlen.
  cbn [setitem_from] in Hdf1.
  apply bind_Ok in Hdf1 as (df0 & Hdf0%setitem_columns & Hdf1).
  apply bind_Ok in Hdf1 as (df1' & Hdf1%setitem_columns & [= ->]).
  apply setitem_columns in Hdf2.
  rewrite Hcm in Hdf0. rewrite decide_False in Hdf0.
  2:{ rewrite elem_of_app, list_elem_of_singleton. intros [Hc|?]; [|done].
      apply (Hcols "complexity_score"); [|done]. unfold score_labels. label_facts. }
  rewrite Hdf0 in Hdf1. rewrite decide_False in Hdf1.
  2:{ rewrite !elem_of_app, !list_elem_of_singleton. intros [[Hc|?]|?]; [|done..].
      apply (Hcols "changes_score"); [|done]. unfold score_labels. label_facts. }
  rewrite Hdf1 in Hdf2. rewrite decide_False in Hdf2.
  2:{ rewrite !elem_of_app, !list_elem_of_singleton. intros [[[Hc|?]|?]|?]; [|done..].
      apply (Hcols "score"); [|done]. unfold score_labels. label_facts. }
  rewrite Hdf2. by rewrite <-!app_assoc.
Qed.

(** * The reports on the repository of the tests *)

(** Settles a closed statement by evaluating its decision procedure. *)
Ltac evaluate := apply (bool_decide_unpack _); vm_compute; exact I.

Lemma mass_changes_threshold_monotone_witness :
  (0 < 1)%Z
  ∧ get_mass_changesets Fixture.log 1 = Ok Fixture.mass_changes_1
  ∧ ∃ out, get_mass_changesets Fixture.log 0 = Ok out
           ∧ col "revision" Fixture.mass_changes_1 ⊆ col "revision" out.
Proof.
  split; [lia|]. split; [evaluate|].
  apply (mass_changes_threshold_monotone Fixture.log 0 1); [lia | evaluate].
Defined.


Lemma ages_reads_the_clock_witness :
  ("date" ∉ ["path"]) ∧ ("age" ∉ ["path"])
  ∧ ages Fixture.now Fixture.strptime Fixture.log (Some ["path"]) None
      [("reference_time", VTime (Fixture.sec 1519862400))] = Ok Fixture.ages_by_path
  ∧ ∀ kwargs',
      ages Fixture.now Fixture.strptime Fixture.log (Some ["path"]) None kwargs'
      = Ok Fixture.ages_by_path.
Proof.
  split; [evaluate|]. split; [evaluate|]. split; [evaluate|].
  apply (ages_reads_the_clock Fixture.now Fixture.strptime Fixture.log ["path"]
           None [("reference_time", VTime (Fixture.sec 1519862400))]);
    evaluate.
Defined.

Lemma ages_default_keys_witness :
  ages Fixture.now Fixture.strptime Fixture.log None None [] = Ok Fixture.ages_by_default
  ∧ ∀ c, c ∈ columns Fixture.ages_by_default
         ↔ c ∈ filter (λ c, c ∉ excluded) (columns Fixture.log) ∨ c = "age".
Proof.
  split; [evaluate|].
  apply (ages_default_keys Fixture.now Fixture.strptime Fixture.log None []
           Fixture.ages_by_default).
  evaluate.
Defined.

Lemma co_changes_coupling_range_witness :
  ("path" ≠ "revision")
  ∧ ("revision" ∉ ["primary"; "secondary"; "path_x"; "path_y"])
  ∧ Forall (λ x, notna (at_ Fixture.log "revision" x)) (rows Fixture.log)
  ∧ co_changes Fixture.log None None = Ok Fixture.co_changes_by_revision
  ∧ ∃ p q c,
      (([] : list value),
       [VStr "stats.py"; VStr "requirements.txt"; VInt 1; VInt 2;
        Fixture.q 1 2])
      = ([], [p; q; VInt (cochanges Fixture.log "path" "revision" p q);
              VInt (cochanges Fixture.log "path" "revision" p p);
              VFloat (Fin c)])
      ∧ c = (Qc_of_Z (cochanges Fixture.log "path" "revision" p q)
             / Qc_of_Z (cochanges Fixture.log "path" "revision" p p))%Qc
      ∧ (0 < c)%Qc ∧ (c ≤ 1)%Qc.
Proof.
  split; [evaluate|]. split; [evaluate|]. split; [evaluate|]. split; [evaluate|].
  apply (co_changes_coupling_range Fixture.log None None Fixture.co_changes_by_revision).
  - evaluate.
  - evaluate.
  - apply Forall_forall. evaluate.
  - evaluate.
  - evaluate.
Defined.

(** C2 fails on a log with rows that have no revision: the two paths of these
    rows are paired, the rows are not counted, and the couplings are 0.0 and
    NaN. *)
Lemma co_changes_coupling_of_missing_unit :
  co_changes Fixture.log_without_revision None None
  = Ok Fixture.co_changes_without_revision
  ∧ ¬ (∀ r, r ∈ rows Fixture.co_changes_without_revision →
         ∃ c : Qc,
           at_ Fixture.co_changes_without_revision "coupling" r = VFloat (Fin c)
           ∧ (0 < c)%Qc ∧ (c ≤ 1)%Qc).
Proof.
  split; [evaluate|]. intros Hall.
  destruct (Hall ([], [VStr "stats.py"; VStr "requirements.txt"; VInt 0; VInt 1;
                       Fixture.q 0 1]))
    as (c & E & Hpos & _); [left|].
  vm_compute in E. injection E as <-. by apply Qclt_not_le in Hpos.
Qed.

Lemma co_changes_counts_symmetric_witness :
  ("path" ≠ "revision")
  ∧ ("revision" ∉ ["primary"; "secondary"; "path_x"; "path_y"])
  ∧ co_changes Fixture.log None None = Ok Fixture.co_changes_by_revision
  ∧ ∃ m' c', ([], [VStr "requirements.txt"; VStr "stats.py"; VInt 1; m'; c'])
             ∈ rows Fixture.co_changes_by_revision.
Proof.
  split; [evaluate|]. split; [evaluate|]. split; [evaluate|].
  eapply (co_changes_counts_symmetric Fixture.log None None Fixture.co_changes_by_revision).
  - evaluate.
  - evaluate.
  - evaluate.
  - right. left.
Defined.

(** C1, as the claim has it, fails.  With every row of the log on the same
    day and one change counted a day, as in
    [test_hot_spot_with_custom_change_metric], both paths have one change:
    each holds the maximum of the column [changes], and each gets the
    [changes_score] 0, not 1. *)
Lemma hot_spots_maximum_of_constant_column :
  hot_spots Fixture.strtod Fixture.log_with_day Fixture.loc None (Some ["day"])
  = Ok Fixture.hot_spots_by_day
  ∧ Forall (λ r, holds_max Fixture.strtod Fixture.hot_spots_by_day "changes" r
                 ∧ at_ Fixture.hot_spots_by_day "changes_score" r = VFloat (Fin 0)
                 ∧ at_ Fixture.hot_spots_by_day "changes_score" r ≠ VFloat (Fin 1))
      (rows Fixture.hot_spots_by_day).
Proof. split; evaluate. Qed.

Lemma hot_spots_score_bounds_witness :
  rectangular Fixture.loc
  ∧ hot_spots Fixture.strtod Fixture.log Fixture.loc None None
    = Ok Fixture.hot_spots_by_revision
  ∧ Fixture.stats_by_revision ∈ rows Fixture.hot_spots_by_revision
  ∧ ∃ s1 s2 : Qc,
      at_ Fixture.hot_spots_by_revision "complexity_score"
        Fixture.stats_by_revision = VFloat (Fin s1)
      ∧ at_ Fixture.hot_spots_by_revision "changes_score"
          Fixture.stats_by_revision = VFloat (Fin s2)
      ∧ at_ Fixture.hot_spots_by_revision "score" Fixture.stats_by_revision
        = VFloat (Fin (s1 + s2))
      ∧ (0 ≤ s1 ∧ s1 ≤ 1)%Qc ∧ (0 ≤ s2 ∧ s2 ≤ 1)%Qc
      ∧ (0 ≤ s1 + s2 ∧ s1 + s2 ≤ 2)%Qc
      ∧ (holds_min Fixture.strtod Fixture.hot_spots_by_revision "complexity"
           Fixture.stats_by_revision → s1 = 0%Qc)
      ∧ (holds_min Fixture.strtod Fixture.hot_spots_by_revision "changes"
           Fixture.stats_by_revision → s2 = 0%Qc)
      ∧ (holds_max Fixture.strtod Fixture.hot_spots_by_revision "complexity"
           Fixture.stats_by_revision →
         spread (metric Fixture.strtod Fixture.hot_spots_by_revision "complexity") →
         Forall (λ y, in_exact_range y)
           (metric Fixture.strtod Fixture.hot_spots_by_revision "complexity") →
         s1 = 1%Qc)
      ∧ (holds_max Fixture.strtod Fixture.hot_spots_by_revision "changes"
           Fixture.stats_by_revision →
         spread (metric Fixture.strtod Fixture.hot_spots_by_revision "changes") →
         Forall (λ y, in_exact_range y)
           (metric Fixture.strtod Fixture.hot_spots_by_revision "changes") →
         s2 = 1%Qc).
Proof.
  assert (H1 : rectangular Fixture.loc) by evaluate.
  assert (H2 : hot_spots Fixture.strtod Fixture.log Fixture.loc None None
               = Ok Fixture.hot_spots_by_revision) by evaluate.
  assert (H3 : Fixture.stats_by_revision ∈ rows Fixture.hot_spots_by_revision)
    by evaluate.
  split; [exact H1|]. split; [exact H2|]. split; [exact H3|].
  exact (hot_spots_score_bounds Fixture.strtod Fixture.log Fixture.loc None None
           Fixture.hot_spots_by_revision Fixture.stats_by_revision H1 H2 H3).
Defined.

(** The maximum rule at work: [stats.py] holds the largest complexity of a
    column with a spread, inside the exact range, and scores 1 on it. *)
Example hot_spots_maximum_of_spread_column :
  holds_max Fixture.strtod Fixture.hot_spots_by_revision "complexity"
    Fixture.stats_by_revision
  ∧ spread (metric Fixture.strtod Fixture.hot_spots_by_revision "complexity")
  ∧ Forall (λ y, in_exact_range y)
      (metric Fixture.strtod Fixture.hot_spots_by_revision "complexity")
  ∧ at_ Fixture.hot_spots_by_revision "complexity_score" Fixture.stats_by_revision
    = VFloat (Fin 1).
Proof. repeat split; evaluate. Qed.

Lemma hot_spots_constant_column_witness :
  rectangular Fixture.loc
  ∧ hot_spots Fixture.strtod Fixture.log_with_day Fixture.loc None (Some ["day"])
    = Ok Fixture.hot_spots_by_day
  ∧ "changes" ∈ ["complexity"; "changes"]
  ∧ constant (metric Fixture.strtod Fixture.hot_spots_by_day "changes")
  ∧ (∀ input e, compute_score Fixture.strtod input = Raise e →
       astype_float Fixture.strtod input = Raise e)
  ∧ ∀ r, r ∈ rows Fixture.hot_spots_by_day →
         at_ Fixture.hot_spots_by_day "changes_score" r = VFloat (Fin 0).
Proof.
  assert (H1 : rectangular Fixture.loc) by evaluate.
  assert (H2 : hot_spots Fixture.strtod Fixture.log_with_day Fixture.loc None
                 (Some ["day"]) = Ok Fixture.hot_spots_by_day) by evaluate.
  assert (H3 : "changes" ∈ ["complexity"; "changes"]) by evaluate.
  assert (H4 : constant (metric Fixture.strtod Fixture.hot_spots_by_day "changes"))
    by evaluate.
  split; [exact H1|]. split; [exact H2|]. split; [exact H3|]. split; [exact H4|].
  exact (hot_spots_constant_column Fixture.strtod Fixture.log_with_day Fixture.loc
           None (Some ["day"]) Fixture.hot_spots_by_day "changes" H1 H2 H3 H4).
Defined.

Lemma hot_spots_rows_without_size_witness :
  rectangular Fixture.loc_of_stats
  ∧ hot_spots Fixture.strtod Fixture.log Fixture.loc_of_stats None None
    = Ok Fixture.hot_spots_of_stats
  ∧ ("path" ∉ score_labels)
  ∧ VStr "requirements.txt" ∈ col "path" Fixture.log
  ∧ (VStr "requirements.txt" ≠ VFloat NaN)
  ∧ (VStr "requirements.txt"
     ∉ col "path" (rename [("code", "complexity")] Fixture.loc_of_stats))
  ∧ ∃ r, r ∈ rows Fixture.hot_spots_of_stats
         ∧ at_ Fixture.hot_spots_of_stats "path" r = VStr "requirements.txt"
         ∧ ∀ c, c ∈ columns (rename [("code", "complexity")] Fixture.loc_of_stats) →
                c ≠ "path" → c ∉ score_labels →
                at_ Fixture.hot_spots_of_stats c r = VFloat (Fin 0).
Proof.
  assert (H1 : rectangular Fixture.loc_of_stats) by evaluate.
  assert (H2 : hot_spots Fixture.strtod Fixture.log Fixture.loc_of_stats None None
               = Ok Fixture.hot_spots_of_stats) by evaluate.
  assert (H3 : "path" ∉ score_labels) by evaluate.
  assert (H4 : VStr "requirements.txt" ∈ col "path" Fixture.log) by evaluate.
  assert (H5 : VStr "requirements.txt" ≠ VFloat NaN) by evaluate.
  assert (H6 : VStr "requirements.txt"
               ∉ col "path" (rename [("code", "complexity")] Fixture.loc_of_stats))
    by evaluate.
  split; [exact H1|]. split; [exact H2|]. split; [exact H3|]. split; [exact H4|].
  split; [exact H5|]. split; [exact H6|].
  exact (hot_spots_rows_without_size Fixture.strtod Fixture.log Fixture.loc_of_stats
           None None Fixture.hot_spots_of_stats (VStr "requirements.txt")
           H1 H2 H3 H4 H5 H6).
Defined.


(** The two features of weight 1/2 make the name, the larger first. *)
Example cluster_name_of_center :
  cluster_name Fixture.center Fixture.features 2 threshold_0_4
  = Ok "tools.analysis".
Proof. evaluate. Qed.

(** The comparison with 0.4 is strict: a feature whose weight is the float64
    0.4 itself is left out of the name, and a center that has no larger
    weight gets the empty name. *)
Example cluster_name_at_threshold :
  cluster_name [threshold_0_4; Fin (Q2Qc (1 # 2))] ["analysis"; "parsers"] 2
    threshold_0_4
  = Ok "parsers"
  ∧ cluster_name [threshold_0_4; Fin (Q2Qc (3 # 10))] ["analysis"; "parsers"] 2
      threshold_0_4
    = Ok "".
Proof. split; evaluate. Qed.

Lemma guess_components_table_witness :
  Fixture.fit ((λ p, dirname (replace_backslash p)) <$> Fixture.paths) None 2
    = (["analysis"; "parsers"],
       [[Fin (Q2Qc 0); Fin (Q2Qc 1)]; [Fin (Q2Qc 1); Fin (Q2Qc 0)]],
       [0; 1; 0]%nat)
  ∧ guess_components Fixture.fit Fixture.paths None 2 = Ok Fixture.components
  ∧ columns Fixture.components = ["path"; "component"]
  ∧ length [0; 1; 0]%nat = length Fixture.paths
  ∧ Forall (λ lbl, lbl < 2)%nat [0; 1; 0]%nat
  ∧ (∃ names,
       Forall2 (λ center name,
                  cluster_name center ["analysis"; "parsers"] 2 threshold_0_4
                  = Ok name)
         [[Fin (Q2Qc 0); Fin (Q2Qc 1)]; [Fin (Q2Qc 1); Fin (Q2Qc 0)]] names
       ∧ rows Fixture.components
         ≡ₚ zip_with (λ p lbl, ([], [VStr p; VStr (default "" (names !! lbl))]))
              Fixture.paths [0; 1; 0]%nat)
  ∧ Sorted (λ r1 r2, String.le (text (cell r1 1)) (text (cell r2 1)))
      (rows Fixture.components).
Proof.
  assert (H1 : Fixture.fit ((λ p, dirname (replace_backslash p)) <$> Fixture.paths)
                 None 2
               = (["analysis"; "parsers"],
                  [[Fin (Q2Qc 0); Fin (Q2Qc 1)]; [Fin (Q2Qc 1); Fin (Q2Qc 0)]],
                  [0; 1; 0]%nat)) by reflexivity.
  assert (H2 : guess_components Fixture.fit Fixture.paths None 2
               = Ok Fixture.components) by evaluate.
  split; [exact H1|]. split; [exact H2|].
  exact (guess_components_table Fixture.fit Fixture.paths None 2 _ _ _ _ H1 H2).
Defined.

Lemma cluster_name_order_free_witness :
  length Fixture.features = length Fixture.center
  ∧ length (reverse Fixture.features) = length (reverse Fixture.center)
  ∧ Forall (λ w, w ≠ NaN) Fixture.center
  ∧ zip Fixture.features Fixture.center
    ≡ₚ zip (reverse Fixture.features) (reverse Fixture.center)
  ∧ cluster_name Fixture.center Fixture.features 2 threshold_0_4
    = cluster_name (reverse Fixture.center) (reverse Fixture.features) 3
        threshold_0_4.
Proof.
  assert (H1 : length Fixture.features = length Fixture.center) by reflexivity.
  assert (H2 : length (reverse Fixture.features) = length (reverse Fixture.center))
    by reflexivity.
  assert (H3 : Forall (λ w, w ≠ NaN) Fixture.center) by evaluate.
  assert (H4 : zip Fixture.features Fixture.center
               ≡ₚ zip (reverse Fixture.features) (reverse Fixture.center)).
  { change (zip (reverse Fixture.features) (reverse Fixture.center))
      with (reverse (zip Fixture.features Fixture.center)).
    by rewrite reverse_Permutation. }
  split; [exact H1|]. split; [exact H2|]. split; [exact H3|]. split; [exact H4|].
  exact (cluster_name_order_free _ _ _ _ 2 3 threshold_0_4 H1 H2 H3 H4).
Defined.

Lemma ages_not_negative_witness :
  (["path"] ≠ []) ∧ ("date" ∉ ["path"]) ∧ ("age" ∉ ["path"])
  ∧ (∀ y, y ∈ rows Fixture.log →
          ∃ t, at_ Fixture.log "date" y = VTime t ∧ (t ≤ Fixture.now)%Z)
  ∧ ages Fixture.now Fixture.strptime Fixture.log (Some ["path"]) None []
    = Ok Fixture.ages_by_path
  ∧ ∀ r, r ∈ rows Fixture.ages_by_path →
         ∃ q : Qc, at_ Fixture.ages_by_path "age" r = VFloat (Fin q) ∧ (0 ≤ q)%Qc.
Proof.
  assert (H1 : ["path"] ≠ []) by done.
  assert (H2 : "date" ∉ ["path"]) by evaluate.
  assert (H3 : "age" ∉ ["path"]) by evaluate.
  assert (H4 : ∀ y, y ∈ rows Fixture.log →
             ∃ t, at_ Fixture.log "date" y = VTime t ∧ (t ≤ Fixture.now)%Z).
  { apply Forall_forall.
    repeat constructor; eexists; (split; [reflexivity | by vm_compute]). }
  assert (H5 : ages Fixture.now Fixture.strptime Fixture.log (Some ["path"]) None []
               = Ok Fixture.ages_by_path) by evaluate.
  split; [exact H1|]. split; [exact H2|]. split; [exact H3|]. split; [exact H4|].
  split; [exact H5|].
  exact (ages_not_negative Fixture.now Fixture.strptime Fixture.log ["path"] None []
           Fixture.ages_by_path H1 H2 H3 H4 H5).
Defined.

Lemma ages_one_row_a_key_witness :
  (["path"] ≠ []) ∧ ("date" ∉ ["path"]) ∧ ("age" ∉ ["path"])
  ∧ ages Fixture.now Fixture.strptime Fixture.log (Some ["path"]) None []
    = Ok Fixture.ages_by_path
  ∧ NoDup (key_of Fixture.ages_by_path ["path"] <$> rows Fixture.ages_by_path)
  ∧ Sorted key_le (key_of Fixture.ages_by_path ["path"] <$> rows Fixture.ages_by_path)
  ∧ ∀ k, k ∈ key_of Fixture.ages_by_path ["path"] <$> rows Fixture.ages_by_path ↔
         ∃ x, x ∈ rows Fixture.log ∧ key_of Fixture.log ["path"] x = k
              ∧ forallb notna k.
Proof.
  assert (H1 : ["path"] ≠ []) by done.
  assert (H2 : "date" ∉ ["path"]) by evaluate.
  assert (H3 : "age" ∉ ["path"]) by evaluate.
  assert (H4 : ages Fixture.now Fixture.strptime Fixture.log (Some ["path"]) None []
               = Ok Fixture.ages_by_path) by evaluate.
  split; [exact H1|]. split; [exact H2|]. split; [exact H3|]. split; [exact H4|].
  exact (ages_one_row_a_key Fixture.now Fixture.strptime Fixture.log ["path"] None []
           Fixture.ages_by_path H1 H2 H3 H4).
Defined.

Lemma ages_missing_column_witness :
  ¬ ["path"] ++ ["date"] ⊆ columns Fixture.loc
  ∧ ∃ c, c ∈ ["path"] ++ ["date"]
         ∧ (c ∉ columns Fixture.loc)
         ∧ ages Fixture.now Fixture.strptime Fixture.loc (Some ["path"]) None []
           = Raise (KeyError c).
Proof.
  assert (H1 : ¬ ["path"] ++ ["date"] ⊆ columns Fixture.loc) by evaluate.
  split; [exact H1|].
  exact (ages_missing_column Fixture.now Fixture.strptime Fixture.loc ["path"]
           None [] H1).
Defined.

Lemma mass_changes_missing_column_witness :
  ¬ ["revision"; "path"; "message"; "author"] ⊆ columns Fixture.loc
  ∧ ∃ c, c ∈ ["revision"; "path"; "message"; "author"]
         ∧ (c ∉ columns Fixture.loc)
         ∧ get_mass_changesets Fixture.loc 1 = Raise (KeyError c).
Proof.
  assert (H1 : ¬ ["revision"; "path"; "message"; "author"] ⊆ columns Fixture.loc)
    by evaluate.
  split; [exact H1|].
  exact (mass_changes_missing_column Fixture.loc 1 H1).
Defined.


Lemma co_changes_missing_column_witness :
  ¬ [default "revision" None; default "path" None] ⊆ columns Fixture.loc
  ∧ ∃ c, c ∈ [default "revision" None; default "path" None]
         ∧ (c ∉ columns Fixture.loc)
         ∧ co_changes Fixture.loc None None = Raise (KeyError c).
Proof.
  assert (H1 : ¬ [default "revision" None; default "path" None]
                 ⊆ columns Fixture.loc) by evaluate.
  split; [exact H1|].
  exact (co_changes_missing_column Fixture.loc None None H1).
Defined.

Lemma co_changes_sorted_witness :
  default "path" None ≠ default "revision" None
  ∧ (default "revision" None
       ∉ ["primary"; "secondary"; default "path" None +:+ "_x";
          default "path" None +:+ "_y"])
  ∧ (∀ x, x ∈ rows Fixture.log → notna (at_ Fixture.log (default "revision" None) x))
  ∧ co_changes Fixture.log None None = Ok Fixture.co_changes_by_revision
  ∧ Sorted (λ r1 r2,
            float_leb (as_float (at_ Fixture.co_changes_by_revision "coupling" r2))
                      (as_float (at_ Fixture.co_changes_by_revision "coupling" r1))
            = true)
      (rows Fixture.co_changes_by_revision).
Proof.
  assert (H1 : default "path" None ≠ default "revision" None) by evaluate.
  assert (H2 : default "revision" None
                 ∉ ["primary"; "secondary"; default "path" None +:+ "_x";
                    default "path" None +:+ "_y"]) by evaluate.
  assert (H3 : ∀ x, x ∈ rows Fixture.log →
                    notna (at_ Fixture.log (default "revision" None) x)).
  { apply Forall_forall. repeat constructor. }
  assert (H4 : co_changes Fixture.log None None = Ok Fixture.co_changes_by_revision)
    by evaluate.
  split; [exact H1|]. split; [exact H2|]. split; [exact H3|]. split; [exact H4|].
  exact (co_changes_sorted Fixture.log None None Fixture.co_changes_by_revision
           H1 H2 H3 H4).
Defined.

Lemma co_changes_pairs_witness :
  default "path" None ≠ default "revision" None
  ∧ (default "revision" None
       ∉ ["primary"; "secondary"; default "path" None +:+ "_x";
          default "path" None +:+ "_y"])
  ∧ co_changes Fixture.log None None = Ok Fixture.co_changes_by_revision
  ∧ ∀ p q,
      (∃ r, r ∈ rows Fixture.co_changes_by_revision
            ∧ at_ Fixture.co_changes_by_revision "primary" r = p
            ∧ at_ Fixture.co_changes_by_revision "secondary" r = q)
      ↔ p ≠ q ∧ notna p ∧ notna q
        ∧ ∃ u, touches Fixture.log (default "path" None) (default "revision" None) u p
               ∧ touches Fixture.log (default "path" None) (default "revision" None) u q.
Proof.
  assert (H1 : default "path" None ≠ default "revision" None) by evaluate.
  assert (H2 : default "revision" None
                 ∉ ["primary"; "secondary"; default "path" None +:+ "_x";
                    default "path" None +:+ "_y"]) by evaluate.
  assert (H3 : co_changes Fixture.log None None = Ok Fixture.co_changes_by_revision)
    by evaluate.
  split; [exact H1|]. split; [exact H2|]. split; [exact H3|].
  exact (co_changes_pairs Fixture.log None None Fixture.co_changes_by_revision
           H1 H2 H3).
Defined.

Lemma hot_spots_missing_column_witness :
  ¬ default ["revision"] None ++ [default "path" None] ⊆ columns Fixture.loc
  ∧ ∃ c, c ∈ default ["revision"] None ++ [default "path" None]
         ∧ (c ∉ columns Fixture.loc)
         ∧ hot_spots Fixture.strtod Fixture.loc Fixture.loc None None
           = Raise (KeyError c).
Proof.
  assert (H1 : ¬ default ["revision"] None ++ [default "path" None]
                 ⊆ columns Fixture.loc) by evaluate.
  split; [exact H1|].
  exact (hot_spots_missing_column Fixture.strtod Fixture.loc Fixture.loc None None
           H1).
Defined.

Lemma hot_spots_changes_clash_witness :
  default ["revision"] None ++ [default "path" None] ⊆ columns Fixture.log
  ∧ default "path" None
      ∈ columns (rename [("code", "complexity")] Fixture.loc_with_changes)
  ∧ "complexity" ∈ columns (rename [("code", "complexity")] Fixture.loc_with_changes)
  ∧ "changes" ∈ columns (rename [("code", "complexity")] Fixture.loc_with_changes)
  ∧ hot_spots Fixture.strtod Fixture.log Fixture.loc_with_changes None None
    = Raise (KeyError "changes").
Proof.
  assert (H1 : default ["revision"] None ++ [default "path" None]
                 ⊆ columns Fixture.log) by evaluate.
  assert (H2 : default "path" None
                 ∈ columns (rename [("code", "complexity")] Fixture.loc_with_changes))
    by evaluate.
  assert (H3 : "complexity"
                 ∈ columns (rename [("code", "complexity")] Fixture.loc_with_changes))
    by evaluate.
  assert (H4 : "changes"
                 ∈ columns (rename [("code", "complexity")] Fixture.loc_with_changes))
    by evaluate.
  split; [exact H1|]. split; [exact H2|]. split; [exact H3|]. split; [exact H4|].
  exact (hot_spots_changes_clash Fixture.strtod Fixture.log Fixture.loc_with_changes
           None None H1 H2 H3 H4).
Defined.

Lemma hot_spots_size_rows_kept_witness :
  rectangular Fixture.loc
  ∧ hot_spots Fixture.strtod Fixture.log Fixture.loc None None
    = Ok Fixture.hot_spots_by_revision
  ∧ ([], [VStr "Python"; VStr "stats.py"; VInt 28; VInt 84; VInt 100])
      ∈ rows Fixture.loc
  ∧ ∃ r, r ∈ rows Fixture.hot_spots_by_revision
         ∧ ∀ c, c ∈ columns (rename [("code", "complexity")] Fixture.loc) →
                c ∉ score_labels →
                at_ Fixture.hot_spots_by_revision c r
                = fill (VFloat (Fin 0))
                    (at_ (rename [("code", "complexity")] Fixture.loc) c
                       ([], [VStr "Python"; VStr "stats.py"; VInt 28; VInt 84;
                             VInt 100])).
Proof.
  assert (H1 : rectangular Fixture.loc) by evaluate.
  assert (H2 : hot_spots Fixture.strtod Fixture.log Fixture.loc None None
               = Ok Fixture.hot_spots_by_revision) by evaluate.
  assert (H3 : ([], [VStr "Python"; VStr "stats.py"; VInt 28; VInt 84; VInt 100])
                 ∈ rows Fixture.loc) by evaluate.
  split; [exact H1|]. split; [exact H2|]. split; [exact H3|].
  exact (hot_spots_size_rows_kept Fixture.strtod Fixture.log Fixture.loc None None
           Fixture.hot_spots_by_revision _ H1 H2 H3).
Defined.

Lemma hot_spots_changes_witness :
  rectangular Fixture.loc
  ∧ hot_spots Fixture.strtod Fixture.log Fixture.loc None None
    = Ok Fixture.hot_spots_by_revision
  ∧ (default "path" None ∉ score_labels)
  ∧ (∀ l, l ∈ rows Fixture.loc →
          at_ (rename [("code", "complexity")] Fixture.loc) (default "path" None) l
          ≠ VFloat NaN)
  ∧ Fixture.stats_by_revision ∈ rows Fixture.hot_spots_by_revision
  ∧ number (at_ Fixture.hot_spots_by_revision "changes" Fixture.stats_by_revision)
    = Some (Fin (Qc_of_Z (changes_of Fixture.log (default ["revision"] None)
                            (default "path" None)
                            (at_ Fixture.hot_spots_by_revision (default "path" None)
                               Fixture.stats_by_revision)))).
Proof.
  assert (H1 : rectangular Fixture.loc) by evaluate.
  assert (H2 : hot_spots Fixture.strtod Fixture.log Fixture.loc None None
               = Ok Fixture.hot_spots_by_revision) by evaluate.
  assert (H3 : default "path" None ∉ score_labels) by evaluate.
  assert (H4 : ∀ l, l ∈ rows Fixture.loc →
                    at_ (rename [("code", "complexity")] Fixture.loc)
                      (default "path" None) l ≠ VFloat NaN).
  { apply Forall_forall. repeat constructor; evaluate. }
  assert (H5 : Fixture.stats_by_revision ∈ rows Fixture.hot_spots_by_revision)
    by evaluate.
  split; [exact H1|]. split; [exact H2|]. split; [exact H3|]. split; [exact H4|].
  split; [exact H5|].
  exact (hot_spots_changes Fixture.strtod Fixture.log Fixture.loc None None
           Fixture.hot_spots_by_revision Fixture.stats_by_revision
           H1 H2 H3 H4 H5).
Defined.

Lemma hot_spots_result_columns_witness :
  (∀ c, c ∈ score_labels → c ∉ columns Fixture.loc)
  ∧ hot_spots Fixture.strtod Fixture.log Fixture.loc None None
    = Ok Fixture.hot_spots_by_revision
  ∧ columns Fixture.hot_spots_by_revision
    = (rename_label [("code", "complexity")] <$> columns Fixture.loc)
        ++ ["changes"; "complexity_score"; "changes_score"; "score"].
Proof.
  assert (H1 : ∀ c, c ∈ score_labels → c ∉ columns Fixture.loc).
  { apply Forall_forall. repeat constructor; evaluate. }
  assert (H2 : hot_spots Fixture.strtod Fixture.log Fixture.loc None None
               = Ok Fixture.hot_spots_by_revision) by evaluate.
  split; [exact H1|]. split; [exact H2|].
  exact (hot_spots_result_columns Fixture.strtod Fixture.log Fixture.loc None None
           Fixture.hot_spots_by_revision H1 H2).
Defined.
